(** * notion-astro-loader: a shallow embedding and its verified properties

    The development follows the source tree:
    - [Js], [Path]: the JavaScript string methods and the POSIX [node:path]
      functions the sources call;
    - [Asset]: [src/asset.ts] ([downloadFile], [resolveAssetPath]);
    - [Render]: [src/render.ts] ([extractTocHeadings], [buildProcessor],
      [NotionPageRenderer]);
    - [RehypeAssets]: [src/rehype/rehype-assets.ts];
    - [Loader]: the [load] method of [notionLoader].

    Strings are sequences of 8-bit characters: a JavaScript string is read
    as its sequence of code units, which is exact for ASCII text. *)

From Stdlib Require Import Strings.Ascii Strings.String Strings.Byte.
From stdpp Require Import gmap strings list fin_maps pretty.

Open Scope string_scope.
Open Scope list_scope.
Set Warnings "-register-all,-clear-no-such-hyp".

(** ** JavaScript string methods *)

Module Js.

(** [s.split(c)] for a one-character separator: never the empty list. *)
Fixpoint split_on (c : ascii) (s : string) : list string :=
  match s with
  | EmptyString => [EmptyString]
  | String a r =>
      if decide (a = c) then EmptyString :: split_on c r
      else match split_on c r with
           | h :: t => String a h :: t
           | [] => [String a EmptyString]
           end
  end.

(** [arr.filter(Boolean)] on an array of strings: the empty string is the
    only falsy one. *)
Definition filter_Boolean (l : list string) : list string :=
  filter (λ s, s ≠ "") l.

(** A string used as a condition. *)
Definition truthy (s : string) : bool := bool_decide (s ≠ "").

(** [s.startsWith(p)]. *)
Fixpoint startsWith (p s : string) : bool :=
  match p, s with
  | EmptyString, _ => true
  | String a p', String b s' => bool_decide (a = b) && startsWith p' s'
  | String _ _, EmptyString => false
  end.

(** [s.slice(n)] for [0 <= n]. *)
Fixpoint slice (n : nat) (s : string) : string :=
  match n, s with
  | O, _ => s
  | S n', String _ r => slice n' r
  | S _, EmptyString => EmptyString
  end.

(** [arr.join(sep)]. *)
Definition join (sep : string) (l : list string) : string := String.concat sep l.

(** [arr.pop()] read as "the last element", [None] for [undefined]. *)
Definition pop (l : list string) : option string := last l.

Definition lower_ascii (a : ascii) : ascii :=
  let n := nat_of_ascii a in
  if bool_decide (65 ≤ n ≤ 90)%nat then ascii_of_nat (n + 32)%nat else a.

(** [s.toLowerCase()], on the letters A to Z. *)
Fixpoint toLowerCase (s : string) : string :=
  match s with
  | EmptyString => EmptyString
  | String a r => String (lower_ascii a) (toLowerCase r)
  end.

(** [arr.includes(x)]. *)
Definition includes (x : string) (l : list string) : bool := bool_decide (x ∈ l).

End Js.

(** ** [node:path], POSIX flavour *)

Module Path.
Import Js.

Definition segments (p : string) : list string := split_on "/" p.

(** Resolution of [.] and [..] and removal of empty segments; [stack] holds
    the segments kept so far, innermost first. Above the root [..] stays at
    the root. *)
Fixpoint normalize (stack : list string) (segs : list string) : list string :=
  match segs with
  | [] => reverse stack
  | s :: r =>
      if decide (s = "" ∨ s = ".") then normalize stack r
      else if decide (s = "..") then normalize (tail stack) r
      else normalize (s :: stack) r
  end.

Definition absolute (segs : list string) : string := "/" +:+ join "/" segs.

Definition isAbsolute (p : string) : bool := startsWith "/" p.

(** One step of [path.resolve]: [p] against the absolute path [base]. *)
Definition resolve2 (base p : string) : string :=
  if isAbsolute p then absolute (normalize [] (segments p))
  else absolute (normalize [] (segments base ++ segments p)).

(** [path.resolve(...paths)] in a process whose working directory is [cwd]:
    a later absolute path replaces what stands before it. *)
Definition resolve (cwd : string) (paths : list string) : string :=
  foldl resolve2 (resolve2 "/" cwd) paths.

Fixpoint strip_common (a b : list string) : list string * list string :=
  match a, b with
  | x :: a', y :: b' => if decide (x = y) then strip_common a' b' else (a, b)
  | _, _ => (a, b)
  end.

(** [path.relative(from, to)]. *)
Definition relative (cwd : string) (from to : string) : string :=
  let f := normalize [] (segments (resolve cwd [from])) in
  let t := normalize [] (segments (resolve cwd [to])) in
  let '(f', t') := strip_common f t in
  join "/" (replicate (length f') ".." ++ t').

End Path.

(** ** The runtime the sources run in *)

Module Runtime.

(** What the sources throw, or let through from what they call. *)
Inductive Err :=
  | DirectoryMissing (dir : string)   (* Error(`Directory ${assetPath} does not exist`) *)
  | InvalidURL                        (* Error('Invalid URL') *)
  | UrlTypeError (url : string)       (* new URL(url) *)
  | FsError (path : string)           (* ensureDirSync on a path that holds a file *)
  | FetchFailed (url : string)        (* fetch(url), response.arrayBuffer() *)
  | ApiError (parent : string)        (* iteratePaginatedAPI *)
  | ExpectedNav (tagName : string)    (* Error(`Expected nav, got ${toc.tagName}`) *)
  | TypeError                         (* a property read on undefined *)
  | URIError (src : string)           (* decodeURI *)
  | StageError (msg : string).        (* a transform stage of the chain *)

Inductive Res (A : Type) :=
  | Ok (a : A)
  | Throw (e : Err).
Arguments Ok {A} a.
Arguments Throw {A} e.

Inductive Level := Debug | Info | Error.

Inductive LogEntry :=
  | Log (level : Level) (message : string)
  | ConsoleError (e : Err).

(** [MarkdownHeading]; [text] is [None] where the source stores [undefined]. *)
Record MarkdownHeading := {
  depth : nat;
  text : option string;
  slug : string;
}.

Inductive FsNode :=
  | Dir
  | File (content : list byte).

(** What the renderers of one process share: the file system (a table from
    resolved absolute paths to nodes), the writes [fse.writeFile] has started
    and nobody awaited, the URLs requested with [fetch], and the [headings]
    variable captured by the processor of [buildProcessor]. *)
Record World := {
  files : gmap string FsNode;
  pending : list (string * list byte);
  requests : list string;
  toc_headings : list MarkdownHeading;
}.

(** A [NotionPageRenderer] at work: the world and its private fields. *)
Record RS := {
  world : World;
  assetPaths : list string;
  downloaded : nat;
  cachedHits : nat;
  logs : list LogEntry;
}.

(** What the platform provides and the sources take as given. *)
Class Platform := {
  (** [process.cwd()] *)
  cwd : string;
  (** [new URL(url).pathname]; [None] when the constructor throws *)
  url_pathname : string → option string;
  (** [fetch(url)] followed by [arrayBuffer()]; [None] when either rejects *)
  http_fetch : string → option (list byte);
  (** [decodeURI]; [None] for a URIError *)
  decodeURI : string → option string;
  (** [JSON.stringify({ ...props, index })] *)
  json_stringify : gmap string string → nat → string;
  (** [JSON.stringify(error)] *)
  error_json : Err → string;
}.

(** State and exceptions: a thrown error keeps the effects made before it. *)
Definition M (A : Type) : Type := RS → RS * Res A.

Definition ret {A} (a : A) : M A := λ s, (s, Ok a).

Definition bind {A B} (m : M A) (k : A → M B) : M B :=
  λ s, match m s with
       | (s', Ok a) => k a s'
       | (s', Throw e) => (s', Throw e)
       end.

Definition throw {A} (e : Err) : M A := λ s, (s, Throw e).

(** [try { m } catch (error) { h error }] *)
Definition try_catch {A} (m : M A) (h : Err → M A) : M A :=
  λ s, match m s with
       | (s', Ok a) => (s', Ok a)
       | (s', Throw e) => h e s'
       end.

Definition gets {A} (f : RS → A) : M A := λ s, (s, Ok (f s)).

Definition modify (f : RS → RS) : M unit := λ s, (f s, Ok tt).

Definition of_option {A} (o : option A) (e : Err) : M A :=
  match o with Some a => ret a | None => throw e end.

Definition of_res {A} (r : Res A) : M A :=
  match r with Ok a => ret a | Throw e => throw e end.

Notation "'let!' x ':=' m 'in' k" := (bind m (λ x, k))
  (at level 10, x name, m at level 100, k at level 200).
Notation "'do!' m 'in' k" := (bind m (λ _, k))
  (at level 10, m at level 100, k at level 200).

Fixpoint mapM {A B} (f : A → M B) (l : list A) : M (list B) :=
  match l with
  | [] => ret []
  | x :: r => let! y := f x in let! ys := mapM f r in ret (y :: ys)
  end.

Definition set_world (f : World → World) (s : RS) : RS :=
  {| world := f (world s); assetPaths := assetPaths s;
     downloaded := downloaded s; cachedHits := cachedHits s; logs := logs s |}.

Definition set_files (f : gmap string FsNode → gmap string FsNode) (w : World) : World :=
  {| files := f (files w); pending := pending w; requests := requests w;
     toc_headings := toc_headings w |}.

Definition add_log (e : LogEntry) (s : RS) : RS :=
  {| world := world s; assetPaths := assetPaths s;
     downloaded := downloaded s; cachedHits := cachedHits s; logs := logs s ++ [e] |}.

Definition log (l : Level) (msg : string) : M unit := modify (add_log (Log l msg)).

Definition console_error (e : Err) : M unit := modify (add_log (ConsoleError e)).

(** [kleur]'s [dim] only adds terminal styling. *)
Definition dim (s : string) : string := s.

Section Fs.
Context `{Platform}.

Definition key (p : string) : string := Path.resolve cwd [p].

Definition exists_in (fs : gmap string FsNode) (k : string) : bool :=
  bool_decide (k = "/") || bool_decide (is_Some (fs !! k)).

(** [fse.existsSync(p)] *)
Definition existsSync (p : string) : M bool :=
  gets (λ s, exists_in (files (world s)) (key p)).

(** [mkdir -p] along the segments [segs] below [pre]: every missing
    directory is made; a file in the way is an error. *)
Fixpoint mkdirs (pre segs : list string) (fs : gmap string FsNode)
  : option (gmap string FsNode) :=
  match segs with
  | [] => Some fs
  | s :: r =>
      let p := Path.absolute (pre ++ [s]) in
      match fs !! p with
      | Some (File _) => None
      | _ => mkdirs (pre ++ [s]) r (<[p := Dir]> fs)
      end
  end.

(** [fse.ensureDirSync(p)] *)
Definition ensureDirSync (p : string) : M unit :=
  λ s, match mkdirs [] (Path.normalize [] (Path.segments (key p))) (files (world s)) with
       | Some fs => (set_world (set_files (λ _, fs)) s, Ok tt)
       | None => (s, Throw (FsError (key p)))
       end.

(** [fse.writeFile(p, data)] with the promise dropped: the write is started
    and completes at some later time. *)
Definition writeFile_unawaited (p : string) (data : list byte) : M unit :=
  modify (set_world (λ w,
    {| files := files w; pending := pending w ++ [(key p, data)];
       requests := requests w; toc_headings := toc_headings w |})).

(** [fetch(url)] and [response.arrayBuffer()], both awaited. *)
Definition fetch (url : string) : M (list byte) :=
  do! modify (set_world (λ w,
    {| files := files w; pending := pending w;
       requests := requests w ++ [url]; toc_headings := toc_headings w |})) in
  of_option (http_fetch url) (FetchFailed url).

(** A started write completes: it replaces a file or makes one, and fails
    on a directory. *)
Definition complete_write (fs : gmap string FsNode) (wr : string * list byte)
  : gmap string FsNode :=
  match fs !! wr.1 with
  | Some Dir => fs
  | _ => <[wr.1 := File wr.2]> fs
  end.

(** The world once every started write has completed. *)
Definition settle_writes (w : World) : World :=
  {| files := foldl complete_write (files w) (pending w); pending := [];
     requests := requests w; toc_headings := toc_headings w |}.

End Fs.

End Runtime.

(** ** src/asset.ts *)

Module Asset.
Import Js Runtime.

Inductive Tag := download | cached.

Record SaveOptions := {
  ignoreCache : bool;
  log_cb : option (string → M unit);
  tag_cb : option (Tag → M unit);
}.

Definition VIRTUAL_CONTENT_ROOT : string := "src/content/notion".

(** [cb?.(x)] *)
Definition call_opt {A} (cb : option (A → M unit)) (x : A) : M unit :=
  match cb with Some f => f x | None => ret tt end.

Section Asset.
Context `{Platform}.

(** The first three non-empty segments of the URL's path, as the array
    destructuring of [downloadFile] binds them; [None] is [undefined]. *)
Definition url_parts (pathname : string)
  : option string * option string * option string :=
  let segs := filter_Boolean (split_on "/" pathname) in
  (segs !! 0%nat, segs !! 1%nat, segs !! 2%nat).

(** [!x] for a string that may be [undefined]. *)
Definition falsy (o : option string) : bool :=
  match o with Some s => negb (truthy s) | None => true end.

(** [path.resolve(assetPath, objId)] *)
Definition saveDirPath (assetPath objId : string) : string :=
  Path.resolve cwd [assetPath; objId].

(** [path.resolve(saveDirPath, fileName)] *)
Definition filePath (assetPath objId fileName : string) : string :=
  Path.resolve cwd [saveDirPath assetPath objId; fileName].

Definition downloadFile (url assetPath : string) (options : SaveOptions) : M string :=
  let! root_exists := existsSync assetPath in
  if negb root_exists then throw (DirectoryMissing assetPath) else
  let! pathname := of_option (url_pathname url) (UrlTypeError url) in
  match url_parts pathname with
  | (parentId, objId, fileName) =>
    if falsy fileName || falsy parentId || falsy objId then throw InvalidURL else
    match objId, fileName with
    | Some objId, Some fileName =>
        do! ensureDirSync (saveDirPath assetPath objId) in
        let filePath := filePath assetPath objId fileName in
        let! file_exists := existsSync filePath in
        do! (if ignoreCache options || negb file_exists then
               let! buffer := fetch url in
               do! writeFile_unawaited filePath buffer in
               do! call_opt (log_cb options)
                     ("Downloaded file `" +:+ fileName +:+ "` " +:+
                      dim ("created `" +:+ filePath +:+ "`")) in
               call_opt (tag_cb options) download
             else
               do! call_opt (log_cb options)
                     ("Skipped downloading file `" +:+ fileName +:+ "` " +:+
                      dim ("cached at `" +:+ filePath +:+ "`")) in
               call_opt (tag_cb options) cached) in
        let relBasePath := Path.resolve cwd [cwd; VIRTUAL_CONTENT_ROOT] in
        ret (Path.relative cwd relBasePath filePath)
    | _, _ => throw InvalidURL
    end
  end.

Definition resolveAssetPath (rawPath : string) : string :=
  let absPath := Path.resolve cwd [cwd; VIRTUAL_CONTENT_ROOT; rawPath] in
  Path.relative cwd cwd absPath.

End Asset.

End Asset.

(** ** The markup tree (hast) *)

Module Hast.
Import Runtime.

(** Property values are strings; [properties] is the element's own object. *)
Inductive HNode :=
  | Element (tagName : string) (properties : gmap string string) (children : list HNode)
  | Text (value : string)
  | Root (children : list HNode)
  | Other (type : string).

Definition rbind {A B} (r : Res A) (k : A → Res B) : Res B :=
  match r with Ok a => k a | Throw e => Throw e end.

Notation "'let?' x ':=' r 'in' k" := (rbind r (λ x, k))
  (at level 10, x name, r at level 100, k at level 200).

End Hast.

(** ** src/rehype/rehype-assets.ts *)

Module RehypeAssets.
Import Js Runtime Hast.

Definition ASTRO_IMAGE_FORMATS : list string :=
  ["avif"; "webp"; "png"; "jpg"; "jpeg"; "gif"].

Definition isAstroImageFormat (src : string) : bool :=
  match pop (split_on "." src) with
  | Some ext => if truthy ext then includes (toLowerCase ext) ASTRO_IMAGE_FORMATS else false
  | None => false
  end.

(** What [.] of a regular expression does not match. *)
Definition line_terminator (a : ascii) : bool :=
  bool_decide (a = "010"%char) || bool_decide (a = "013"%char).

(** The longest run of groups matched by [(..\/)+], removed from the front:
    a group is any two characters, line terminators apart, and a slash. *)
Fixpoint skip_groups (s : string) : string :=
  match s with
  | String a (String b (String c r)) =>
      if bool_decide (c = "/"%char) && negb (line_terminator a) && negb (line_terminator b)
      then skip_groups r else s
  | _ => s
  end.

(** [s.replace(/^(..\/)+/, '/')] *)
Definition replace_dot_groups (s : string) : string :=
  match s with
  | String a (String b (String c r)) =>
      if bool_decide (c = "/"%char) && negb (line_terminator a) && negb (line_terminator b)
      then "/" +:+ skip_groups r else s
  | _ => s
  end.

(** [s.replace(/^src\//, '/')] *)
Definition replace_src_prefix (s : string) : string :=
  if startsWith "src/" s then "/" +:+ slice 4 s else s.

Section RehypeAssets.
Context `{Platform}.

(** The part of the visitor that handles [node.properties.href]. *)
Definition rewrite_href (props : gmap string string) : gmap string string :=
  match props !! "href" with
  | Some href =>
      if startsWith "src/" href then <["href" := replace_src_prefix href]> props else props
  | None => props
  end.

(** The visitor on an element: its new properties and the occurrence map.
    [assetPaths] is [None] when the option is left out. *)
Definition visit_element (assetPaths : option (list string))
    (occ : gmap string nat) (tagName : string) (props : gmap string string)
  : Res (gmap string nat * gmap string string) :=
  match props !! "src" with
  | Some src0 =>
      if truthy src0 then
        let? src := match decodeURI src0 with Some s => Ok s | None => Throw (URIError src0) end in
        let props := <["src" := src]> props in
        if bool_decide (tagName = "img")
           && match assetPaths with Some l => includes src l | None => false end
           && isAstroImageFormat src
        then
          let index := default 0%nat (occ !! src) in
          let occ := <[src := (index + 1)%nat]> occ in
          let hinted := <["__ASTRO_IMAGE_" := json_stringify props index]> props in
          (* Object.keys(props).forEach((prop) => delete node.properties[prop]) *)
          Ok (occ, hinted ∖ props)
        else
          let props1 :=
            if startsWith "../" src then <["src" := replace_dot_groups src]> props else props in
          let props2 :=
            if startsWith "src/" src then <["src" := replace_src_prefix src]> props1 else props1 in
          Ok (occ, rewrite_href props2)
      else Ok (occ, rewrite_href props)
  | None => Ok (occ, rewrite_href props)
  end.

(** [visit(tree, visitor)]: every node, parents before children, in document
    order; only elements are changed. The data of the vfile, where the
    visitor also stores [assetPaths], is left out. *)
Fixpoint visit (assetPaths : option (list string)) (occ : gmap string nat)
    (node : HNode) : Res (gmap string nat * HNode) :=
  let visit_all :=
    fix visit_all (occ : gmap string nat) (l : list HNode)
      : Res (gmap string nat * list HNode) :=
      match l with
      | [] => Ok (occ, [])
      | n :: r =>
          let? a := visit assetPaths occ n in
          let? b := visit_all a.1 r in
          Ok (b.1, a.2 :: b.2)
      end in
  match node with
  | Element tagName props children =>
      let? a := visit_element assetPaths occ tagName props in
      let? b := visit_all a.1 children in
      Ok (b.1, Element tagName a.2 b.2)
  | Root children =>
      let? b := visit_all occ children in
      Ok (b.1, Root b.2)
  | Text _ | Other _ => Ok (occ, node)
  end.

(** The transformer [rehypeAssets()({ assetPaths })]: a fresh occurrence map
    for every tree. *)
Definition rehypeAssets (assetPaths : option (list string)) (tree : HNode) : Res HNode :=
  let? r := visit assetPaths ∅ tree in Ok r.2.

End RehypeAssets.

End RehypeAssets.

(** ** The Notion objects the sources read *)

Module Notion.

(** A file object ([AssetObject] of [types.ts]); [rest] stands for the
    fields the sources copy and never read. *)
Inductive AssetObject :=
  | AssetNull
  | AssetFile (url expiry_time rest : string)
  | AssetExternal (url rest : string)
  | AssetEmoji (emoji : string)
  | AssetCustomEmoji (rest : string).

Inductive PageProperty :=
  | FilesProperty (files : list AssetObject)
  | TitleProperty (plain_text : string)
  | OtherProperty (type value : string).

(** A full page, as [isFullPage] accepts it. *)
Record Page := {
  page_id : string;
  last_edited_time : string;
  cover : AssetObject;
  icon : AssetObject;
  properties : list (string * PageProperty);
  page_rest : string;
}.

(** What [databases.query] lists: full pages and partial records. *)
Inductive PageRecord :=
  | PartialPage (id : string)
  | FullPage (page : Page).

(** The payload of a block, by its [type]. *)
Inductive BlockBody :=
  | FileBlock (file : AssetObject)
  | ImageBlock (image : AssetObject)
  | VideoBlock (video : AssetObject)
  | AudioBlock (audio : AssetObject)
  | CalloutBlock (icon : AssetObject) (rest : string)
  | OtherBlock (type payload : string).

(** A block as [blocks.children.list] lists it, with the listing of its own
    children: the blocks of a page form a tree. [children_ok] is [false]
    when the listing of the children fails after the blocks given. *)
Inductive RemoteBlock :=
  | PartialBlock (id : string)
  | FullBlock (id : string) (has_children : bool) (body : BlockBody)
      (children : list RemoteBlock) (children_ok : bool).

(** A block as [fetchBlocks] yields it; [children] is [None] where the
    property is never assigned. *)
Inductive Block :=
  | MkBlock (id : string) (has_children : bool) (body : BlockBody)
      (children : option (list Block)).

(** The API client: the pages of the database in the order listed (the
    listing fails after them when [query_ok] is [false]), and the top-level
    blocks of each page. *)
Record Client := {
  databases_query : list PageRecord;
  query_ok : bool;
  blocks_children : string → list RemoteBlock * bool;
}.

End Notion.

(** ** src/render.ts *)

Module Render.
Import Js Runtime Hast Notion Asset.

(** *** The processor *)

(** [node.value] of the node read as a [TextNode]. *)
Definition node_value (n : HNode) : option string :=
  match n with Text v => Some v | _ => None end.

(** [listElementToTree(ol, depth)]. A root has children and neither tag
    name nor properties; reading a property of [undefined] is a TypeError. *)
Fixpoint listElementToTree (ol : HNode) (depth : nat) : Res (list MarkdownHeading) :=
  match ol with
  | Element _ _ items | Root items =>
      (fix flatMap (l : list HNode) : Res (list MarkdownHeading) :=
         match l with
         | [] => Ok []
         | li :: r =>
             let? headings :=
               match li with
               | Element _ _ (Element _ link_props (child :: _) :: rest)
               | Root (Element _ link_props (child :: _) :: rest) =>
                   match link_props !! "href" with
                   | Some href =>
                       let currentHeading :=
                         {| depth := depth; text := node_value child; slug := slice 1 href |} in
                       match rest with
                       | subList :: _ =>
                           let? sub := listElementToTree subList (S depth) in
                           Ok ([currentHeading] ++ sub)%list
                       | [] => Ok [currentHeading]
                       end
                   | None => Throw TypeError
                   end
               | _ => Throw TypeError
               end in
             let? others := flatMap r in
             Ok (headings ++ others)%list
         end) items
  | _ => Throw TypeError
  end.

Definition extractTocHeadings (toc : HNode) : Res (list MarkdownHeading) :=
  match toc with
  | Element tagName _ children =>
      if bool_decide (tagName ≠ "nav") then Throw (ExpectedNav tagName)
      else match children with
           | ol :: _ => listElementToTree ol 0
           | [] => Throw TypeError
           end
  | _ => Throw (ExpectedNav "undefined")
  end.

(** A rehype plugin applied to its options. *)
Definition RehypePlugin : Type := option string → HNode → Res HNode.

(** What the [customizeTOC] hook of [rehype-toc] may answer. *)
Inductive TocAnswer :=
  | AnswerFalse
  | AnswerNode (n : HNode)
  | AnswerNothing.

(** The stages the chain takes from other packages. *)
Class Unified := {
  notionRehype : list Block → Res HNode;
  rehypeSlug : HNode → Res HNode;
  rehypeKatex : HNode → Res HNode;
  rehypeStringify : HNode → Res string;
  (** [rehype-toc]: the table of contents it builds for a tree, and the tree
      with a table of contents added *)
  createTOC : HNode → HNode;
  insertTOC : HNode → HNode → HNode;
}.

Section Processor.
Context `{Platform} `{Unified}.

Definition set_headings (hs : list MarkdownHeading) : M unit :=
  modify (set_world (λ w,
    {| files := files w; pending := pending w; requests := requests w;
       toc_headings := hs |})).

(** The hook [buildProcessor] gives to [rehype-toc]. *)
Definition customizeTOC (toc : HNode) : M TocAnswer :=
  let! hs := of_res (extractTocHeadings toc) in
  do! set_headings hs in
  ret AnswerFalse.

(** [rehype-toc] as its documentation states it: the hook receives the table
    of contents; [false] keeps it out of the page, a node replaces it. *)
Definition rehypeToc (hook : HNode → M TocAnswer) (tree : HNode) : M HNode :=
  let toc := createTOC tree in
  let! answer := hook toc in
  match answer with
  | AnswerFalse => ret tree
  | AnswerNode n => ret (insertTOC n tree)
  | AnswerNothing => ret (insertTOC toc tree)
  end.

Fixpoint use_plugins (plugins : list (RehypePlugin * option string)) (tree : HNode)
  : Res HNode :=
  match plugins with
  | [] => Ok tree
  | (plugin, options) :: r => let? t := plugin options tree in use_plugins r t
  end.

(** The function [buildProcessor(rehypePlugins)] returns. [rehypePlugins] is
    the promise of the loaded plugins, an error when loading one failed.
    This is a call during which no other render runs: [headings] is read as
    the call has stored it. [process_among] below is the general case. *)
Definition process (rehypePlugins : Res (list (RehypePlugin * option string)))
    (blocks : list Block) (assetPaths : list string)
  : M (string * list MarkdownHeading) :=
  let! plugins := of_res rehypePlugins in
  let! t := of_res (notionRehype blocks) in
  let! t := of_res (rehypeSlug t) in
  let! t := of_res (rehypeKatex t) in
  let! t := rehypeToc customizeTOC t in
  let! t := of_res (use_plugins plugins t) in
  let! t := of_res (RehypeAssets.rehypeAssets (Some assetPaths) t) in
  let! html := of_res (rehypeStringify t) in
  let! headings := gets (λ s, toc_headings (world s)) in
  ret (html, headings).

(** [process] while the renders of other pages are under way. The function
    awaits the processor and reads [headings] afterwards; the variable is
    the one of [buildProcessor], which all renders share. [others] is what
    the other renders have done to the shared world by then, the outline
    their hook stored included. *)
Definition process_among (others : World → World)
    (rehypePlugins : Res (list (RehypePlugin * option string)))
    (blocks : list Block) (assetPaths : list string)
  : M (string * list MarkdownHeading) :=
  let! plugins := of_res rehypePlugins in
  let! t := of_res (notionRehype blocks) in
  let! t := of_res (rehypeSlug t) in
  let! t := of_res (rehypeKatex t) in
  let! t := rehypeToc customizeTOC t in
  let! t := of_res (use_plugins plugins t) in
  let! t := of_res (RehypeAssets.rehypeAssets (Some assetPaths) t) in
  let! html := of_res (rehypeStringify t) in
  do! modify (set_world others) in
  let! headings := gets (λ s, toc_headings (world s)) in
  ret (html, headings).

End Processor.

(** *** NotionPageRenderer *)

Record Metadata := {
  imagePaths : list string;
  headings : list MarkdownHeading;
  blocks : list Block;
}.

Record RenderedNotionPage := {
  html : string;
  metadata : Metadata;
}.

(** [ParseDataOptions<NotionPageData>] *)
Record PageData := {
  data_id : string;
  data : Page;
}.

(** What [render] resolves to: both fields, or the empty object. *)
Inductive RenderResult :=
  | Rendered (data : PageData) (rendered : RenderedNotionPage)
  | EmptyResult.

Section Renderer.
Context `{Platform} `{Unified}.
Variable client : Client.
Variable page : Page.
Variable assetPath : string.

Definition push_assetPath (p : string) (s : RS) : RS :=
  {| world := world s; assetPaths := assetPaths s ++ [p];
     downloaded := downloaded s; cachedHits := cachedHits s; logs := logs s |}.

(** [(type) => this.#assetAnalytics[type]++] *)
Definition count_asset (t : Tag) : M unit :=
  modify (λ s,
    match t with
    | download =>
        {| world := world s; assetPaths := assetPaths s;
           downloaded := S (downloaded s); cachedHits := cachedHits s; logs := logs s |}
    | cached =>
        {| world := world s; assetPaths := assetPaths s;
           downloaded := downloaded s; cachedHits := S (cachedHits s); logs := logs s |}
    end).

Definition fetchAsset (fileObject : AssetObject) (resolvePath : bool) : M AssetObject :=
  try_catch
    (match fileObject with
     | AssetFile url expiry_time rest =>
         do! ensureDirSync assetPath in
         let! filePath :=
           downloadFile url assetPath
             {| ignoreCache := false; log_cb := Some (log Debug);
                tag_cb := Some count_asset |} in
         do! modify (push_assetPath filePath) in
         ret (AssetFile (if resolvePath then resolveAssetPath filePath else filePath)
                expiry_time rest)
     | _ => ret fileObject
     end)
    (λ error,
       do! log Error ("Failed to fetch image: " +:+ error_json error) in
       do! console_error error in
       ret fileObject).

(** The [switch] of [fetchBlocks] over the block's type. *)
Definition fetch_body (body : BlockBody) : M BlockBody :=
  match body with
  | FileBlock a => let! a' := fetchAsset a true in ret (FileBlock a')
  | ImageBlock a => let! a' := fetchAsset a false in ret (ImageBlock a')
  | VideoBlock a => let! a' := fetchAsset a true in ret (VideoBlock a')
  | AudioBlock a => let! a' := fetchAsset a true in ret (AudioBlock a')
  | CalloutBlock a rest => let! a' := fetchAsset a false in ret (CalloutBlock a' rest)
  | OtherBlock _ _ => ret body
  end.

(** One turn of the loop of [fetchBlocks]: [None] for a record that is
    skipped. The inner loop is [awaitAll(this.fetchBlocks(client, block.id))]. *)
Fixpoint fetchBlock (block : RemoteBlock) : M (option Block) :=
  match block with
  | PartialBlock _ => ret None
  | FullBlock id has_children body kids kids_ok =>
      let! children :=
        if has_children then
          do! log Debug ("Fetching children of block " +:+ id) in
          do! log Debug ("Fetching block " +:+ id) in
          let! l :=
            (fix each (l : list RemoteBlock) : M (list Block) :=
               match l with
               | [] => if kids_ok then ret [] else throw (ApiError id)
               | b :: r =>
                   let! x := fetchBlock b in
                   let! xs := each r in
                   ret (match x with Some y => y :: xs | None => xs end)
               end) kids in
          ret (Some l)
        else ret None in
      let! body' := fetch_body body in
      ret (Some (MkBlock id has_children body' children))
  end.

(** The blocks a listing yields, collected as [awaitAll] does. *)
Fixpoint fetch_listing (blockId : string) (l : list RemoteBlock) (ok : bool)
  : M (list Block) :=
  match l with
  | [] => if ok then ret [] else throw (ApiError blockId)
  | b :: r =>
      let! x := fetchBlock b in
      let! xs := fetch_listing blockId r ok in
      ret (match x with Some y => y :: xs | None => xs end)
  end.

(** [awaitAll(this.fetchBlocks(client, blockId))] *)
Definition fetchBlocks (blockId : string) : M (list Block) :=
  do! log Debug ("Fetching block " +:+ blockId) in
  fetch_listing blockId (blocks_children client blockId).1 (blocks_children client blockId).2.

(** [Promise.all(prop.files.map(...))]: the source starts the downloads of
    the files of a property together. Here they run one after the other,
    which gives the same files in the same order; the order in which their
    paths are recorded may differ from that of a run of the source. *)
Definition fetch_property (kp : string * PageProperty) : M (string * PageProperty) :=
  match kp.2 with
  | FilesProperty files =>
      let! files' := mapM (λ f, fetchAsset f true) files in
      ret (kp.1, FilesProperty files')
  | _ => ret kp
  end.

(** The files of a property are resolved one after the other. *)
Definition getPageData : M PageData :=
  let! cover := fetchAsset (cover page) true in
  let! icon := fetchAsset (icon page) true in
  let! properties := mapM fetch_property (properties page) in
  ret {| data_id := page_id page;
         data := {| page_id := page_id page; last_edited_time := last_edited_time page;
                    cover := cover; icon := icon; properties := properties;
                    page_rest := page_rest page |} |}.

Definition log_analytics : M unit :=
  let! d := gets downloaded in
  let! c := gets cachedHits in
  if bool_decide (0 < d)%nat || bool_decide (0 < c)%nat then
    log Info (join " "
      ["Found " +:+ pretty d +:+ " assets to download";
       if bool_decide (0 < c)%nat then dim (pretty c +:+ " already cached") else ""])
  else ret tt.

(** The body of the [try] block of [render]. *)
Definition render_try (process : list Block → list string → M (string * list MarkdownHeading))
  : M RenderResult :=
  do! log Debug "Generating page metadata" in
  let! data := getPageData in
  let! n := gets (λ s, length (assetPaths s)) in
  do! log Debug ("Generated page metadata " +:+ dim (pretty n +:+ " assets found")) in
  do! log Debug "Fetching page content" in
  let! blocks := fetchBlocks (page_id page) in
  do! log Debug ("Fetched page content " +:+ dim (pretty (length blocks) +:+ " blocks found")) in
  do! log_analytics in
  do! log Debug "Rendering page" in
  let! paths := gets assetPaths in
  let! r := process blocks paths in
  do! log Debug "Rendered page" in
  let! paths := gets assetPaths in
  ret (Rendered data
         {| html := r.1;
            metadata := {| headings := r.2; imagePaths := paths; blocks := blocks |} |}).

Definition render (process : list Block → list string → M (string * list MarkdownHeading))
  : M RenderResult :=
  try_catch (render_try process)
    (λ error,
       do! log Error ("Failed to render: " +:+ error_json error) in
       do! console_error error in
       ret EmptyResult).

End Renderer.

End Render.

(** ** The loader: [notionLoader] and its [load] method *)

Module Loader.
Import Js Runtime Hast Notion Asset Render.

(** An entry of the content store, as [load] writes it; [D] is what
    [parseData] returns. *)
Record Entry (D : Type) := {
  entry_id : string;
  digest : string;
  entry_data : D;
  entry_rendered : RenderedNotionPage;
  entry_filePath : string;
  assetImports : list string;
}.
Arguments entry_id {D} _.
Arguments digest {D} _.
Arguments entry_data {D} _.
Arguments entry_rendered {D} _.
Arguments entry_filePath {D} _.
Arguments assetImports {D} _.

(** The calls that change the store. *)
Inductive StoreOp :=
  | OpSet (id : string)
  | OpDelete (id : string).

(** The state of one call of [load]: the store and the calls made on it, the
    world of the renderers, and the local variables. [renderers] holds the
    pages whose render promise has not settled yet, [scheduled] is
    [renderers.length] of the source, [rejected] tells that a promise was
    rejected. *)
Record LState (D : Type) := {
  store : gmap string (Entry D);
  writes : list StoreOp;
  ambient : World;
  cachedPageIds : gset string;
  pageCount : nat;
  renderers : list Page;
  scheduled : nat;
  rejected : bool;
  messages : list LogEntry;
}.
Arguments store {D} _.
Arguments writes {D} _.
Arguments ambient {D} _.
Arguments cachedPageIds {D} _.
Arguments pageCount {D} _.
Arguments renderers {D} _.
Arguments scheduled {D} _.
Arguments rejected {D} _.
Arguments messages {D} _.

Inductive Outcome :=
  | Completed        (* load resolved *)
  | RenderRejected   (* Promise.all(renderers) rejected *)
  | QueryFailed.     (* the listing of the database failed *)

Section Load.
Context {D : Type}.
(** A new [NotionPageRenderer] for the page, and its [render(processor)]. *)
Variable run_render : Page → World → World * Res RenderResult.
(** [parseData] of the loader context; [None] when it rejects. *)
Variable parseData : PageData → option D.
(** [process.env.FORCE_RERENDER] *)
Variable FORCE_RERENDER : option string.

Definition force : bool :=
  match FORCE_RERENDER with Some v => truthy v | None => false end.

Definition say (e : LogEntry) (s : LState D) : LState D :=
  {| store := store s; writes := writes s; ambient := ambient s;
     cachedPageIds := cachedPageIds s; pageCount := pageCount s;
     renderers := renderers s; scheduled := scheduled s; rejected := rejected s;
     messages := messages s ++ [e] |}.

(** [store.set(entry)] *)
Definition store_set (e : Entry D) (s : LState D) : LState D :=
  {| store := <[entry_id e := e]> (store s); writes := writes s ++ [OpSet (entry_id e)];
     ambient := ambient s; cachedPageIds := cachedPageIds s; pageCount := pageCount s;
     renderers := renderers s; scheduled := scheduled s; rejected := rejected s;
     messages := messages s |}.

(** [store.delete(id)] *)
Definition store_delete (id : string) (s : LState D) : LState D :=
  {| store := delete id (store s); writes := writes s ++ [OpDelete id];
     ambient := ambient s; cachedPageIds := cachedPageIds s; pageCount := pageCount s;
     renderers := renderers s; scheduled := scheduled s; rejected := rejected s;
     messages := messages s |}.

Definition set_ambient (w : World) (s : LState D) : LState D :=
  {| store := store s; writes := writes s; ambient := w;
     cachedPageIds := cachedPageIds s; pageCount := pageCount s;
     renderers := renderers s; scheduled := scheduled s; rejected := rejected s;
     messages := messages s |}.

Definition set_rejected (s : LState D) : LState D :=
  {| store := store s; writes := writes s; ambient := ambient s;
     cachedPageIds := cachedPageIds s; pageCount := pageCount s;
     renderers := renderers s; scheduled := scheduled s; rejected := true;
     messages := messages s |}.

Definition set_renderers (l : list Page) (s : LState D) : LState D :=
  {| store := store s; writes := writes s; ambient := ambient s;
     cachedPageIds := cachedPageIds s; pageCount := pageCount s;
     renderers := l; scheduled := scheduled s; rejected := rejected s;
     messages := messages s |}.

(** [renderers.push(renderPromise)] *)
Definition push_renderer (p : Page) (s : LState D) : LState D :=
  {| store := store s; writes := writes s; ambient := ambient s;
     cachedPageIds := cachedPageIds s; pageCount := pageCount s;
     renderers := renderers s ++ [p]; scheduled := S (scheduled s);
     rejected := rejected s; messages := messages s |}.

(** [pageCount++] and [cachedPageIds.delete(page.id)] *)
Definition seen (id : string) (s : LState D) : LState D :=
  {| store := store s; writes := writes s; ambient := ambient s;
     cachedPageIds := cachedPageIds s ∖ {[id]}; pageCount := S (pageCount s);
     renderers := renderers s; scheduled := scheduled s; rejected := rejected s;
     messages := messages s |}.

(** The render promise of [page] settles: the renderer runs, and the
    callback given to [then] writes the entry unless the result is empty. *)
Definition settle (page : Page) (s : LState D) : LState D :=
  let '(w, r) := run_render page (ambient s) in
  let s := set_ambient w s in
  match r with
  | Ok (Rendered data rendered) =>
      match parseData data with
      | Some d =>
          store_set
            {| entry_id := page_id page;
               digest := last_edited_time page;
               entry_data := d;
               entry_rendered := rendered;
               entry_filePath := VIRTUAL_CONTENT_ROOT +:+ "/" +:+ page_id page +:+ ".md";
               assetImports := imagePaths (metadata rendered) |} s
      | None => set_rejected s
      end
  | Ok EmptyResult => s
  | Throw _ => set_rejected s
  end.

(** The body of the [for await] loop; the log lines leave out the title of
    the page. *)
Definition visit_record (r : PageRecord) (s : LState D) : LState D :=
  match r with
  | PartialPage _ => s
  | FullPage page =>
      let cachedPage := store s !! page_id page in
      let isCached := bool_decide (page_id page ∈ cachedPageIds s) in
      let s := seen (page_id page) s in
      if bool_decide (digest <$> cachedPage ≠ Some (last_edited_time page)) || force then
        say (Log Info ((if isCached then "Updated" else "Created") +:+ " page"))
          (push_renderer page s)
      else say (Log Debug "Skipped page") s
  end.

(** The pending promise at position [i] settles, if there is one. *)
Definition settle_at (i : nat) (s : LState D) : LState D :=
  match renderers s !! i with
  | Some p => settle p (set_renderers (delete i (renderers s)) s)
  | None => s
  end.

Definition settle_many (order : list nat) (s : LState D) : LState D :=
  foldl (λ s i, settle_at i s) s order.

(** Every promise still pending settles, oldest first. *)
Definition settle_rest (s : LState D) : LState D :=
  foldl (λ s p, settle p s) (set_renderers [] s) (renderers s).

(** The [for await] loop over the pages listed. While the loop waits for the
    next page, the promises named by the head of [schedule] settle, in the
    order given; the schedule left over is returned with the state. *)
Fixpoint enumerate (records : list PageRecord) (schedule : list (list nat))
    (s : LState D) : LState D * list (list nat) :=
  match records with
  | [] => (s, schedule)
  | r :: rest =>
      enumerate rest (tail schedule) (visit_record r (settle_many (hd [] schedule) s))
  end.

(** The loop that removes the pages not found in the API. *)
Definition delete_missing (s : LState D) : LState D :=
  foldl (λ s id, say (Log Info "Deleted page") (store_delete id s)) s
    (elements (cachedPageIds s)).

Definition start (entries : gmap string (Entry D)) (w : World) : LState D :=
  say (Log Info "Loading database")
    {| store := entries; writes := []; ambient := w;
       cachedPageIds := dom entries; pageCount := 0; renderers := [];
       scheduled := 0; rejected := false; messages := [] |}.

(** [load]: the renders are tasks of their own, joined at the end by
    [Promise.all]; [schedule] tells which of them settle at each point where
    [load] waits, every interleaving being one schedule. When the listing
    fails, [load] rejects at once. The log lines are shortened. *)
Definition load (client : Client) (schedule : list (list nat))
    (entries : gmap string (Entry D)) (w : World) : Outcome * LState D :=
  let '(s, schedule) := enumerate (databases_query client) schedule (start entries w) in
  let s := settle_many (hd [] schedule) s in
  if query_ok client then
    let s := delete_missing s in
    let s := say (Log Info "Loaded database") s in
    if bool_decide (scheduled s = 0%nat) then (Completed, s) else
    let s := say (Log Info "Rendering updated pages") s in
    let s := settle_rest (settle_many (hd [] (tail schedule)) s) in
    if rejected s then (RenderRejected, s)
    else (Completed, say (Log Info "Rendered pages") s)
  else (QueryFailed, s).

End Load.

(** *** [notionLoader] *)

(** One element of the [rehypePlugins] option. *)
Inductive PluginConfig :=
  | PluginFn (plugin : RehypePlugin) (options : option string)
  | PluginName (name : string) (options : option string).

Record NotionLoaderOptions := {
  assetPath : option string;
  rehypePlugins : list PluginConfig;
}.

Section NotionLoader.
Context `{Platform} `{Unified}.
(** [import(name)] and the [default] it exports; [None] when it rejects. *)
Variable import_default : string → option RehypePlugin.

(** [Promise.all(rehypePlugins.map(...))] *)
Fixpoint load_plugins (configs : list PluginConfig)
  : Res (list (RehypePlugin * option string)) :=
  match configs with
  | [] => Ok []
  | c :: r =>
      let? one :=
        match c with
        | PluginFn f options => Ok (f, options)
        | PluginName name options =>
            match import_default name with
            | Some f => Ok (f, options)
            | None => Throw (StageError name)
            end
        end in
      let? others := load_plugins r in
      Ok (one :: others)
  end.

Definition new_renderer (w : World) : RS :=
  {| world := w; assetPaths := []; downloaded := 0; cachedHits := 0; logs := [] |}.

(** [new NotionPageRenderer(client, page, absoluteAssetPath, log_pg)] and
    [renderer.render(processor)]. *)
Definition run_renderer (options : NotionLoaderOptions) (client : Client)
    (page : Page) (w : World) : World * Res RenderResult :=
  let absoluteAssetPath :=
    Path.resolve cwd [cwd; "src"; default "assets/notion" (assetPath options)] in
  let '(s, r) :=
    render client page absoluteAssetPath (process (load_plugins (rehypePlugins options)))
      (new_renderer w) in
  (world s, r).

Definition notionLoader_load {D} (options : NotionLoaderOptions) (client : Client)
    (parseData : PageData → option D) (FORCE_RERENDER : option string)
  : list (list nat) → gmap string (Entry D) → World → Outcome * LState D :=
  load (run_renderer options client) parseData FORCE_RERENDER client.

End NotionLoader.

End Loader.

(** ** src/format.ts *)

Module Format.
Import Js.

(** An item of rich text; [rich_rest] stands for the fields that
    [richTextToPlainText] does not read. *)
Record RichTextItem := {
  plain_text : string;
  rich_rest : string;
}.

Definition richTextToPlainText (data : list RichTextItem) : string :=
  join "" (plain_text <$> data).

End Format.

(** * Part II: the vocabulary of the statements *)

Module Spec.
Import Js Path Runtime Hast Notion Asset Render Loader.

(** ** Strings and paths *)

(** The character [c] does not occur in the string. *)
Fixpoint free (c : ascii) (s : string) : Prop :=
  match s with
  | EmptyString => True
  | String a r => a ≠ c ∧ free c r
  end.

(** A path segment that names a file or a directory. *)
Definition plain (s : string) : Prop :=
  s ≠ "" ∧ s ≠ "." ∧ s ≠ ".." ∧ free "/" s.

(** ** Computations *)

(** The state a computation leaves. *)
Definition exec {A} (m : M A) (s : RS) : RS := (m s).1.

(** A callback that returns and leaves the world as it is. *)
Definition benign {A} (cb : option (A → M unit)) : Prop :=
  ∀ f, cb = Some f → ∀ x s, ∃ s', f x s = (s', Ok tt) ∧ world s' = world s.

(** The options [#fetchAsset] passes to [downloadFile]. *)
Definition renderer_options : SaveOptions :=
  {| ignoreCache := false; log_cb := Some (log Debug); tag_cb := Some count_asset |}.

(** What the [catch] block of [#fetchAsset] adds to the log. *)
Definition fetch_failure_logged `{Platform} (e : Err) (s : RS) : RS :=
  add_log (ConsoleError e) (add_log (Log Error ("Failed to fetch image: " +:+ error_json e)) s).

(** What the [catch] block of [render] adds to the log. *)
Definition render_failure_logged `{Platform} (e : Err) (s : RS) : RS :=
  add_log (ConsoleError e) (add_log (Log Error ("Failed to render: " +:+ error_json e)) s).

(** The state in which [render] starts each of its stages. *)
Definition before_metadata (s : RS) : RS :=
  add_log (Log Debug "Generating page metadata") s.

Definition before_fetch (s : RS) : RS :=
  add_log (Log Debug "Fetching page content")
    (add_log (Log Debug ("Generated page metadata " +:+
                         dim (pretty (length (assetPaths s)) +:+ " assets found"))) s).

Definition before_process (blocks : list Block) (s : RS) : RS :=
  add_log (Log Debug "Rendering page")
    (exec log_analytics
       (add_log (Log Debug ("Fetched page content " +:+
                            dim (pretty (length blocks) +:+ " blocks found"))) s)).

(** ** The asset cache *)

(** The save path as the specification words it: below the root, the
    second-to-last non-empty segment of the URL's path, then the last. *)
Definition claimed_save_path (root segs : list string) : option string :=
  match reverse segs with
  | fileName :: objId :: _ => Some (absolute (root ++ [objId; fileName]))
  | _ => None
  end.

(** The world once [downloadFile] has requested [url] and started the write
    of [buffer] to [path]. *)
Definition asked `{Platform} (url path : string) (buffer : list byte) (w : World) : World :=
  {| files := files w; pending := pending w ++ [(key path, buffer)];
     requests := requests w ++ [url]; toc_headings := toc_headings w |}.

(** What the hook of a render does to the shared world when it stores the
    outline [hs]. *)
Definition storing (hs : list MarkdownHeading) (w : World) : World :=
  {| files := files w; pending := pending w; requests := requests w;
     toc_headings := hs |}.

(** ** The table of contents *)

(** An entry of a table of contents: the heading's text and anchor, the
    attributes its markup carries besides, and the entries nested under it
    when [nested] is set. *)
Inductive TocItem :=
  | Item (text slug : string) (attrs : gmap string string)
      (nested : bool) (subs : list TocItem).

(** The list item of an entry: the link, then the list of the nested entries. *)
Fixpoint item_node (it : TocItem) : HNode :=
  match it with
  | Item text slug attrs nested subs =>
      Element "li" attrs
        (Element "a" (<["href" := "#" +:+ slug]> attrs) [Text text]
         :: (if nested
             then [Element "ol" attrs
                     ((fix nodes (l : list TocItem) : list HNode :=
                         match l with
                         | [] => []
                         | x :: r => item_node x :: nodes r
                         end) subs)]
             else []))
  end.

Fixpoint item_nodes (l : list TocItem) : list HNode :=
  match l with
  | [] => []
  | x :: r => item_node x :: item_nodes r
  end.

(** The navigation list of a table of contents. *)
Definition nav_of (items : list TocItem) : HNode :=
  Element "nav" ∅ [Element "ol" ∅ (item_nodes items)].

(** The outline of an entry at depth [d]: the entry, then the nested
    entries one level deeper, in document order. *)
Fixpoint outline_item (d : nat) (it : TocItem) : list MarkdownHeading :=
  match it with
  | Item text slug _ nested subs =>
      {| depth := d; text := Some text; slug := slug |}
      :: (if nested
          then (fix all (l : list TocItem) : list MarkdownHeading :=
                  match l with
                  | [] => []
                  | x :: r => outline_item (S d) x ++ all r
                  end) subs
          else [])
  end.

Fixpoint outline (d : nat) (l : list TocItem) : list MarkdownHeading :=
  match l with
  | [] => []
  | x :: r => outline_item d x ++ outline d r
  end.

(** The callback [flatMap] runs on one list item in [listElementToTree]. *)
Definition item_headings (li : HNode) (depth : nat) : Res (list MarkdownHeading) :=
  match li with
  | Element _ _ (Element _ link_props (child :: _) :: rest)
  | Root (Element _ link_props (child :: _) :: rest) =>
      match link_props !! "href" with
      | Some href =>
          let currentHeading :=
            {| depth := depth; text := node_value child; slug := slice 1 href |} in
          match rest with
          | subList :: _ =>
              let? sub := listElementToTree subList (S depth) in
              Ok ([currentHeading] ++ sub)
          | [] => Ok [currentHeading]
          end
      | None => Throw TypeError
      end
  | _ => Throw TypeError
  end.

(** [ol.children.flatMap(...)] of [listElementToTree], as a loop of its own. *)
Fixpoint items_to_tree (l : list HNode) (depth : nat) : Res (list MarkdownHeading) :=
  match l with
  | [] => Ok []
  | li :: r =>
      let? headings := item_headings li depth in
      let? others := items_to_tree r depth in
      Ok (headings ++ others)
  end.

(** ** A pass of the loader *)

(** The full pages among the records listed, in the order listed. *)
Definition full_pages (records : list PageRecord) : list Page :=
  omap (λ r, match r with FullPage p => Some p | PartialPage _ => None end) records.

(** The identifier a listed record carries. *)
Definition record_id (r : PageRecord) : string :=
  match r with PartialPage id => id | FullPage p => page_id p end.

(** The pages of [U] with the identifier of [p] carry its fingerprint. *)
Definition agree (U : list Page) (p : Page) : Prop :=
  ∀ q, q ∈ U → page_id q = page_id p → last_edited_time q = last_edited_time p.

(** [p] is the only page of [U] with its identifier. *)
Definition only (U : list Page) (p : Page) : Prop :=
  ∀ q, q ∈ U → page_id q = page_id p → q = p.

Section Sync.
Context {D : Type}.
Variable run_render : Page → World → World * Res RenderResult.
Variable parseData : PageData → option D.

(** The render of [p], run in the world [w], ends in [store.set]. *)
Definition produces (p : Page) (w : World) : bool :=
  match run_render p w with
  | (_, Ok (Rendered d _)) => bool_decide (is_Some (parseData d))
  | _ => false
  end.

(** The render promise of [p], run in [w], is fulfilled: the renderer
    resolves, and [parseData] accepts what it rendered. *)
Definition fulfilled (p : Page) (w : World) : Prop :=
  match run_render p w with
  | (_, Ok (Rendered d _)) => is_Some (parseData d)
  | (_, Ok EmptyResult) => True
  | (_, Throw _) => False
  end.

(** The store holds the fingerprint of [p]. *)
Definition synced (p : Page) (entries : gmap string (Entry D)) : Prop :=
  ∃ e, entries !! page_id p = Some e ∧ digest e = last_edited_time p.

(** Whether the render of [p] ends in a write does not depend on the world. *)
Definition stable (p : Page) : Prop :=
  ∀ w w', produces p w = produces p w'.

(** The store a pass starts from, less the entries it deletes. *)
Definition kept (entries : gmap string (Entry D)) (U : list Page) : gmap string (Entry D) :=
  foldl (λ m id, delete id m) entries
    (elements (dom entries ∖ list_to_set (page_id <$> U) : gset string)).

(** The invariant of a pass. [U]: the full pages listed; [entries]: the
    store when the pass starts; [base]: that store, less what the pass
    deleted; [visited]: the full pages the loop has met; [todo]: the pages
    whose promise is pending. *)
Record Inv (U : list Page) (entries base : gmap string (Entry D))
    (visited todo : list Page) (s : LState D) : Prop := {
  inv_visited : ∀ p, p ∈ visited → p ∈ U;
  inv_pending : ∀ p, p ∈ todo → p ∈ visited;
  inv_cached : cachedPageIds s = dom entries ∖ list_to_set (page_id <$> visited);
  inv_count : (length todo ≤ scheduled s)%nat;
  inv_store : ∀ id,
    store s !! id = base !! id
    ∨ ∃ p e w, p ∈ visited ∧ page_id p = id ∧ produces p w = true
        ∧ store s !! id = Some e ∧ digest e = last_edited_time p;
  inv_writes : ∀ op, op ∈ writes s →
    (∃ p w, p ∈ visited ∧ produces p w = true ∧ op = OpSet (page_id p))
    ∨ (∃ id, op = OpDelete id ∧ id ∈ dom entries ∧ id ∉ page_id <$> U);
  inv_track : ∀ q, q ∈ visited → agree U q → stable q →
    synced q (store s) ∨ q ∈ todo ∨ ∀ w, produces q w = false;
}.

(** The invariant of a pass over a store that is up to date: nothing is
    written, and the pending renders are bound to fail. *)
Record Quiet (st : gmap string (Entry D)) (visited : list Page) (s : LState D) : Prop := {
  quiet_store : store s = st;
  quiet_writes : writes s = [];
  quiet_cached : cachedPageIds s = dom st ∖ list_to_set (page_id <$> visited);
  quiet_pending : ∀ p, p ∈ renderers s → ∀ w, produces p w = false;
}.

(** The invariant of a pass none of whose promises is rejected. *)
Record Calm (U : list Page) (s : LState D) : Prop := {
  calm_rejected : rejected s = false;
  calm_pending : ∀ p, p ∈ renderers s → p ∈ U;
}.

End Sync.

(** ** Block trees *)

(** Every listing the fetch of the block asks for succeeds. *)
Fixpoint listings_ok (b : RemoteBlock) : Prop :=
  match b with
  | PartialBlock _ => True
  | FullBlock _ has_children _ kids kids_ok =>
      has_children = true →
      kids_ok = true
      ∧ (fix all (l : list RemoteBlock) : Prop :=
           match l with
           | [] => True
           | x :: r => listings_ok x ∧ all r
           end) kids
  end.

(** A chain of [n] nested blocks above a leaf. *)
Fixpoint chain (n : nat) : RemoteBlock :=
  match n with
  | O => FullBlock "leaf" false (OtherBlock "paragraph" "") [] true
  | S m => FullBlock "node" true (OtherBlock "toggle" "") [chain m] true
  end.

(** ** What a pass keeps *)

Section Pass.
Context {D : Type}.
Variable run_render : Page → World → World * Res RenderResult.
Variable parseData : PageData → option D.
Variable FORCE_RERENDER : option string.

(** The entry [load] writes for the identifier [id]: that of a page of [U]
    with this identifier, made of what a render of the page resolved to and
    of what [parseData] returned for it. *)
Definition written_by (U : list Page) (id : string) (e : Entry D) : Prop :=
  ∃ p w w' d r x,
    p ∈ U ∧ page_id p = id
    ∧ run_render p w = (w', Ok (Rendered d r))
    ∧ parseData d = Some x
    ∧ e = {| entry_id := id;
             digest := last_edited_time p;
             entry_data := x;
             entry_rendered := r;
             entry_filePath := VIRTUAL_CONTENT_ROOT +:+ "/" +:+ id +:+ ".md";
             assetImports := imagePaths (metadata r) |}.

(** No [store.delete] so far, and every entry of the start still there. *)
Definition undeleted (entries : gmap string (Entry D)) (s : LState D) : Prop :=
  (∀ id, OpDelete id ∉ writes s) ∧ (∀ id, id ∈ dom entries → is_Some (store s !! id)).

(** The pending renders are of pages listed, and the entries of the store
    are those of the start or written by the pass. *)
Definition shaped (U : list Page) (entries : gmap string (Entry D)) (s : LState D) : Prop :=
  (∀ p, p ∈ renderers s → p ∈ U)
  ∧ (∀ id e, store s !! id = Some e → entries !! id = Some e ∨ written_by U id e).

(** The counters of a pass that has met the full pages [v]. *)
Definition counted (v : list Page) (s : LState D) : Prop :=
  pageCount s = length v
  ∧ (scheduled s ≤ length v)%nat
  ∧ (force FORCE_RERENDER = true →
     scheduled s = length v
     ∧ ∀ p, p ∈ v → (∀ w, produces run_render parseData p w = true) →
            p ∈ renderers s ∨ OpSet (page_id p) ∈ writes s).

(** The page [p], whose promise will be rejected, in a pass that has met
    the full pages [v]. *)
Definition doomed (entries : gmap string (Entry D)) (p : Page)
    (v : list Page) (s : LState D) : Prop :=
  store s !! page_id p = entries !! page_id p
  ∧ (∀ q, q ∈ renderers s → q ∈ v)
  ∧ (p ∈ v → (page_id p ∉ cachedPageIds s)
             ∧ (0 < scheduled s)%nat
             ∧ (p ∈ renderers s ∨ rejected s = true)).

End Pass.

(** ** The renderer *)

(** What [#fetchAsset] makes of a file object: the object itself, or, for a
    file hosted by Notion, the same object with another URL. *)
Definition asset_kept (a a' : AssetObject) : Prop :=
  a' = a
  ∨ ∃ url url' expiry rest, a = AssetFile url expiry rest ∧ a' = AssetFile url' expiry rest.

(** What [#getPageData] makes of a property: the name stays, and the value
    too unless it is a list of files, which keeps its length. *)
Definition property_kept (kp kp' : string * PageProperty) : Prop :=
  kp'.1 = kp.1
  ∧ match kp.2 with
    | FilesProperty fs => ∃ fs', kp'.2 = FilesProperty fs' ∧ Forall2 asset_kept fs fs'
    | other => kp'.2 = other
    end.

(** The counters of a renderer add up to the number of paths it recorded. *)
Definition tallied (s : RS) : Prop :=
  length (assetPaths s) = (downloaded s + cachedHits s)%nat.

(** A computation that keeps [P], whether it returns or throws. *)
Definition keeps {A} (P : RS → Prop) (m : M A) : Prop :=
  ∀ s s' r, P s → m s = (s', r) → P s'.

(** ** The blocks of a page *)

(** A file object without its URL. *)
Definition erase_url (a : AssetObject) : AssetObject :=
  match a with
  | AssetFile _ expiry rest => AssetFile "" expiry rest
  | _ => a
  end.

Definition erase_body (b : BlockBody) : BlockBody :=
  match b with
  | FileBlock a => FileBlock (erase_url a)
  | ImageBlock a => ImageBlock (erase_url a)
  | VideoBlock a => VideoBlock (erase_url a)
  | AudioBlock a => AudioBlock (erase_url a)
  | CalloutBlock a rest => CalloutBlock (erase_url a) rest
  | OtherBlock _ _ => b
  end.

(** A block, and the blocks under it, without the URLs of their files. *)
Fixpoint erase (b : Block) : Block :=
  match b with
  | MkBlock id has_children body children =>
      MkBlock id has_children (erase_body body)
        (match children with
         | Some l =>
             Some ((fix all (l : list Block) : list Block :=
                      match l with
                      | [] => []
                      | x :: r => erase x :: all r
                      end) l)
         | None => None
         end)
  end.

(** What the listing of a block stands for, URLs apart: nothing for a
    partial block; for a full block, the block with the blocks listed under
    it when [has_children] is set, and without [children] otherwise. *)
Fixpoint expected (b : RemoteBlock) : option Block :=
  match b with
  | PartialBlock _ => None
  | FullBlock id has_children body kids _ =>
      Some (MkBlock id has_children (erase_body body)
              (if has_children
               then Some ((fix all (l : list RemoteBlock) : list Block :=
                             match l with
                             | [] => []
                             | x :: r =>
                                 match expected x with
                                 | Some y => y :: all r
                                 | None => all r
                                 end
                             end) kids)
               else None))
  end.

(** What the fetch of a block says about its listing: it returns the block
    expected when the listings below succeed, and throws the error of a
    listing otherwise. *)
Definition fetched `{Platform} (assetPath : string) (b : RemoteBlock) : Prop :=
  ∀ s s' r, fetchBlock assetPath b s = (s', r) →
    match r with
    | Ok x => listings_ok b ∧ erase <$> x = expected b
    | Throw e => ∃ id, e = ApiError id
    end.

(** ** The markup tree *)

Section Children.
Context `{Platform}.
Variable assetPaths : option (list string).

(** The loop of [visit] over the children of a node, as a function of its
    own. *)
Fixpoint visit_children (occ : gmap string nat) (l : list HNode)
  : Res (gmap string nat * list HNode) :=
  match l with
  | [] => Ok (occ, [])
  | n :: r =>
      let? a := RehypeAssets.visit assetPaths occ n in
      let? b := visit_children a.1 r in
      Ok (b.1, a.2 :: b.2)
  end.

End Children.

(** A tree without the properties of its elements. *)
Fixpoint bare (n : HNode) : HNode :=
  match n with
  | Element tagName _ children =>
      Element tagName ∅
        ((fix all (l : list HNode) : list HNode :=
            match l with [] => [] | x :: r => bare x :: all r end) children)
  | Root children =>
      Root ((fix all (l : list HNode) : list HNode :=
               match l with [] => [] | x :: r => bare x :: all r end) children)
  | Text _ | Other _ => n
  end.

(** The [src] the visitor decodes on an element with these properties. *)
Definition own_src (props : gmap string string) : list string :=
  match props !! "src" with
  | Some src => if truthy src then [src] else []
  | None => []
  end.

(** The [src] properties the visitor decodes, in document order. *)
Fixpoint srcs (n : HNode) : list string :=
  match n with
  | Element _ props children =>
      own_src props
      ++ (fix all (l : list HNode) : list string :=
            match l with [] => [] | x :: r => srcs x ++ all r end) children
  | Root children =>
      (fix all (l : list HNode) : list string :=
         match l with [] => [] | x :: r => srcs x ++ all r end) children
  | Text _ | Other _ => []
  end.

(** What a step of the visit says about the [src] properties [l] it went
    through: all could be decoded, or the error is that of one of them. *)
Definition decoded `{Platform} {A} (x : Res A) (l : list string) : Prop :=
  match x with
  | Ok _ => Forall (λ s, is_Some (decodeURI s)) l
  | Throw e => ∃ s, e = URIError s ∧ s ∈ l ∧ decodeURI s = None
  end.

(** ** Paths that lead upward *)

(** [k] times [../] before [rest]. *)
Fixpoint upward (k : nat) (rest : string) : string :=
  match k with
  | O => rest
  | S k' => "../" +:+ upward k' rest
  end.

(** The string does not start with two characters and a slash. *)
Definition no_short_head (s : string) : Prop :=
  ∀ a b r, s ≠ String a (String b (String "/" r)).

(** An image of the asset list, which the visitor replaces by a hint for
    the image service: an [img] whose decoded [src] is in the list and has
    the extension of an image format. *)
Definition listed_image (assetPaths : option (list string)) (tagName src : string) : Prop :=
  tagName = "img" ∧ (∃ l, assetPaths = Some l ∧ src ∈ l) ∧ RehypeAssets.isAstroImageFormat src = true.

(** Text of 7-bit characters, on which a string of bytes and a string of
    JavaScript have the same characters. *)
Fixpoint ascii_only (s : string) : bool :=
  match s with
  | EmptyString => true
  | String a r => (nat_of_ascii a <? 128)%nat && ascii_only r
  end.

End Spec.

(** * Part III: an environment for the examples *)

Module Example.
Import Js Path Runtime Hast Notion Asset Render Loader Spec.

(** The path of a URL of the form [scheme://host/path?query#fragment] whose
    path has no dot segment and no escape: what [new URL] gives there. Other
    strings are outside the examples and answered by [None]. *)
Definition pathname_of (url : string) : option string :=
  match split_on "#" url with
  | before_hash :: _ =>
      match split_on "?" before_hash with
      | before_query :: _ =>
          match split_on "/" before_query with
          | scheme :: "" :: host :: segs =>
              if bool_decide (scheme = "https:") && truthy host
              then Some ("/" +:+ join "/" segs) else None
          | _ => None
          end
      | [] => None
      end
  | [] => None
  end.

Definition has_escape (s : string) : bool :=
  bool_decide (length (split_on "%" s) ≠ 1%nat).

(** [decodeURI] where there is nothing to decode. *)
Definition decode_plain (s : string) : option string :=
  if has_escape s then None else Some s.

Definition platform : Platform :=
  {| cwd := "/site";
     url_pathname := pathname_of;
     http_fetch := λ _, Some [x2a%byte];
     decodeURI := decode_plain;
     json_stringify := λ props index, "{index:" +:+ pretty index +:+ "}";
     error_json := λ _, "{}" |}.

Definition unified : Unified :=
  {| notionRehype := λ blocks, Ok (Root []);
     rehypeSlug := Ok;
     rehypeKatex := Ok;
     rehypeStringify := λ _, Ok "<html>";
     createTOC := λ _, nav_of [];
     insertTOC := λ toc tree, tree |}.

Definition root : string := "/site/src/assets/notion".

Definition empty_world : World :=
  {| files := ∅; pending := []; requests := []; toc_headings := [] |}.

(** A renderer in a world where the asset directory exists. *)
Definition ready : RS :=
  {| world := {| files := {[ root := Dir ]}; pending := []; requests := [];
                 toc_headings := [] |};
     assetPaths := []; downloaded := 0; cachedHits := 0; logs := [] |}.

Definition page_of (id edited : string) : Page :=
  {| page_id := id; last_edited_time := edited; cover := AssetNull; icon := AssetNull;
     properties := []; page_rest := "" |}.

Definition entry_of (id edited : string) : Entry string :=
  {| entry_id := id; digest := edited; entry_data := id;
     entry_rendered :=
       {| html := "";
          metadata := {| imagePaths := []; headings := []; blocks := [] |} |};
     entry_filePath := VIRTUAL_CONTENT_ROOT +:+ "/" +:+ id +:+ ".md";
     assetImports := [] |}.

(** A renderer that fails on the pages marked [broken]. *)
Definition toy_render (p : Page) (w : World) : World * Res RenderResult :=
  (w, Ok (if bool_decide (page_rest p = "broken") then EmptyResult
          else Rendered {| data_id := page_id p; data := p |}
                 {| html := "<p>";
                    metadata := {| imagePaths := []; headings := []; blocks := [] |} |})).

Definition toy_parse (d : PageData) : option string := Some (data_id d).

Definition client_of (records : list PageRecord) : Client :=
  {| databases_query := records; query_ok := true;
     blocks_children := λ id, ([], bool_decide (id ≠ "P")) |}.

Definition default_options : NotionLoaderOptions :=
  {| assetPath := None; rehypePlugins := [] |}.

Definition signed_url : string :=
  "https://files.example/workspace/0123/photo.png?X-Amz-Signature=aaaa".

Definition resigned_url : string :=
  "https://files.example/workspace/0123/photo.png?X-Amz-Signature=bbbb".

Definition deep_url : string :=
  "https://files.example/workspace/0123/2024/photo.png?X-Amz-Signature=aaaa".

(** The scenario of the specification: A and B at fingerprint [t1], then A
    gone and B at [t2]. *)
Definition first_listing : list PageRecord :=
  [FullPage (page_of "A" "t1"); FullPage (page_of "B" "t1")].

Definition later_listing : list PageRecord :=
  [PartialPage "A"; FullPage (page_of "B" "t2")].

Definition synced_store : gmap string (Entry string) :=
  {[ "A" := entry_of "A" "t1"; "B" := entry_of "B" "t1" ]}.

(** The listing of the blocks of page P fails, page Q renders. *)
Definition mixed_listing : list PageRecord :=
  [FullPage (page_of "P" "t1"); FullPage (page_of "Q" "t1")].

(** A page whose only block heads a chain of 500 nested blocks. *)
Definition deep_client : Client :=
  {| databases_query := []; query_ok := true;
     blocks_children := λ _, ([chain 500], true) |}.

(** The listing of the database fails after its first page. *)
Definition failing_client : Client :=
  {| databases_query := [FullPage (page_of "B" "t2")]; query_ok := false;
     blocks_children := λ _, ([], true) |}.

(** A schema that rejects the data of page B. *)
Definition strict_parse (d : PageData) : option string :=
  if bool_decide (data_id d = "B") then None else Some (data_id d).

(** A page whose cover is a file hosted by Notion. *)
Definition cover_page : Page :=
  {| page_id := "C"; last_edited_time := "t1";
     cover := AssetFile signed_url "2030-01-01" ""; icon := AssetEmoji "x";
     properties := [("Name", TitleProperty "Cover")]; page_rest := "" |}.

(** A URL whose host does not answer. *)
Definition dead_url : string := "https://down.example/workspace/0123/photo.png".

(** The platform of the examples, with that host down. *)
Definition flaky_platform : Platform :=
  {| cwd := "/site";
     url_pathname := pathname_of;
     http_fetch := λ url, if bool_decide (url = dead_url) then None else Some [x2a%byte];
     decodeURI := decode_plain;
     json_stringify := λ props index, "{index:" +:+ pretty index +:+ "}";
     error_json := λ _, "{}" |}.

(** The outline of another page. *)
Definition other_outline : list MarkdownHeading :=
  [{| depth := 1; text := Some "Another page"; slug := "another-page" |}].

End Example.

(** * Part IV: lemmas and theorems *)

Import Js Path Runtime Hast Notion Asset Render Loader RehypeAssets Spec.

Section StringFacts.
Import Js Path Spec.

Lemma split_on_cons c s : ∃ h t, split_on c s = h :: t.
Proof.
  induction s as [|a r [h [t IH]]]; simpl; [by eauto|].
  destruct (decide (a = c)); [by eauto|]. rewrite IH. by eauto.
Qed.

Lemma split_on_free c s : Forall (free c) (split_on c s).
Proof.
  induction s as [|a r IH]; simpl; [by repeat constructor|].
  destruct (decide (a = c)); [by constructor|].
  destruct (split_on c r) as [|h t]; [by repeat constructor|].
  apply Forall_cons in IH as [Hh Ht]. by repeat constructor.
Qed.

Lemma split_on_app c s t :
  free c s → split_on c (s +:+ String c t) = s :: split_on c t.
Proof.
  induction s as [|a r IH]; simpl.
  - intros _. by rewrite decide_True.
  - intros [Hne Hr]. rewrite decide_False by done. by rewrite IH.
Qed.

Lemma split_on_single c s : free c s → split_on c s = [s].
Proof.
  induction s as [|a r IH]; simpl; [done|].
  intros [Hne Hr]. rewrite decide_False by done. by rewrite IH.
Qed.

Lemma split_join c l :
  l ≠ [] → Forall (free c) l → split_on c (join (String c "") l) = l.
Proof.
  induction l as [|x [|y l] IH]; [done| |]; intros _ Hl.
  - simpl. apply split_on_single. by apply Forall_cons in Hl as [? _].
  - apply Forall_cons in Hl as [Hx Hl].
    change (join (String c "") (x :: y :: l))
      with (x +:+ String c "" +:+ join (String c "") (y :: l)).
    change (String c "" +:+ join (String c "") (y :: l))
      with (String c (join (String c "") (y :: l))).
    rewrite split_on_app by done. f_equal. by apply IH.
Qed.

Lemma plain_free s : plain s → free "/" s.
Proof. by intros (_ & _ & _ & ?). Qed.

Lemma Forall_plain_free l : Forall plain l → Forall (free "/") l.
Proof. intros Hl. eapply Forall_impl; [exact Hl|]. apply plain_free. Qed.

Lemma normalize_empty stack l : normalize stack ("" :: l) = normalize stack l.
Proof. reflexivity. Qed.

Lemma normalize_plain stack l :
  Forall plain l → normalize stack l = (reverse stack ++ l)%list.
Proof.
  revert stack. induction l as [|s l IH]; intros stack Hl; simpl.
  - by rewrite app_nil_r.
  - apply Forall_cons in Hl as [(H1 & H2 & H3 & _) Hl].
    rewrite decide_False by (by intros [?|?]). rewrite decide_False by done.
    rewrite IH by done. rewrite reverse_cons. by rewrite <- app_assoc.
Qed.

Lemma normalize_out stack l :
  Forall plain stack → Forall (free "/") l → Forall plain (normalize stack l).
Proof.
  revert stack. induction l as [|s l IH]; intros stack Hs Hl; simpl.
  - by apply Forall_reverse.
  - apply Forall_cons in Hl as [Hs0 Hl].
    destruct (decide (s = "" ∨ s = ".")); [by apply IH|].
    destruct (decide (s = "..")).
    + apply IH; [|done]. destruct stack; [done|]. by apply Forall_cons in Hs as [_ ?].
    + apply IH; [|done]. constructor; [|done]. unfold plain. tauto.
Qed.

Lemma segments_absolute l :
  Forall (free "/") l → l ≠ [] → segments (absolute l) = "" :: l.
Proof.
  intros Hl Hne. unfold segments, absolute. simpl.
  f_equal. by apply (split_join "/").
Qed.

Lemma normalize_segments_absolute l :
  Forall plain l → normalize [] (segments (absolute l)) = l.
Proof.
  intros Hl. destruct l as [|x l]; [done|].
  rewrite segments_absolute; [|by apply Forall_plain_free|done].
  rewrite normalize_empty. by rewrite normalize_plain.
Qed.

Lemma isAbsolute_absolute l : isAbsolute (absolute l) = true.
Proof. reflexivity. Qed.

Lemma isAbsolute_plain s : plain s → isAbsolute s = false.
Proof.
  intros (Hne & _ & _ & Hf). destruct s as [|a r]; [done|].
  destruct Hf as [Ha _]. unfold isAbsolute. simpl.
  by rewrite bool_decide_eq_false_2.
Qed.

Lemma resolve2_absolute base l :
  Forall plain l → resolve2 base (absolute l) = absolute l.
Proof.
  intros Hl. unfold resolve2. rewrite isAbsolute_absolute.
  by rewrite normalize_segments_absolute.
Qed.

Lemma resolve2_plain l s :
  Forall plain l → plain s → resolve2 (absolute l) s = absolute (l ++ [s]).
Proof.
  intros Hl Hs. unfold resolve2. rewrite isAbsolute_plain by done.
  f_equal.
  assert (Hseg : segments s = [s]) by (by apply split_on_single, plain_free).
  rewrite Hseg. destruct l as [|x l].
  - change (segments (absolute [])) with ["";""]. simpl app.
    rewrite !normalize_empty. rewrite normalize_plain; [done|].
    by apply Forall_singleton.
  - rewrite segments_absolute; [|by apply Forall_plain_free|done].
    simpl app. rewrite normalize_empty. rewrite normalize_plain; [done|].
    apply Forall_cons in Hl as [Hx Hl].
    constructor; [done|]. apply Forall_app. split; [done|].
    by apply Forall_singleton.
Qed.

Lemma resolve2_normal base p : ∃ l, Forall plain l ∧ resolve2 base p = absolute l.
Proof.
  unfold resolve2. destruct (isAbsolute p); eexists; (split; [|done]);
    apply normalize_out; try done.
  - apply split_on_free.
  - apply Forall_app. split; apply split_on_free.
Qed.

Lemma resolve_normal cwd paths : ∃ l, Forall plain l ∧ resolve cwd paths = absolute l.
Proof.
  unfold resolve. generalize (resolve2_normal "/" cwd).
  generalize (resolve2 "/" cwd) as base.
  induction paths as [|p paths IH]; intros base Hb; simpl; [done|].
  apply IH. apply resolve2_normal.
Qed.

Lemma resolve_absolute cwd l : Forall plain l → resolve cwd [absolute l] = absolute l.
Proof. intros Hl. unfold resolve. simpl. by apply resolve2_absolute. Qed.

Lemma resolve_child cwd l s :
  Forall plain l → plain s → resolve cwd [absolute l; s] = absolute (l ++ [s]).
Proof.
  intros Hl Hs. unfold resolve. simpl. rewrite resolve2_absolute by done.
  by apply resolve2_plain.
Qed.

Lemma resolve_idem cwd paths : resolve cwd [resolve cwd paths] = resolve cwd paths.
Proof.
  destruct (resolve_normal cwd paths) as (l & Hl & ->). by apply resolve_absolute.
Qed.

End StringFacts.

Section FsFacts.
Context `{Platform}.

Lemma key_resolve paths : key (resolve cwd paths) = resolve cwd paths.
Proof. apply resolve_idem. Qed.

Lemma mkdirs_lookup pre segs fs fs' k x :
  mkdirs pre segs fs = Some fs' → fs !! k = Some x → fs' !! k = Some x.
Proof.
  revert pre fs. induction segs as [|s r IH]; intros pre fs Hm Hk; simpl in Hm.
  - by simplify_eq.
  - set (p := absolute (pre ++ [s])) in *.
    assert (Hins : (<[p:=Dir]> fs) !! k = Some x).
    { destruct (decide (p = k)) as [->|Hne].
      - rewrite Hk in Hm. destruct x; [by rewrite lookup_insert_eq|done].
      - by rewrite lookup_insert_ne. }
    destruct (fs !! p) as [[|]|]; try done; by eapply IH.
Qed.

Lemma mkdirs_again pre segs fs fs' fs2 :
  mkdirs pre segs fs = Some fs' →
  (∀ k, fs' !! k = Some Dir → fs2 !! k = Some Dir) →
  mkdirs pre segs fs2 = Some fs2.
Proof.
  revert pre fs. induction segs as [|s r IH]; intros pre fs Hm Hd; simpl in *; [done|].
  set (p := absolute (pre ++ [s])) in *.
  assert (Hrec : mkdirs (pre ++ [s]) r (<[p:=Dir]> fs) = Some fs').
  { by destruct (fs !! p) as [[|]|]. }
  assert (Hp : fs2 !! p = Some Dir).
  { apply Hd. eapply mkdirs_lookup; [done|]. by rewrite lookup_insert_eq. }
  rewrite Hp. rewrite insert_id by done. by eapply IH.
Qed.

Lemma mkdirs_target pre segs s fs fs' :
  mkdirs pre (segs ++ [s]) fs = Some fs' → fs' !! absolute (pre ++ segs ++ [s]) = Some Dir.
Proof.
  revert pre fs. induction segs as [|x r IH]; intros pre fs Hm; simpl in Hm.
  - set (p := absolute (pre ++ [s])) in *.
    assert (fs' = <[p:=Dir]> fs) as -> by (destruct (fs !! p) as [[|]|]; by simplify_eq).
    by rewrite lookup_insert_eq.
  - set (p := absolute (pre ++ [x])) in *.
    assert (Hrec : mkdirs (pre ++ [x]) (r ++ [s]) (<[p:=Dir]> fs) = Some fs').
    { by destruct (fs !! p) as [[|]|]. }
    apply IH in Hrec. by rewrite <- app_assoc in Hrec.
Qed.

Lemma exists_in_mkdirs pre segs fs fs' k :
  mkdirs pre segs fs = Some fs' → exists_in fs k = true → exists_in fs' k = true.
Proof.
  unfold exists_in. intros Hm. rewrite !orb_true_iff, !bool_decide_eq_true.
  intros [?|[x Hx]]; [by left|right]. exists x. by eapply mkdirs_lookup.
Qed.

Lemma complete_write_dir fs wr k :
  fs !! k = Some Dir → complete_write fs wr !! k = Some Dir.
Proof.
  intros Hk. unfold complete_write.
  destruct (decide (wr.1 = k)) as [->|Hne].
  - by rewrite Hk.
  - destruct (fs !! wr.1) as [[|]|]; by rewrite ?lookup_insert_ne.
Qed.

Lemma complete_write_exists fs wr k :
  exists_in fs k = true → exists_in (complete_write fs wr) k = true.
Proof.
  unfold exists_in. rewrite !orb_true_iff, !bool_decide_eq_true.
  intros [?|[x Hx]]; [by left|right]. unfold complete_write.
  destruct (decide (wr.1 = k)) as [->|Hne].
  - rewrite Hx. destruct x; [by rewrite Hx|by rewrite lookup_insert_eq].
  - destruct (fs !! wr.1) as [[|]|]; rewrite ?lookup_insert_ne by done; by eauto.
Qed.

Lemma complete_write_written fs wr : exists_in (complete_write fs wr) wr.1 = true.
Proof.
  unfold exists_in. rewrite orb_true_iff, !bool_decide_eq_true. right.
  unfold complete_write. destruct (fs !! wr.1) as [[|]|] eqn:E;
    rewrite ?lookup_insert_eq, ?E; by eauto.
Qed.

Lemma complete_writes_dir l fs k :
  fs !! k = Some Dir → foldl complete_write fs l !! k = Some Dir.
Proof.
  revert fs. induction l as [|wr l IH]; intros fs Hk; simpl; [done|].
  by apply IH, complete_write_dir.
Qed.

Lemma complete_writes_exists l fs k :
  exists_in fs k = true → exists_in (foldl complete_write fs l) k = true.
Proof.
  revert fs. induction l as [|wr l IH]; intros fs Hk; simpl; [done|].
  by apply IH, complete_write_exists.
Qed.

End FsFacts.

Section AssetFacts.
Context `{Platform}.

Lemma filter_Boolean_truthy l : Forall (λ s, truthy s = true) (filter_Boolean l).
Proof.
  unfold filter_Boolean, truthy. induction l as [|x l IH]; [constructor|].
  rewrite filter_cons. destruct (decide (x ≠ "")); [|done].
  constructor; [by apply bool_decide_eq_true|done].
Qed.

Lemma url_parts_short pn :
  (length (filter_Boolean (split_on "/" pn)) < 3)%nat →
  falsy (url_parts pn).2 = true.
Proof.
  unfold url_parts. simpl. intros Hlen.
  rewrite (lookup_ge_None_2 _ 2%nat); [done|lia].
Qed.

Lemma url_parts_long pn parent obj file rest :
  filter_Boolean (split_on "/" pn) = parent :: obj :: file :: rest →
  url_parts pn = (Some parent, Some obj, Some file)
  ∧ falsy (Some parent) = false ∧ falsy (Some obj) = false ∧ falsy (Some file) = false.
Proof.
  intros Hs. unfold url_parts. rewrite Hs. split; [done|].
  pose proof (filter_Boolean_truthy (split_on "/" pn)) as Ht. rewrite Hs in Ht.
  apply Forall_cons in Ht as [H1 Ht]. apply Forall_cons in Ht as [H2 Ht].
  apply Forall_cons in Ht as [H3 _]. simpl. by rewrite H1, H2, H3.
Qed.

Lemma downloadFile_root_missing url assetPath options s :
  exists_in (files (world s)) (key assetPath) = false →
  downloadFile url assetPath options s = (s, Throw (DirectoryMissing assetPath)).
Proof.
  intros Hex. unfold downloadFile, bind, existsSync, gets. by rewrite Hex.
Qed.

Lemma downloadFile_bad_url url assetPath options s :
  exists_in (files (world s)) (key assetPath) = true →
  (∀ pn, url_pathname url = Some pn →
         (length (filter_Boolean (split_on "/" pn)) < 3)%nat) →
  ∃ e, downloadFile url assetPath options s = (s, Throw e).
Proof.
  intros Hex Hurl. unfold downloadFile, bind, existsSync, gets. rewrite Hex.
  cbn [negb]. unfold of_option, ret, throw.
  destruct (url_pathname url) as [pn|] eqn:Hpn; [|by eauto].
  pose proof (url_parts_short pn (Hurl pn eq_refl)) as Hshort.
  destruct (url_parts pn) as [[parentId objId] fileName]. cbn [snd] in Hshort.
  rewrite Hshort. cbn [orb]. by eauto.
Qed.

Lemma fetchAsset_caught root url expiry rest resolvePath s s1 s2 e :
  ensureDirSync root s = (s1, Ok tt) →
  downloadFile url root renderer_options s1 = (s2, Throw e) →
  fetchAsset root (AssetFile url expiry rest) resolvePath s
  = (fetch_failure_logged e s2, Ok (AssetFile url expiry rest)).
Proof.
  intros H1 H2. unfold fetchAsset, try_catch, bind.
  rewrite H1. fold renderer_options. by rewrite H2.
Qed.

Lemma fetchAsset_returns root a resolvePath s :
  ∃ s' a', fetchAsset root a resolvePath s = (s', Ok a').
Proof.
  unfold fetchAsset, try_catch.
  destruct a; try by (simpl; eauto).
  match goal with |- context [match ?m s with _ => _ end] => destruct (m s) as [s' [a'|e]] end;
    simpl; by eauto.
Qed.

End AssetFacts.

Section DownloadFacts.
Context `{Platform}.

Lemma call_opt_benign {A} (cb : option (A → M unit)) x s :
  benign cb → ∃ s', call_opt cb x s = (s', Ok tt) ∧ world s' = world s.
Proof.
  intros Hb. destruct cb as [f|]; simpl; [by apply Hb|]. by eexists.
Qed.

Lemma set_files_same s :
  set_world (set_files (λ _, files (world s))) s = s.
Proof. by destruct s as [[] ? ? ? ?]. Qed.

(** [downloadFile] up to the point where the URL is decomposed. *)
Lemma downloadFile_decomposed url root options s pn parent obj file rest :
  exists_in (files (world s)) (key root) = true →
  url_pathname url = Some pn →
  filter_Boolean (split_on "/" pn) = parent :: obj :: file :: rest →
  downloadFile url root options s =
    (do! ensureDirSync (saveDirPath root obj) in
     let! file_exists := existsSync (filePath root obj file) in
     do! (if ignoreCache options || negb file_exists then
            let! buffer := fetch url in
            do! writeFile_unawaited (filePath root obj file) buffer in
            do! call_opt (log_cb options)
                  ("Downloaded file `" +:+ file +:+ "` " +:+
                   dim ("created `" +:+ filePath root obj file +:+ "`")) in
            call_opt (tag_cb options) download
          else
            do! call_opt (log_cb options)
                  ("Skipped downloading file `" +:+ file +:+ "` " +:+
                   dim ("cached at `" +:+ filePath root obj file +:+ "`")) in
            call_opt (tag_cb options) cached) in
     ret (relative cwd (resolve cwd [cwd; VIRTUAL_CONTENT_ROOT]) (filePath root obj file))) s.
Proof.
  intros Hex Hpn Hsegs. unfold downloadFile at 1.
  unfold bind at 1. unfold existsSync at 1, gets. rewrite Hex. cbn [negb].
  unfold bind at 1. rewrite Hpn. unfold of_option, ret at 1.
  destruct (url_parts_long _ _ _ _ _ Hsegs) as (-> & H1 & H2 & H3).
  by rewrite H1, H2, H3.
Qed.

(** The state before the callbacks run, on a hit and on a miss. *)
Lemma downloadFile_inv url root options s s1 p1 pn parent obj file rest :
  benign (log_cb options) → benign (tag_cb options) →
  url_pathname url = Some pn →
  filter_Boolean (split_on "/" pn) = parent :: obj :: file :: rest →
  downloadFile url root options s = (s1, Ok p1) →
  ∃ fs',
    exists_in (files (world s)) (key root) = true
    ∧ mkdirs [] (normalize [] (segments (key (saveDirPath root obj)))) (files (world s)) = Some fs'
    ∧ p1 = relative cwd (resolve cwd [cwd; VIRTUAL_CONTENT_ROOT]) (filePath root obj file)
    ∧ ((exists_in fs' (key (filePath root obj file)) = true
        ∧ world s1 = set_files (λ _, fs') (world s))
       ∨ (∃ buffer, http_fetch url = Some buffer
          ∧ world s1 =
              {| files := fs';
                 pending := pending (world s) ++ [(key (filePath root obj file), buffer)];
                 requests := requests (world s) ++ [url];
                 toc_headings := toc_headings (world s) |})).
Proof.
  intros Hlog Htag Hpn Hsegs Hrun.
  destruct (exists_in (files (world s)) (key root)) eqn:Hex; last first.
  { by rewrite downloadFile_root_missing in Hrun. }
  rewrite (downloadFile_decomposed _ _ _ _ _ _ _ _ _ Hex Hpn Hsegs) in Hrun.
  unfold bind at 1 in Hrun. unfold ensureDirSync at 1 in Hrun.
  destruct (mkdirs _ _ _) as [fs'|] eqn:Hmk; [|done].
  exists fs'. split; [done|]. split; [done|].
  unfold bind at 1 in Hrun. unfold existsSync at 1, gets in Hrun.
  cbn [world set_world set_files files] in Hrun.
  set (s0 := set_world (set_files (λ _, fs')) s) in *.
  unfold bind at 1 in Hrun.
  destruct (ignoreCache options || negb (exists_in fs' (key (filePath root obj file)))) eqn:Hc.
  - (* miss *)
    unfold bind at 1, fetch in Hrun. unfold bind at 1, modify in Hrun.
    unfold of_option in Hrun.
    destruct (http_fetch url) as [buffer|] eqn:Hf; [|done].
    unfold ret at 1 in Hrun.
    unfold bind at 1, writeFile_unawaited, modify in Hrun.
    match type of Hrun with context [bind (call_opt (log_cb options) ?m) _ ?st] =>
      unfold bind at 1 in Hrun;
      destruct (call_opt_benign (log_cb options) m st Hlog) as (sa & Ha & Hwa);
      rewrite Ha in Hrun end.
    destruct (call_opt_benign (tag_cb options) download sa Htag) as (sb & Hb & Hwb).
    rewrite Hb in Hrun. unfold ret in Hrun. simplify_eq.
    split; [done|]. right. exists buffer. split; [done|].
    rewrite Hwb, Hwa. by destruct s as [[] ? ? ? ?].
  - (* hit *)
    apply orb_false_iff in Hc as [_ Hc]. apply negb_false_iff in Hc.
    match type of Hrun with context [bind (call_opt (log_cb options) ?m) _ ?st] =>
      unfold bind at 1 in Hrun;
      destruct (call_opt_benign (log_cb options) m st Hlog) as (sa & Ha & Hwa);
      rewrite Ha in Hrun end.
    destruct (call_opt_benign (tag_cb options) cached sa Htag) as (sb & Hb & Hwb).
    rewrite Hb in Hrun. unfold ret in Hrun. simplify_eq.
    split; [done|]. left. split; [done|]. by rewrite Hwb, Hwa.
Qed.

End DownloadFacts.

Section DownloadTheorems.
Context `{Platform}.

Lemma filter_Boolean_free pn :
  Forall (λ s, s ≠ "" ∧ free "/" s) (filter_Boolean (split_on "/" pn)).
Proof.
  unfold filter_Boolean. apply Forall_forall. intros s Hs.
  apply list_elem_of_filter in Hs as [Hne Hin]. split; [done|].
  pose proof (split_on_free "/" pn) as Hf.
  by eapply Forall_forall in Hf.
Qed.

Lemma settle_exists (w : World) k :
  exists_in (files w) k = true → exists_in (files (settle_writes w)) k = true.
Proof. apply complete_writes_exists. Qed.

Lemma settle_last (fs : gmap string FsNode) l wr :
  exists_in (foldl complete_write fs (l ++ [wr])) wr.1 = true.
Proof. rewrite foldl_app. simpl. apply complete_write_written. Qed.

(** X23. The cache answers once the file is written. Two URLs with the
    same path, hence any two that differ only in their query string, with
    [ignoreCache] unset: if [downloadFile] succeeds on the first and returns
    [p1], then, once the write it started has completed, [downloadFile] on
    the second returns the same [p1], does nothing but report the hit (the
    log line and the [cached] tag), and sends no request: [requests] is
    unchanged and no new write is started. *)
Theorem asset_path_stable (url1 url2 root : string) (options : SaveOptions)
    (s s1 : RS) (p1 : string) :
  url_pathname url1 = url_pathname url2 →
  ignoreCache options = false →
  benign (log_cb options) → benign (tag_cb options) →
  downloadFile url1 root options s = (s1, Ok p1) →
  ∃ s2 msg,
    downloadFile url2 root options (set_world settle_writes s1) = (s2, Ok p1)
    ∧ s2 = exec (do! call_opt (log_cb options) msg in call_opt (tag_cb options) cached)
             (set_world settle_writes s1)
    ∧ requests (world s2) = requests (world s1)
    ∧ pending (world s2) = [].
Proof.
  intros Hurl Hic Hlog Htag Hrun.
  destruct (exists_in (files (world s)) (key root)) eqn:Hex; last first.
  { by rewrite downloadFile_root_missing in Hrun. }
  destruct (url_pathname url1) as [pn|] eqn:Hpn; last first.
  { destruct (downloadFile_bad_url url1 root options s Hex) as [e He];
      [by rewrite Hpn|]. by rewrite He in Hrun. }
  destruct (decide (length (filter_Boolean (split_on "/" pn)) < 3)%nat) as [Hshort|Hlong].
  { destruct (downloadFile_bad_url url1 root options s Hex) as [e He].
    - rewrite Hpn. by intros ? [= <-].
    - by rewrite He in Hrun. }
  destruct (filter_Boolean (split_on "/" pn)) as [|parent [|obj [|file rest]]] eqn:Hsegs;
    try (simpl in Hlong; lia).
  destruct (downloadFile_inv _ _ _ _ _ _ _ _ _ _ _ Hlog Htag Hpn Hsegs Hrun)
    as (fs' & _ & Hmk & -> & Hcase).
  set (s1' := set_world settle_writes s1).
  assert (Hfiles : files (world s1') = foldl complete_write fs' (pending (world s1))).
  { unfold s1'. cbn [set_world world settle_writes files].
    destruct Hcase as [[_ Hw]|(b & _ & Hw)]; by rewrite Hw. }
  assert (Hroot : exists_in (files (world s1')) (key root) = true).
  { rewrite Hfiles. apply complete_writes_exists. by eapply exists_in_mkdirs. }
  assert (Hfile : exists_in (files (world s1')) (key (filePath root obj file)) = true).
  { rewrite Hfiles. destruct Hcase as [[Hhit Hw]|(b & _ & Hw)].
    - by apply complete_writes_exists.
    - rewrite Hw. cbn [pending].
      apply (settle_last fs' _ (key (filePath root obj file), b)). }
  assert (Hmk' : mkdirs [] (normalize [] (segments (key (saveDirPath root obj))))
                   (files (world s1')) = Some (files (world s1'))).
  { eapply mkdirs_again; [exact Hmk|]. intros k Hk. rewrite Hfiles.
    by apply complete_writes_dir. }
  symmetry in Hurl.
  rewrite (downloadFile_decomposed _ _ _ _ _ _ _ _ _ Hroot Hurl Hsegs).
  unfold bind at 1. unfold ensureDirSync at 1. rewrite Hmk'. rewrite set_files_same.
  unfold bind at 1. unfold existsSync at 1, gets. rewrite Hfile, Hic. cbn [negb orb].
  unfold bind at 1.
  match goal with |- context [bind (call_opt (log_cb options) ?m) _ ?st] =>
    destruct (call_opt_benign (log_cb options) m st Hlog) as (sa & Ha & Hwa);
    destruct (call_opt_benign (tag_cb options) cached sa Htag) as (sb & Hb & Hwb);
    assert (Hx : exec (do! call_opt (log_cb options) m in
                       call_opt (tag_cb options) cached) st = sb)
      by (unfold exec, bind; by rewrite Ha, Hb);
    exists sb, m
  end.
  unfold bind at 1. rewrite Ha, Hb. unfold ret.
  split; [done|]. split; [by rewrite Hx|].
  rewrite Hwb, Hwa. by unfold s1'.
Qed.

(** C4 (save path, as the code derives it). When the path of the URL has
    at least three non-empty segments, [downloadFile] saves below the
    destination root under the SECOND segment, in a file named by the THIRD:
    [path] is root/objId/fileName with [parent :: obj :: file :: rest] the
    segments in order. The directory root/objId exists afterwards, the
    string returned is [path] relative to the content root, and a download,
    if there is one, is written to [path]. The query string plays no part:
    only [url_pathname url] is read. The segments are the last two, as the
    specification words it, when there are exactly three ([rest = []]). *)
Theorem save_path_by_position (url : string) (rsegs : list string)
    (pn parent obj file : string) (rest : list string) (options : SaveOptions)
    (s s' : RS) (rel : string) :
  Forall plain rsegs →
  url_pathname url = Some pn →
  filter_Boolean (split_on "/" pn) = parent :: obj :: file :: rest →
  obj ≠ "." → obj ≠ ".." → file ≠ "." → file ≠ ".." →
  benign (log_cb options) → benign (tag_cb options) →
  downloadFile url (absolute rsegs) options s = (s', Ok rel) →
  let path := absolute (rsegs ++ [obj; file]) in
  filePath (absolute rsegs) obj file = path
  ∧ rel = relative cwd (resolve cwd [cwd; VIRTUAL_CONTENT_ROOT]) path
  ∧ files (world s') !! absolute (rsegs ++ [obj]) = Some Dir
  ∧ (pending (world s') = pending (world s)
     ∨ ∃ buffer, http_fetch url = Some buffer
         ∧ pending (world s') = pending (world s) ++ [(path, buffer)])
  ∧ (rest = [] → claimed_save_path rsegs (parent :: obj :: file :: rest) = Some path).
Proof.
  intros Hroot Hpn Hsegs Ho1 Ho2 Hf1 Hf2 Hlog Htag Hrun path.
  pose proof (filter_Boolean_free pn) as Hfree. rewrite Hsegs in Hfree.
  apply Forall_cons in Hfree as [_ Hfree].
  apply Forall_cons in Hfree as [[Ho0 Ho3] Hfree].
  apply Forall_cons in Hfree as [[Hf0 Hf3] _].
  assert (Hobj : plain obj) by done. assert (Hfile : plain file) by done.
  assert (Hdir : saveDirPath (absolute rsegs) obj = absolute (rsegs ++ [obj])).
  { unfold saveDirPath. by apply resolve_child. }
  assert (Hpath : filePath (absolute rsegs) obj file = path).
  { unfold filePath. rewrite Hdir. unfold path.
    rewrite resolve_child; [by rewrite <- app_assoc|  |done].
    apply Forall_app. split; [done|]. by apply Forall_singleton. }
  destruct (downloadFile_inv _ _ _ _ _ _ _ _ _ _ _ Hlog Htag Hpn Hsegs Hrun)
    as (fs' & _ & Hmk & -> & Hcase).
  rewrite Hpath in *. rewrite Hdir in Hmk.
  assert (Hkd : key (absolute (rsegs ++ [obj])) = absolute (rsegs ++ [obj])).
  { apply resolve_absolute. apply Forall_app. split; [done|]. by apply Forall_singleton. }
  assert (Hkp : key path = path).
  { apply resolve_absolute. apply Forall_app. split; [done|].
    by repeat (constructor; [done|]). }
  rewrite Hkd in Hmk. rewrite normalize_segments_absolute in Hmk; last first.
  { apply Forall_app. split; [done|]. by apply Forall_singleton. }
  apply mkdirs_target in Hmk. simpl in Hmk.
  split; [done|]. split; [done|]. rewrite Hkp in Hcase.
  split; [|split].
  - destruct Hcase as [[_ ->]|(b & _ & ->)]; done.
  - destruct Hcase as [[_ ->]|(b & Hb & ->)]; [by left|right]. by exists b.
  - intros ->. done.
Qed.

(** C7 (a failed download is contained). [downloadFile] throws, and leaves
    the state as it is (the root is not created), when the destination root
    does not exist; with the root in place it throws when the URL has no
    path or its path has fewer than three non-empty segments. In
    [#fetchAsset], whatever [downloadFile] throws is caught: the error is
    logged and the file object is returned with its URL unchanged. In all
    cases [#fetchAsset] returns and throws nothing. *)
Theorem download_failure_contained (url assetPath : string) (options : SaveOptions)
    (s : RS) :
  (exists_in (files (world s)) (key assetPath) = false →
   downloadFile url assetPath options s = (s, Throw (DirectoryMissing assetPath)))
  ∧ (exists_in (files (world s)) (key assetPath) = true →
     (∀ pn, url_pathname url = Some pn →
            (length (filter_Boolean (split_on "/" pn)) < 3)%nat) →
     ∃ e, downloadFile url assetPath options s = (s, Throw e))
  ∧ (∀ expiry rest resolvePath s1 s2 e,
       ensureDirSync assetPath s = (s1, Ok tt) →
       downloadFile url assetPath renderer_options s1 = (s2, Throw e) →
       fetchAsset assetPath (AssetFile url expiry rest) resolvePath s
       = (fetch_failure_logged e s2, Ok (AssetFile url expiry rest)))
  ∧ (∀ a resolvePath, ∃ s' a', fetchAsset assetPath a resolvePath s = (s', Ok a')).
Proof.
  split; [apply downloadFile_root_missing|].
  split; [apply downloadFile_bad_url|].
  split; [intros; by eapply fetchAsset_caught|].
  intros. apply fetchAsset_returns.
Qed.

End DownloadTheorems.

Section StoreFacts.
Context {D : Type}.

Lemma elem_of_snoc {A} (l : list A) p q : q ∈ l ++ [p] ↔ q ∈ l ∨ q = p.
Proof. rewrite elem_of_app, list_elem_of_singleton. done. Qed.

Lemma elem_of_delete_or {A} (l : list A) i p q :
  l !! i = Some p → q ∈ l → q ∈ delete i l ∨ q = p.
Proof.
  intros Hi Hq. rewrite <- (take_drop_middle l i p Hi) in Hq.
  rewrite delete_take_drop.
  apply elem_of_app in Hq as [Hq|Hq]; [left; apply elem_of_app; by left|].
  apply elem_of_cons in Hq as [->|Hq]; [by right|left; apply elem_of_app; by right].
Qed.

Lemma elem_of_delete_sub {A} (l : list A) i q : q ∈ delete i l → q ∈ l.
Proof.
  rewrite delete_take_drop. intros [Hq|Hq]%elem_of_app.
  - by eapply subseteq_take.
  - by eapply subseteq_drop.
Qed.

Lemma lookup_foldl_delete (m : gmap string (Entry D)) l k :
  foldl (λ m id, delete id m) m l !! k = if decide (k ∈ l) then None else m !! k.
Proof.
  revert m. induction l as [|x l IH]; intros m; simpl; [done|].
  rewrite IH. destruct (decide (k ∈ l)) as [Hl|Hl].
  - rewrite decide_True; [done|by right].
  - destruct (decide (k = x)) as [->|Hne].
    + rewrite decide_True by (by left). by rewrite lookup_delete_eq.
    + rewrite decide_False; [by rewrite lookup_delete_ne|].
      by intros [?|?]%elem_of_cons.
Qed.

Lemma lookup_kept (entries : gmap string (Entry D)) U id :
  kept entries U !! id = if decide (id ∈ page_id <$> U) then entries !! id else None.
Proof.
  unfold Spec.kept. rewrite lookup_foldl_delete.
  destruct (decide (id ∈ page_id <$> U)) as [Hin|Hout].
  - rewrite decide_False; [done|]. rewrite elem_of_elements. set_solver.
  - destruct (entries !! id) as [e|] eqn:He.
    + rewrite decide_True; [done|]. rewrite elem_of_elements.
      apply elem_of_difference. split; [by apply elem_of_dom|set_solver].
    + by destruct (decide _).
Qed.

End StoreFacts.

Section LoaderFacts.
Context {D : Type}.
Variable run_render : Page → World → World * Res RenderResult.
Variable parseData : PageData → option D.
Variable FORCE_RERENDER : option string.

Local Abbreviation settle := (settle run_render parseData).
Local Abbreviation settle_at := (settle_at run_render parseData).
Local Abbreviation settle_many := (settle_many run_render parseData).
Local Abbreviation settle_rest := (settle_rest run_render parseData).
Local Abbreviation visit_record := (visit_record FORCE_RERENDER).
Local Abbreviation enumerate := (enumerate run_render parseData FORCE_RERENDER).
Local Abbreviation load := (load run_render parseData FORCE_RERENDER).
Local Abbreviation produces := (produces run_render parseData).
Local Abbreviation stable := (stable run_render parseData).

(** *** What one settled promise does *)

Lemma settle_cases p (s : LState D) :
  (produces p (ambient s) = true
   ∧ ∃ e w, settle p s = store_set e (set_ambient w s)
            ∧ entry_id e = page_id p ∧ digest e = last_edited_time p)
  ∨ (produces p (ambient s) = false
     ∧ store (settle p s) = store s ∧ writes (settle p s) = writes s).
Proof.
  unfold produces, Loader.settle.
  destruct (run_render p (ambient s)) as [w [[d r|]|e]]; try by right.
  destruct (parseData d) as [x|] eqn:Hd.
  - left. split; [by apply bool_decide_eq_true|]. by eexists _, _.
  - right. split; [|done]. apply bool_decide_eq_false. by intros [? ?].
Qed.

Lemma settle_frame p (s : LState D) :
  renderers (settle p s) = renderers s
  ∧ cachedPageIds (settle p s) = cachedPageIds s
  ∧ scheduled (settle p s) = scheduled s.
Proof.
  unfold Loader.settle.
  destruct (run_render p (ambient s)) as [w [[d r|]|e]]; try done.
  by destruct (parseData d).
Qed.

(** An empty result, whatever the world it leaves: nothing else changes. *)
Lemma settle_empty p (s : LState D) w :
  run_render p (ambient s) = (w, Ok EmptyResult) → settle p s = set_ambient w s.
Proof. intros Hr. unfold Loader.settle. by rewrite Hr. Qed.

(** *** The invariant of a pass *)

Local Abbreviation Inv := (Inv run_render parseData).

Lemma inv_settle U entries base visited todo todo' p (s : LState D) :
  p ∈ visited →
  (∀ q, q ∈ todo → q ∈ todo' ∨ q = p) →
  (∀ q, q ∈ todo' → q ∈ todo) →
  (length todo' ≤ length todo)%nat →
  Inv U entries base visited todo s →
  Inv U entries base visited todo' (settle p s).
Proof.
  intros Hp Hsplit Hsub Hlen [Hv Hpend Hc Hn Hst Hw Ht].
  destruct (settle_frame p s) as (Hr & Hcp & Hsc).
  destruct (settle_cases p s) as [(Hprod & e & w & Hs & Hid & Hdg)|(Hprod & Hs1 & Hs2)].
  - split; rewrite ?Hcp, ?Hsc; try done.
    + intros q Hq. by apply Hpend, Hsub.
    + lia.
    + intros id. rewrite Hs. cbn [store store_set set_ambient].
      destruct (decide (entry_id e = id)) as [<-|Hne].
      * right. exists p, e, (ambient s). by rewrite lookup_insert_eq.
      * rewrite lookup_insert_ne by done. apply Hst.
    + intros op. rewrite Hs. cbn [writes store_set set_ambient].
      intros [Hop|Hop]%elem_of_app; [by apply Hw|].
      apply list_elem_of_singleton in Hop as ->. left.
      exists p, (ambient s). by rewrite Hid.
    + intros q Hq Hagree Hstable. rewrite Hs. cbn [store store_set set_ambient].
      destruct (decide (page_id q = page_id p)) as [Heq|Hne].
      * left. exists e. rewrite Hid, Heq, lookup_insert_eq. split; [done|].
        rewrite Hdg. by apply Hagree; [apply Hv|].
      * destruct (Ht q Hq Hagree Hstable) as [(e' & He' & Hd')|[Hin|Hnever]].
        -- left. exists e'. by rewrite lookup_insert_ne by (by rewrite Hid).
        -- right. left. destruct (Hsplit q Hin) as [?| ->]; done.
        -- by right; right.
  - split; rewrite ?Hcp, ?Hsc, ?Hs1, ?Hs2; try done.
    + intros q Hq. by apply Hpend, Hsub.
    + lia.
    + intros q Hq Hagree Hstable.
      destruct (Ht q Hq Hagree Hstable) as [Hsy|[Hin|Hnever]]; [by left| |by right; right].
      destruct (Hsplit q Hin) as [?| ->]; [by right; left|].
      right; right. intros w'. by rewrite (Hstable w' (ambient s)).
Qed.

Lemma inv_set_renderers U entries base visited todo l (s : LState D) :
  Inv U entries base visited todo s → Inv U entries base visited todo (set_renderers l s).
Proof. by intros []. Qed.

Lemma inv_settle_at U entries base visited i (s : LState D) :
  Inv U entries base visited (renderers s) s →
  Inv U entries base visited (renderers (settle_at i s)) (settle_at i s).
Proof.
  intros HI. unfold Loader.settle_at.
  destruct (renderers s !! i) as [p|] eqn:Hi; [|done].
  destruct (settle_frame p (set_renderers (delete i (renderers s)) s)) as (-> & _ & _).
  cbn [renderers set_renderers].
  eapply inv_settle; [| | | |by apply inv_set_renderers].
  - destruct HI as [_ Hpend _ _ _ _ _]. eapply Hpend. by eapply list_elem_of_lookup_2.
  - intros q. by apply elem_of_delete_or.
  - intros q. apply elem_of_delete_sub.
  - rewrite length_delete by (by eexists). lia.
Qed.

Lemma inv_settle_many U entries base visited order (s : LState D) :
  Inv U entries base visited (renderers s) s →
  Inv U entries base visited (renderers (settle_many order s)) (settle_many order s).
Proof.
  revert s. unfold Loader.settle_many.
  induction order as [|i order IH]; intros s HI; simpl; [done|].
  by apply IH, inv_settle_at.
Qed.

Lemma inv_settle_fold U entries base visited todo (s : LState D) :
  Inv U entries base visited todo s →
  Inv U entries base visited [] (foldl (λ s p, settle p s) s todo).
Proof.
  revert s. induction todo as [|p todo IH]; intros s HI; simpl; [done|].
  apply IH. eapply inv_settle; [| | | |exact HI].
  - destruct HI as [_ Hpend _ _ _ _ _]. apply Hpend. by left.
  - intros q [->|Hq]%elem_of_cons; by eauto.
  - intros q Hq. by right.
  - simpl. lia.
Qed.

Lemma settle_fold_frame todo (s : LState D) :
  renderers (foldl (λ s p, settle p s) s todo) = renderers s
  ∧ cachedPageIds (foldl (λ s p, settle p s) s todo) = cachedPageIds s.
Proof.
  revert s. induction todo as [|p todo IH]; intros s; simpl; [done|].
  destruct (IH (settle p s)) as [-> ->]. destruct (settle_frame p s) as (-> & -> & _). done.
Qed.

Lemma inv_settle_rest U entries base visited (s : LState D) :
  Inv U entries base visited (renderers s) s →
  Inv U entries base visited [] (settle_rest s) ∧ renderers (settle_rest s) = [].
Proof.
  intros HI. unfold Loader.settle_rest. split.
  - by apply inv_settle_fold, inv_set_renderers.
  - by destruct (settle_fold_frame (renderers s) (set_renderers [] s)) as [-> _].
Qed.

Lemma inv_say U entries base visited todo e (s : LState D) :
  Inv U entries base visited todo s → Inv U entries base visited todo (say e s).
Proof. by intros []. Qed.

(** *** The loop body *)

Lemma inv_visit_partial U entries base visited id (s : LState D) :
  Inv U entries base visited (renderers s) s →
  Inv U entries base visited (renderers (visit_record (PartialPage id) s))
    (visit_record (PartialPage id) s).
Proof. done. Qed.

Lemma inv_visit_full U entries base visited p (s : LState D) :
  p ∈ U →
  Inv U entries base visited (renderers s) s →
  Inv U entries base (visited ++ [p]) (renderers (visit_record (FullPage p) s))
    (visit_record (FullPage p) s).
Proof.
  intros HpU [Hv Hpend Hc Hn Hst Hw Ht]. unfold Loader.visit_record.
  assert (Hgrow : ∀ q, q ∈ visited → q ∈ visited ++ [p]).
  { intros q Hq. apply elem_of_app. by left. }
  assert (Hlast : p ∈ visited ++ [p]).
  { apply elem_of_app. right. by left. }
  assert (Hcached : cachedPageIds s ∖ {[page_id p]}
                    = dom entries ∖ list_to_set (page_id <$> visited ++ [p])).
  { rewrite Hc, fmap_app, list_to_set_app_L. simpl. set_solver. }
  destruct (bool_decide (digest <$> store s !! page_id p ≠ Some (last_edited_time p))
            || force FORCE_RERENDER) eqn:Hchanged.
  - (* a render is scheduled *)
    split; cbn [say push_renderer seen renderers store writes cachedPageIds scheduled];
      try done.
    + intros q [Hq| ->]%elem_of_snoc; by auto.
    + intros q [Hq| ->]%elem_of_snoc; by auto.
    + rewrite length_app. simpl. lia.
    + intros id. destruct (Hst id) as [?|(q & e & w & ? & ?)]; [by left|right].
      exists q, e, w. by auto.
    + intros op Hop. destruct (Hw op Hop) as [(q & w & ? & ?)|?]; [left|by right].
      exists q, w. by auto.
    + intros q [Hq| ->]%elem_of_snoc Hagree Hstable.
      * destruct (Ht q Hq Hagree Hstable) as [?|[?|?]]; [by left| |by right; right].
        right; left. apply elem_of_app. by left.
      * right; left. apply elem_of_app. right. by left.
  - (* the page is skipped *)
    apply orb_false_iff in Hchanged as [Hdig _].
    apply bool_decide_eq_false in Hdig. apply dec_stable in Hdig.
    split; cbn [say seen renderers store writes cachedPageIds scheduled]; try done.
    + intros q [Hq| ->]%elem_of_snoc; by auto.
    + intros q Hq. by auto.
    + intros id. destruct (Hst id) as [?|(q & e & w & ? & ?)]; [by left|right].
      exists q, e, w. by auto.
    + intros op Hop. destruct (Hw op Hop) as [(q & w & ? & ?)|?]; [left|by right].
      exists q, w. by auto.
    + intros q [Hq| ->]%elem_of_snoc Hagree Hstable; [by apply Ht|].
      left. destruct (store s !! page_id p) as [e|] eqn:He; [|done].
      exists e. split; [done|]. by simplify_eq/=.
Qed.

Lemma inv_enumerate U entries base records schedule visited (s : LState D) :
  (∀ p, p ∈ full_pages records → p ∈ U) →
  Inv U entries base visited (renderers s) s →
  let s' := (enumerate records schedule s).1 in
  Inv U entries base (visited ++ full_pages records) (renderers s') s'.
Proof.
  revert schedule visited s.
  induction records as [|r records IH]; intros schedule visited s HU HI.
  - simpl. by rewrite app_nil_r.
  - destruct r as [id|p].
    + apply IH; [done|]. apply inv_visit_partial. by apply inv_settle_many.
    + change (full_pages (FullPage p :: records)) with (p :: full_pages records) in *.
      rewrite cons_middle, app_assoc. apply IH.
      * intros q Hq. apply HU. by right.
      * apply inv_visit_full; [apply HU; by left|]. by apply inv_settle_many.
Qed.

(** *** Deleting what was not listed *)

Lemma delete_fold l (s : LState D) :
  let s' := foldl (λ s id, say (Log Info "Deleted page") (store_delete id s)) s l in
  store s' = foldl (λ m id, delete id m) (store s) l
  ∧ writes s' = writes s ++ (OpDelete <$> l)
  ∧ renderers s' = renderers s
  ∧ cachedPageIds s' = cachedPageIds s
  ∧ scheduled s' = scheduled s.
Proof.
  revert s. induction l as [|x l IH]; intros s; simpl.
  - by rewrite app_nil_r.
  - destruct (IH (say (Log Info "Deleted page") (store_delete x s)))
      as (-> & -> & -> & -> & ->).
    cbn [say store_delete store writes renderers cachedPageIds scheduled].
    by rewrite <- app_assoc.
Qed.

Lemma inv_delete_missing U entries (s : LState D) :
  Inv U entries entries U (renderers s) s →
  let s' := delete_missing s in
  Inv U entries (kept entries U) U (renderers s') s'
  ∧ (∀ id, id ∈ dom entries → id ∉ page_id <$> U → OpDelete id ∈ writes s').
Proof.
  intros [Hv Hpend Hc Hn Hst Hw Ht]. unfold delete_missing.
  destruct (delete_fold (elements (cachedPageIds s)) s) as (Hs1 & Hs2 & Hs3 & Hs4 & Hs5).
  cbn zeta. split; [split; rewrite ?Hs1, ?Hs2, ?Hs3, ?Hs4, ?Hs5; try done|].
  - intros id. rewrite lookup_foldl_delete, lookup_kept.
    destruct (decide (id ∈ elements (cachedPageIds s))) as [Hin|Hout].
    + left. rewrite elem_of_elements, Hc in Hin.
      rewrite decide_False; [done|set_solver].
    + destruct (Hst id) as [Hbase|?]; [left|by right].
      rewrite Hbase. destruct (decide (id ∈ page_id <$> U)); [done|].
      destruct (entries !! id) as [e|] eqn:He; [|done].
      exfalso. apply Hout. rewrite elem_of_elements, Hc.
      apply elem_of_difference. split; [by apply elem_of_dom|set_solver].
  - intros op [Hop|Hop]%elem_of_app; [by apply Hw|]. right.
    apply list_elem_of_fmap in Hop as (id & -> & Hid).
    rewrite elem_of_elements, Hc in Hid. exists id. set_solver.
  - intros q Hq Hagree Hstable.
    destruct (Ht q Hq Hagree Hstable) as [(e & He & Hd)|?]; [left|by right].
    exists e. split; [|done]. rewrite lookup_foldl_delete, decide_False; [done|].
    rewrite elem_of_elements, Hc. apply not_elem_of_difference. right.
    apply elem_of_list_to_set, list_elem_of_fmap. by exists q.
  - intros id Hid Hout. rewrite Hs2. apply elem_of_app. right.
    apply list_elem_of_fmap. exists id. split; [done|].
    rewrite elem_of_elements, Hc. set_solver.
Qed.

(** *** A whole pass *)

Lemma inv_start U entries w :
  Inv U entries entries [] (renderers (start entries w)) (start entries w).
Proof.
  split; cbn [start say renderers store writes cachedPageIds]; try done.
  - intros p Hp. by apply elem_of_nil in Hp.
  - simpl. set_solver.
  - by left.
  - intros op Hop. by apply elem_of_nil in Hop.
  - intros q Hq. by apply elem_of_nil in Hq.
Qed.

Lemma writes_mono_settle p op (s : LState D) : op ∈ writes s → op ∈ writes (settle p s).
Proof.
  intros Hop. destruct (settle_cases p s) as [(_ & e & w & -> & _)|(_ & _ & ->)]; [|done].
  cbn [writes store_set set_ambient]. apply elem_of_app. by left.
Qed.

Lemma writes_mono_settle_many order op (s : LState D) :
  op ∈ writes s → op ∈ writes (settle_many order s).
Proof.
  revert s. unfold Loader.settle_many.
  induction order as [|i order IH]; intros s Hop; simpl; [done|].
  apply IH. unfold Loader.settle_at. destruct (renderers s !! i); [|done].
  by apply writes_mono_settle.
Qed.

Lemma writes_mono_fold todo op (s : LState D) :
  op ∈ writes s → op ∈ writes (foldl (λ s p, settle p s) s todo).
Proof.
  revert s. induction todo as [|p todo IH]; intros s Hop; simpl; [done|].
  by apply IH, writes_mono_settle.
Qed.

(** What holds when a pass over a complete listing is over. *)
Lemma load_inv client schedule entries w outcome (s : LState D) :
  query_ok client = true →
  load client schedule entries w = (outcome, s) →
  let U := full_pages (databases_query client) in
  Inv U entries (kept entries U) U [] s
  ∧ renderers s = []
  ∧ (∀ id, id ∈ dom entries → id ∉ page_id <$> U → OpDelete id ∈ writes s).
Proof.
  intros Hok Hload U. unfold Loader.load in Hload.
  pose proof (inv_enumerate U entries entries (databases_query client) schedule []
                (start entries w) (λ p Hp, Hp) (inv_start U entries w)) as HI.
  destruct (enumerate (databases_query client) schedule (start entries w))
    as [s1 sched1].
  rewrite Hok in Hload. simpl in HI. fold U in HI.
  apply (inv_settle_many _ _ _ _ (hd [] sched1)) in HI.
  destruct (inv_delete_missing _ _ _ HI) as [HI2 Hdel].
  apply (inv_say _ _ _ _ _ (Log Info "Loaded database")) in HI2.
  set (s2 := say (Log Info "Loaded database")
               (delete_missing (settle_many (hd [] sched1) s1))) in *.
  change (renderers (delete_missing (settle_many (hd [] sched1) s1)))
    with (renderers s2) in HI2.
  assert (Hdel2 : ∀ id, id ∈ dom entries → id ∉ page_id <$> U → OpDelete id ∈ writes s2).
  { intros id Hid Hout. unfold s2. cbn [writes say]. by apply Hdel. }
  destruct (bool_decide (scheduled s2 = 0%nat)) eqn:Hzero.
  - (* no render was scheduled *)
    apply bool_decide_eq_true in Hzero.
    assert (Hnil : renderers s2 = []).
    { apply nil_length_inv. destruct HI2 as [_ _ _ Hn _ _ _]. lia. }
    rewrite Hnil in HI2. by simplify_eq.
  - apply (inv_say _ _ _ _ _ (Log Info "Rendering updated pages")) in HI2.
    set (s3 := say (Log Info "Rendering updated pages") s2) in *.
    change (renderers s2) with (renderers s3) in HI2.
    apply (inv_settle_many _ _ _ _ (hd [] (tail sched1))) in HI2.
    apply inv_settle_rest in HI2 as [HI3 Hnil].
    assert (Hdel3 : ∀ id, id ∈ dom entries → id ∉ page_id <$> U →
                          OpDelete id ∈ writes (settle_rest
                                                  (settle_many (hd [] (tail sched1)) s3))).
    { intros id Hid Hout. unfold Loader.settle_rest.
      apply writes_mono_fold. cbn [writes set_renderers].
      apply writes_mono_settle_many. unfold s3. cbn [writes say]. by apply Hdel2. }
    destruct (rejected (settle_rest (settle_many (hd [] (tail sched1)) s3)));
      simplify_eq; [done|].
    split; [by apply inv_say|]. by split.
Qed.

End LoaderFacts.

Section LoaderTheorems.
Context {D : Type}.
Variable run_render : Page → World → World * Res RenderResult.
Variable parseData : PageData → option D.
Variable FORCE_RERENDER : option string.

Local Abbreviation settle := (settle run_render parseData).
Local Abbreviation settle_at := (settle_at run_render parseData).
Local Abbreviation settle_many := (settle_many run_render parseData).
Local Abbreviation settle_rest := (settle_rest run_render parseData).
Local Abbreviation visit_record := (visit_record FORCE_RERENDER).
Local Abbreviation enumerate := (enumerate run_render parseData FORCE_RERENDER).
Local Abbreviation load := (load run_render parseData FORCE_RERENDER).
Local Abbreviation produces := (produces run_render parseData).
Local Abbreviation stable := (stable run_render parseData).
Local Abbreviation Inv := (Inv run_render parseData).
Local Abbreviation Quiet := (Quiet run_render parseData).

Lemma full_pages_listed records id :
  id ∈ page_id <$> full_pages records → id ∈ record_id <$> records.
Proof.
  intros (p & -> & Hp)%list_elem_of_fmap.
  apply list_elem_of_fmap. exists (FullPage p). split; [done|].
  unfold full_pages in Hp. apply list_elem_of_omap in Hp as (r & Hr & Hrp).
  destruct r; by simplify_eq.
Qed.

(** What a pass leaves of an identifier the store held. *)
Lemma load_fate client schedule entries w outcome (s : LState D) id :
  query_ok client = true →
  load client schedule entries w = (outcome, s) →
  id ∈ dom entries →
  let listed := page_id <$> full_pages (databases_query client) in
  cachedPageIds s = dom entries ∖ list_to_set listed
  ∧ (id ∉ listed → store s !! id = None ∧ OpDelete id ∈ writes s)
  ∧ (id ∈ listed → is_Some (store s !! id) ∧ OpDelete id ∉ writes s).
Proof.
  intros Hok Hload Hid listed.
  destruct (load_inv run_render parseData FORCE_RERENDER _ _ _ _ _ _ Hok Hload)
    as ([Hv Hpend Hc Hn Hst Hw Ht] & Hnil & Hdel).
  split; [done|]. split.
  - intros Hout. split; [|by apply Hdel].
    destruct (Hst id) as [->|(p & e & w' & Hp & Hpid & _)].
    + rewrite lookup_kept. by rewrite decide_False.
    + exfalso. apply Hout. apply list_elem_of_fmap. by exists p.
  - intros Hin. split.
    + destruct (Hst id) as [->|(p & e & w' & _ & _ & _ & -> & _)]; [|by eauto].
      rewrite lookup_kept, decide_True by done. by apply elem_of_dom.
    + intros Hop. destruct (Hw _ Hop) as [(p & w' & _ & _ & ?)|(id' & ? & _ & Hout)]; [done|].
      by simplify_eq.
Qed.

(** C2 (deletion completeness). For an identifier [id] of the store a pass
    starts from, when the query succeeds: if no record listed carries [id],
    or the records that carry it are not full pages, then [id] is absent
    from the store when the pass ends, and [store.delete(id)] was called;
    if a full page listed carries [id], then [id] has left [cachedPageIds],
    [store.delete(id)] was not called, and the store still has an entry
    for [id]. This holds whatever the order in which the renders settle and
    whether or not one of them is rejected. *)
Theorem deletion_complete (client : Client) (schedule : list (list nat))
    (entries : gmap string (Entry D)) (w : World) (outcome : Outcome)
    (s : LState D) (id : string) :
  query_ok client = true →
  load client schedule entries w = (outcome, s) →
  id ∈ dom entries →
  let listed := page_id <$> full_pages (databases_query client) in
  (id ∉ record_id <$> databases_query client → store s !! id = None)
  ∧ (id ∉ listed → store s !! id = None ∧ OpDelete id ∈ writes s)
  ∧ (id ∈ listed →
     (id ∉ cachedPageIds s) ∧ (OpDelete id ∉ writes s) ∧ is_Some (store s !! id)).
Proof.
  intros Hok Hload Hid listed.
  destruct (load_fate _ _ _ _ _ _ _ Hok Hload Hid) as (Hc & Hout & Hin).
  split; [|split; [done|]].
  - intros Hno. apply Hout. intros Hl. by apply Hno, full_pages_listed.
  - intros Hl. destruct (Hin Hl) as [? ?]. split; [|done].
    rewrite Hc. apply not_elem_of_difference. right. by apply elem_of_list_to_set.
Qed.

(** C10 (partial records). The loop body leaves the state as it is on a
    record that is not a full page: the [continue] comes before
    [cachedPageIds.delete]. So an identifier of the store that the listing
    carries only on partial records is still in [cachedPageIds] when the
    pass ends, [store.delete] is called on it, and the store has no entry
    for it. *)
Theorem partial_record_deleted (client : Client) (schedule : list (list nat))
    (entries : gmap string (Entry D)) (w : World) (outcome : Outcome)
    (s : LState D) (id : string) :
  query_ok client = true →
  load client schedule entries w = (outcome, s) →
  id ∈ dom entries →
  PartialPage id ∈ databases_query client →
  id ∉ page_id <$> full_pages (databases_query client) →
  (∀ s0 : LState D, visit_record (PartialPage id) s0 = s0)
  ∧ id ∈ cachedPageIds s
  ∧ OpDelete id ∈ writes s
  ∧ store s !! id = None.
Proof.
  intros Hok Hload Hid _ Hout.
  destruct (load_fate _ _ _ _ _ _ _ Hok Hload Hid) as (Hc & Hgone & _).
  destruct (Hgone Hout) as [? ?].
  split; [done|]. split; [|done].
  rewrite Hc. apply elem_of_difference. split; [done|].
  by rewrite elem_of_list_to_set.
Qed.

(** *** A pass over a store that is up to date *)

Lemma quiet_settle_at st visited i (s : LState D) :
  Quiet st visited s → Quiet st visited (settle_at i s).
Proof.
  intros [Hs Hw Hc Hp]. unfold Loader.settle_at.
  destruct (renderers s !! i) as [p|] eqn:Hi; [|done].
  set (s' := set_renderers (delete i (renderers s)) s).
  destruct (settle_frame run_render parseData p s') as (Hr & Hcp & _).
  destruct (settle_cases run_render parseData p s')
    as [(Hprod & _)|(_ & Hs1 & Hs2)].
  - assert (Hin : p ∈ renderers s) by (by eapply list_elem_of_lookup_2).
    pose proof (Hp p Hin (ambient s')) as Hf. congruence.
  - split; rewrite ?Hs1, ?Hs2, ?Hr, ?Hcp; try done.
    intros q Hq. apply Hp. subst s'. cbn [renderers set_renderers] in Hq.
    by eapply elem_of_delete_sub.
Qed.

Lemma quiet_settle_many st visited order (s : LState D) :
  Quiet st visited s → Quiet st visited (settle_many order s).
Proof.
  revert s. unfold Loader.settle_many.
  induction order as [|i order IH]; intros s HQ; simpl; [done|].
  by apply IH, quiet_settle_at.
Qed.

Lemma quiet_settle_fold st todo (s : LState D) :
  (∀ p, p ∈ todo → ∀ w, produces p w = false) →
  store s = st → writes s = [] →
  store (foldl (λ s p, settle p s) s todo) = st
  ∧ writes (foldl (λ s p, settle p s) s todo) = [].
Proof.
  revert s. induction todo as [|p todo IH]; intros s Hp Hs Hw; simpl; [done|].
  destruct (settle_cases run_render parseData p s) as [(Hprod & _)|(_ & Hs1 & Hs2)].
  - assert (Hin : p ∈ p :: todo) by (by left).
    pose proof (Hp p Hin (ambient s)) as Hf. congruence.
  - apply IH; [|by rewrite Hs1|by rewrite Hs2]. intros q Hq. apply Hp. by right.
Qed.

Lemma quiet_visit st visited r (s : LState D) :
  force FORCE_RERENDER = false →
  (∀ p, r = FullPage p → synced p st ∨ ∀ w, produces p w = false) →
  Quiet st visited s →
  Quiet st (visited ++ full_pages [r]) (visit_record r s).
Proof.
  intros Hforce Hr [Hs Hw Hc Hp]. destruct r as [id|p].
  { simpl. rewrite app_nil_r. by split. }
  change (full_pages [FullPage p]) with [p].
  assert (Hcached : cachedPageIds s ∖ {[page_id p]}
                    = dom st ∖ list_to_set (page_id <$> visited ++ [p])).
  { rewrite Hc, fmap_app, list_to_set_app_L. simpl. set_solver. }
  unfold Loader.visit_record. rewrite Hforce, orb_false_r.
  destruct (bool_decide (digest <$> store s !! page_id p ≠ Some (last_edited_time p)))
    eqn:Hchanged.
  - split; cbn [say push_renderer seen renderers store writes cachedPageIds]; try done.
    intros q [Hq| ->]%elem_of_snoc; [by apply Hp|].
    destruct (Hr p eq_refl) as [(e & He & Hd)|?]; [|done].
    apply bool_decide_eq_true in Hchanged. exfalso. apply Hchanged.
    by rewrite Hs, He, <- Hd.
  - by split.
Qed.

Lemma quiet_enumerate st records schedule visited (s : LState D) :
  force FORCE_RERENDER = false →
  (∀ p, p ∈ full_pages records → synced p st ∨ ∀ w, produces p w = false) →
  Quiet st visited s →
  Quiet st (visited ++ full_pages records) (enumerate records schedule s).1.
Proof.
  intros Hforce. revert schedule visited s.
  induction records as [|r records IH]; intros schedule visited s HU HQ.
  - simpl. by rewrite app_nil_r.
  - assert (Hcons : full_pages (r :: records) = full_pages [r] ++ full_pages records)
      by (by destruct r).
    rewrite Hcons in *. rewrite app_assoc. apply IH.
    + intros p Hp. apply HU, elem_of_app. by right.
    + apply quiet_visit; [done| |by apply quiet_settle_many].
      intros p ->. apply HU, elem_of_app. left. by left.
Qed.

Lemma quiet_load client schedule st w outcome (s : LState D) :
  force FORCE_RERENDER = false →
  query_ok client = true →
  (∀ p, p ∈ full_pages (databases_query client) →
        synced p st ∨ ∀ w, produces p w = false) →
  dom st ⊆ list_to_set (page_id <$> full_pages (databases_query client)) →
  load client schedule st w = (outcome, s) →
  store s = st ∧ writes s = [].
Proof.
  intros Hforce Hok HU Hdom Hload. unfold Loader.load in Hload.
  assert (HQ0 : Quiet st [] (start st w)).
  { split; cbn [start say renderers store writes cachedPageIds]; try done.
    - simpl. set_solver.
    - intros p Hp. by apply elem_of_nil in Hp. }
  pose proof (quiet_enumerate st (databases_query client) schedule [] _ Hforce HU HQ0) as HQ.
  destruct (enumerate (databases_query client) schedule (start st w)) as [s1 sched1].
  rewrite Hok in Hload. simpl in HQ.
  apply (quiet_settle_many _ _ (hd [] sched1)) in HQ.
  assert (Hnone : delete_missing (settle_many (hd [] sched1) s1)
                  = settle_many (hd [] sched1) s1).
  { unfold delete_missing. pose proof HQ as [_ _ Hqc _]. rewrite Hqc.
    replace (dom st ∖ list_to_set (page_id <$> full_pages (databases_query client)))
      with (∅ : gset string) by set_solver.
    by rewrite elements_empty. }
  rewrite Hnone in Hload.
  set (s2 := say (Log Info "Loaded database") (settle_many (hd [] sched1) s1)) in *.
  destruct (bool_decide (scheduled s2 = 0%nat)).
  { simplify_eq. by destruct HQ. }
  assert (HQ2 : Quiet st (full_pages (databases_query client))
                  (settle_many (hd [] (tail sched1))
                     (say (Log Info "Rendering updated pages") s2))).
  { apply quiet_settle_many. by destruct HQ. }
  destruct HQ2 as [Hs2 Hw2 _ Hp2].
  assert (Hrest : store (settle_rest (settle_many (hd [] (tail sched1))
                                        (say (Log Info "Rendering updated pages") s2))) = st
                  ∧ writes (settle_rest (settle_many (hd [] (tail sched1))
                                           (say (Log Info "Rendering updated pages") s2))) = []).
  { unfold Loader.settle_rest. by apply quiet_settle_fold. }
  destruct (rejected _); by simplify_eq.
Qed.


End LoaderTheorems.

Section TocFacts.

Lemma item_node_unfold text slug attrs nested subs :
  item_node (Item text slug attrs nested subs)
  = Element "li" attrs
      (Element "a" (<["href" := "#" +:+ slug]> attrs) [Text text]
       :: (if nested then [Element "ol" attrs (item_nodes subs)] else [])).
Proof. by destruct nested. Qed.

Lemma outline_item_unfold d text slug attrs nested subs :
  outline_item d (Item text slug attrs nested subs)
  = {| depth := d; text := Some text; slug := slug |}
    :: (if nested then outline (S d) subs else []).
Proof.
  destruct nested; [|done]. cbn [outline_item]. f_equal.
  induction subs as [|x r IH]; [done|]. cbn [outline]. by rewrite <- IH.
Qed.

Lemma listElementToTree_unfold tag props items depth :
  listElementToTree (Element tag props items) depth = items_to_tree items depth.
Proof.
  cbn [listElementToTree]. induction items as [|li r IH]; [done|].
  cbn [items_to_tree]. by rewrite <- IH.
Qed.

Lemma items_to_tree_items items d :
  Forall (λ it, ∀ d, item_headings (item_node it) d = Ok (outline_item d it)) items →
  items_to_tree (item_nodes items) d = Ok (outline d items).
Proof.
  induction 1 as [|x r Hx _ IH]; [done|].
  cbn [item_nodes items_to_tree outline]. by rewrite Hx, IH.
Qed.

Lemma item_headings_outline : ∀ (it : TocItem) (d : nat),
  item_headings (item_node it) d = Ok (outline_item d it).
Proof.
  fix IH 1. intros [text slug attrs nested subs] d.
  rewrite item_node_unfold, outline_item_unfold.
  cbn [item_headings]. rewrite lookup_insert_eq. cbn [node_value slice String.append].
  destruct nested; [|done].
  rewrite listElementToTree_unfold, items_to_tree_items; [done|].
  clear -IH. induction subs as [|x r IHr]; by constructor.
Qed.

Lemma items_to_tree_outline items d :
  items_to_tree (item_nodes items) d = Ok (outline d items).
Proof.
  apply items_to_tree_items, Forall_forall. intros it _. apply item_headings_outline.
Qed.

Lemma extract_nav_of items : extractTocHeadings (nav_of items) = Ok (outline 0 items).
Proof.
  unfold extractTocHeadings, nav_of.
  rewrite bool_decide_eq_false_2 by (by intros Hne; apply Hne).
  rewrite listElementToTree_unfold. apply items_to_tree_outline.
Qed.

Lemma extract_not_nav tag props children :
  tag ≠ "nav" → extractTocHeadings (Element tag props children) = Throw (ExpectedNav tag).
Proof. intros Hne. unfold extractTocHeadings. by rewrite bool_decide_eq_true_2. Qed.

End TocFacts.

Section RenderFacts.
Context `{Platform} `{Unified}.

Lemma toc_stage_ok tree hs s :
  extractTocHeadings (createTOC tree) = Ok hs →
  rehypeToc customizeTOC tree s = (exec (set_headings hs) s, Ok tree).
Proof.
  intros He. unfold rehypeToc, customizeTOC, bind. by rewrite He.
Qed.

Lemma toc_stage_fails tree e s :
  extractTocHeadings (createTOC tree) = Throw e →
  rehypeToc customizeTOC tree s = (s, Throw e).
Proof.
  intros He. unfold rehypeToc, customizeTOC, bind. by rewrite He.
Qed.

Lemma process_toc_fails plugins blocks paths s t0 t1 t2 e :
  notionRehype blocks = Ok t0 → rehypeSlug t0 = Ok t1 → rehypeKatex t1 = Ok t2 →
  extractTocHeadings (createTOC t2) = Throw e →
  process (Ok plugins) blocks paths s = (s, Throw e).
Proof.
  intros Ha Hb Hc He. unfold process, bind. simpl.
  rewrite Ha. simpl. rewrite Hb. simpl. rewrite Hc. simpl.
  by rewrite (toc_stage_fails _ _ _ He).
Qed.

Variable client : Client.
Variable page : Page.
Variable assetPath : string.
Variable proc : list Block → list string → M (string * list MarkdownHeading).

Lemma render_caught s s' e :
  render_try client page assetPath proc s = (s', Throw e) →
  render client page assetPath proc s = (render_failure_logged e s', Ok EmptyResult).
Proof. intros Ht. unfold render, try_catch. by rewrite Ht. Qed.

Lemma render_metadata_fails s s1 e :
  getPageData page assetPath (before_metadata s) = (s1, Throw e) →
  render_try client page assetPath proc s = (s1, Throw e).
Proof.
  intros Ha. unfold render_try. unfold bind at 1. unfold log at 1, modify.
  fold (before_metadata s). unfold bind at 1. by rewrite Ha.
Qed.

Lemma render_fetch_fails s s1 data s2 e :
  getPageData page assetPath (before_metadata s) = (s1, Ok data) →
  fetchBlocks client assetPath (page_id page) (before_fetch s1) = (s2, Throw e) →
  render_try client page assetPath proc s = (s2, Throw e).
Proof.
  intros Ha Hb. unfold render_try. unfold bind at 1. unfold log at 1, modify.
  fold (before_metadata s). unfold bind at 1. rewrite Ha.
  unfold bind at 1. unfold gets at 1. unfold bind at 1. unfold log at 1, modify.
  unfold bind at 1. unfold log at 1, modify. fold (before_fetch s1).
  unfold bind at 1. by rewrite Hb.
Qed.

Lemma log_analytics_returns s : log_analytics s = (exec log_analytics s, Ok tt).
Proof.
  unfold exec, log_analytics, bind, gets.
  by destruct (bool_decide (0 < downloaded s)%nat || bool_decide (0 < cachedHits s)%nat).
Qed.

Lemma render_process_fails s s1 data s2 blocks s3 e :
  getPageData page assetPath (before_metadata s) = (s1, Ok data) →
  fetchBlocks client assetPath (page_id page) (before_fetch s1) = (s2, Ok blocks) →
  proc blocks (assetPaths (before_process blocks s2)) (before_process blocks s2)
  = (s3, Throw e) →
  render_try client page assetPath proc s = (s3, Throw e).
Proof.
  intros Ha Hb Hc. unfold render_try. unfold bind at 1. unfold log at 1, modify.
  fold (before_metadata s). unfold bind at 1. rewrite Ha.
  unfold bind at 1. unfold gets at 1. unfold bind at 1. unfold log at 1, modify.
  unfold bind at 1. unfold log at 1, modify. fold (before_fetch s1).
  unfold bind at 1. rewrite Hb.
  unfold bind at 1. unfold log at 1, modify.
  unfold bind at 1. rewrite log_analytics_returns.
  unfold bind at 1. unfold log at 1, modify. fold (before_process blocks s2).
  unfold bind at 1. unfold gets at 1. unfold bind at 1. by rewrite Hc.
Qed.

End RenderFacts.

Section TocTheorem.
Context `{Platform} `{Unified}.

(** C8 (table of contents). On the navigation list of a table of contents
    [extractTocHeadings] returns its entries in document order, each with
    its text and slug, at depth 0 for the entries of the top list and one
    more per level of nesting ([outline 0 items]). The hook stores this
    outline and answers [false], so the tree leaves the stage without the
    navigation list. On an element that is not a [nav] the extraction
    throws, and when that happens in the processor, [render] logs the error
    and resolves to the empty object. *)
Theorem toc_extraction (client : Client) (page : Page) (assetPath : string)
    (plugins : list (RehypePlugin * option string)) :
  (∀ items, extractTocHeadings (nav_of items) = Ok (outline 0 items))
  ∧ (∀ tree hs s,
       extractTocHeadings (createTOC tree) = Ok hs →
       rehypeToc customizeTOC tree s = (exec (set_headings hs) s, Ok tree))
  ∧ (∀ tag props children,
       tag ≠ "nav" →
       extractTocHeadings (Element tag props children) = Throw (ExpectedNav tag))
  ∧ (∀ s s1 data s2 blocks t0 t1 t2 e,
       getPageData page assetPath (before_metadata s) = (s1, Ok data) →
       fetchBlocks client assetPath (page_id page) (before_fetch s1) = (s2, Ok blocks) →
       notionRehype blocks = Ok t0 → rehypeSlug t0 = Ok t1 → rehypeKatex t1 = Ok t2 →
       extractTocHeadings (createTOC t2) = Throw e →
       render client page assetPath (process (Ok plugins)) s
       = (render_failure_logged e (before_process blocks s2), Ok EmptyResult)).
Proof.
  split; [apply extract_nav_of|].
  split; [apply toc_stage_ok|].
  split; [apply extract_not_nav|].
  intros s s1 data s2 blocks t0 t1 t2 e Ha Hb Hc Hd He Hf.
  apply render_caught. eapply render_process_fails; [done|done|].
  by eapply process_toc_fails.
Qed.

End TocTheorem.

Section Isolation.
Context {D : Type}.
Variable run_render : Page → World → World * Res RenderResult.
Variable parseData : PageData → option D.
Variable FORCE_RERENDER : option string.

Local Abbreviation settle := (settle run_render parseData).
Local Abbreviation settle_at := (settle_at run_render parseData).
Local Abbreviation settle_many := (settle_many run_render parseData).
Local Abbreviation settle_rest := (settle_rest run_render parseData).
Local Abbreviation visit_record := (visit_record FORCE_RERENDER).
Local Abbreviation enumerate := (enumerate run_render parseData FORCE_RERENDER).
Local Abbreviation load := (load run_render parseData FORCE_RERENDER).
Local Abbreviation produces := (produces run_render parseData).
Local Abbreviation stable := (stable run_render parseData).
Local Abbreviation fulfilled := (fulfilled run_render parseData).

Lemma empty_never_produces p :
  (∀ w, (run_render p w).2 = Ok EmptyResult) → ∀ w, produces p w = false.
Proof.
  intros Hp w. unfold Spec.produces. specialize (Hp w).
  destruct (run_render p w) as [w' r]. simpl in Hp. by subst.
Qed.

Lemma only_agree U p : only U p → agree U p.
Proof. intros Ho q Hq Hid. by rewrite (Ho q Hq Hid). Qed.

Lemma always_stable p : (∀ w, produces p w = true) → stable p.
Proof. intros Hp w w'. by rewrite !Hp. Qed.

(** The page whose render fails keeps its entry, or none. *)
Lemma failed_untouched client schedule entries w outcome (s : LState D) p :
  query_ok client = true →
  load client schedule entries w = (outcome, s) →
  p ∈ full_pages (databases_query client) →
  only (full_pages (databases_query client)) p →
  (∀ w, (run_render p w).2 = Ok EmptyResult) →
  store s !! page_id p = entries !! page_id p ∧ OpSet (page_id p) ∉ writes s.
Proof.
  intros Hok Hload Hp Honly Hempty.
  pose proof (empty_never_produces p Hempty) as Hnever.
  destruct (load_inv run_render parseData FORCE_RERENDER _ _ _ _ _ _ Hok Hload)
    as ([Hv Hpend Hc Hn Hst Hw Ht] & Hnil & Hdel).
  split.
  - destruct (Hst (page_id p)) as [->|(q & e & w' & Hq & Hid & Hprod & _)].
    + rewrite lookup_kept, decide_True; [done|].
      apply list_elem_of_fmap. by exists p.
    + rewrite (Honly q Hq Hid), Hnever in Hprod. done.
  - intros Hop. destruct (Hw _ Hop) as [(q & w' & Hq & Hprod & Heq)|(id & ? & _)]; [|done].
    assert (Hid : page_id q = page_id p) by congruence.
    rewrite (Honly q Hq Hid), Hnever in Hprod. done.
Qed.

(** A page whose render succeeds is written, whatever happens to others. *)
Lemma succeeded_written client schedule entries w outcome (s : LState D) q :
  query_ok client = true →
  load client schedule entries w = (outcome, s) →
  q ∈ full_pages (databases_query client) →
  only (full_pages (databases_query client)) q →
  (∀ w, produces q w = true) →
  synced q (store s).
Proof.
  intros Hok Hload Hq Honly Hprod.
  destruct (load_inv run_render parseData FORCE_RERENDER _ _ _ _ _ _ Hok Hload)
    as ([Hv Hpend Hc Hn Hst Hw Ht] & Hnil & Hdel).
  destruct (Ht q Hq (only_agree _ _ Honly) (always_stable _ Hprod)) as [?|[Hin|Hnever]];
    [done|by apply elem_of_nil in Hin|].
  specialize (Hprod w). specialize (Hnever w). congruence.
Qed.

(** *** No promise is rejected *)

Lemma settle_fulfilled p (s : LState D) :
  fulfilled p (ambient s) → rejected (settle p s) = rejected s.
Proof.
  unfold Spec.fulfilled, Loader.settle.
  destruct (run_render p (ambient s)) as [w [[d r|]|e]]; try done.
  by intros [x ->].
Qed.

Lemma calm_settle_at U i (s : LState D) :
  (∀ p w, p ∈ U → fulfilled p w) → Calm U s → Calm U (settle_at i s).
Proof.
  intros HU [Hr Hp]. unfold Loader.settle_at.
  destruct (renderers s !! i) as [p|] eqn:Hi; [|done].
  assert (Hin : p ∈ renderers s) by (by eapply list_elem_of_lookup_2).
  destruct (settle_frame run_render parseData p
              (set_renderers (delete i (renderers s)) s)) as (Hr' & _ & _).
  split.
  - rewrite settle_fulfilled; [done|]. by apply HU, Hp.
  - rewrite Hr'. cbn [renderers set_renderers]. intros q Hq.
    by eapply Hp, elem_of_delete_sub.
Qed.

Lemma calm_settle_many U order (s : LState D) :
  (∀ p w, p ∈ U → fulfilled p w) → Calm U s → Calm U (settle_many order s).
Proof.
  intros HU. revert s. unfold Loader.settle_many.
  induction order as [|i order IH]; intros s HC; simpl; [done|].
  by apply IH, calm_settle_at.
Qed.

Lemma calm_settle_fold (U : list Page) todo (s : LState D) :
  (∀ p w, p ∈ U → fulfilled p w) → (∀ p, p ∈ todo → p ∈ U) →
  rejected s = false → rejected (foldl (λ s p, settle p s) s todo) = false.
Proof.
  intros HU. revert s. induction todo as [|p todo IH]; intros s Ht Hr; simpl; [done|].
  apply IH; [intros q Hq; apply Ht; by right|].
  rewrite settle_fulfilled; [done|]. apply HU, Ht. by left.
Qed.

Lemma calm_visit U r (s : LState D) :
  (∀ p, r = FullPage p → p ∈ U) → Calm U s → Calm U (visit_record r s).
Proof.
  intros Hr [Hrej Hp]. destruct r as [id|p]; [done|].
  unfold Loader.visit_record.
  destruct (bool_decide _ || force FORCE_RERENDER); split; try done.
  cbn [say push_renderer seen renderers]. intros q [Hq| ->]%elem_of_snoc; by auto.
Qed.

Lemma calm_enumerate U records schedule (s : LState D) :
  (∀ p w, p ∈ U → fulfilled p w) →
  (∀ p, p ∈ full_pages records → p ∈ U) →
  Calm U s → Calm U (enumerate records schedule s).1.
Proof.
  intros HU. revert schedule s.
  induction records as [|r records IH]; intros schedule s Hrec HC; [done|].
  apply IH.
  - intros p Hp. apply Hrec. destruct r; [done|by right].
  - apply calm_visit; [|by apply calm_settle_many].
    intros p ->. apply Hrec. by left.
Qed.

Lemma delete_fold_rejected l (s : LState D) :
  rejected (foldl (λ s id, say (Log Info "Deleted page") (store_delete id s)) s l)
  = rejected s.
Proof.
  revert s. induction l as [|x l IH]; intros s; simpl; [done|]. by rewrite IH.
Qed.

Lemma load_completed client schedule entries w outcome (s : LState D) :
  query_ok client = true →
  load client schedule entries w = (outcome, s) →
  (∀ p w, p ∈ full_pages (databases_query client) → fulfilled p w) →
  outcome = Completed.
Proof.
  intros Hok Hload HU. unfold Loader.load in Hload.
  set (U := full_pages (databases_query client)) in *.
  assert (HC0 : Calm U (start entries w)).
  { split; [done|]. intros p Hp. by apply elem_of_nil in Hp. }
  pose proof (calm_enumerate U (databases_query client) schedule _ HU (λ p Hp, Hp) HC0) as HC.
  destruct (enumerate (databases_query client) schedule (start entries w)) as [s1 sched1].
  rewrite Hok in Hload. simpl in HC.
  apply (calm_settle_many _ (hd [] sched1) _ HU) in HC.
  assert (HC2 : Calm U (say (Log Info "Rendering updated pages")
                          (say (Log Info "Loaded database")
                             (delete_missing (settle_many (hd [] sched1) s1))))).
  { destruct HC as [Hr Hp]. unfold delete_missing.
    destruct (delete_fold (elements (cachedPageIds (settle_many (hd [] sched1) s1)))
                (settle_many (hd [] sched1) s1)) as (_ & _ & Hren & _).
    split; cbn [say rejected renderers].
    - by rewrite delete_fold_rejected.
    - by rewrite Hren. }
  destruct (bool_decide _); [by simplify_eq|].
  apply (calm_settle_many _ (hd [] (tail sched1)) _ HU) in HC2.
  destruct HC2 as [Hr Hp].
  match type of Hload with (if rejected ?x then _ else _) = _ =>
    assert (Hfin : rejected x = false) end.
  { unfold Loader.settle_rest. by apply (calm_settle_fold U). }
  rewrite Hfin in Hload. by simplify_eq.
Qed.

End Isolation.

Section IsolationTheorem.
Context `{Platform} `{Unified} {D : Type}.
Variable import_default : string → option RehypePlugin.

Lemma run_renderer_empty options client p w :
  (∃ st e, render_try client p
             (resolve cwd [cwd; "src"; default "assets/notion" (assetPath options)])
             (process (load_plugins import_default (rehypePlugins options)))
             (new_renderer w) = (st, Throw e)) →
  (run_renderer import_default options client p w).2 = Ok EmptyResult.
Proof.
  intros (st & e & Ht). unfold run_renderer.
  by rewrite (render_caught _ _ _ _ _ _ _ Ht).
Qed.


End IsolationTheorem.

Section RehypeFacts.
Context `{Platform}.

(** C9 (rewrite of an upward path; where the code departs from the
    specification). The dots of [/^(..\/)+/] match any character, so the
    replacement removes, after the leading [../] groups, every directory
    whose name has two characters: the [src] [../../ab/0123/pic.svg]
    becomes [/0123/pic.svg], not [/ab/0123/pic.svg]. *)
Theorem upward_rewrite_drops_directory (assetPaths : option (list string)) :
  decodeURI "../../ab/0123/pic.svg" = Some "../../ab/0123/pic.svg" →
  rehypeAssets assetPaths (Root [Element "img" {[ "src" := "../../ab/0123/pic.svg" ]} []])
  = Ok (Root [Element "img" {[ "src" := "/0123/pic.svg" ]} []]).
Proof.
  intros Hd. unfold rehypeAssets. cbn [visit rbind]. unfold visit_element.
  rewrite lookup_singleton_eq. cbn [truthy]. rewrite Hd. cbn [rbind].
  assert (Hfmt : isAstroImageFormat "../../ab/0123/pic.svg" = false) by (by vm_compute).
  rewrite Hfmt, andb_false_r.
  assert (Hup : startsWith "../" "../../ab/0123/pic.svg" = true) by (by vm_compute).
  assert (Hsrc : startsWith "src/" "../../ab/0123/pic.svg" = false) by (by vm_compute).
  rewrite Hup, Hsrc.
  assert (Hre : replace_dot_groups "../../ab/0123/pic.svg" = "/0123/pic.svg") by (by vm_compute).
  rewrite Hre. rewrite !insert_singleton_eq.
  unfold rewrite_href. rewrite lookup_singleton_ne by done. done.
Qed.

End RehypeFacts.

Section Witnesses.
Import Example.

Lemma benign_log l : benign (Some (log l)).
Proof. intros f [= <-] x s. by eexists. Qed.

Lemma benign_count : benign (Some count_asset).
Proof. intros f [= <-] x s. eexists. split; [done|]. by destruct x. Qed.

Ltac plain_segments :=
  repeat (first [ apply Forall_nil | apply Forall_cons; split ]);
  unfold plain; simpl; repeat split; done.

Lemma upward_rewrite_witness :
  @rehypeAssets platform (Some [])
    (Root [Element "img" {[ "src" := "../../ab/0123/pic.svg" ]} []])
  = Ok (Root [Element "img" {[ "src" := "/0123/pic.svg" ]} []]).
Proof. apply (@upward_rewrite_drops_directory platform). by vm_compute. Defined.

Lemma asset_path_stable_witness :
  ∃ s2 msg,
    @downloadFile platform resigned_url root renderer_options
      (set_world settle_writes
         (@downloadFile platform signed_url root renderer_options ready).1)
    = (s2, Ok "../../assets/notion/0123/photo.png")
    ∧ s2 = exec (do! call_opt (log_cb renderer_options) msg in
                 call_opt (tag_cb renderer_options) cached)
             (set_world settle_writes
                (@downloadFile platform signed_url root renderer_options ready).1)
    ∧ requests (world s2)
      = requests (world (@downloadFile platform signed_url root renderer_options ready).1)
    ∧ pending (world s2) = [].
Proof.
  apply (@asset_path_stable platform signed_url resigned_url root renderer_options ready).
  - by vm_compute.
  - by vm_compute.
  - apply benign_log.
  - apply benign_count.
  - rewrite (surjective_pairing (downloadFile _ _ _ _)). apply f_equal. by vm_compute.
Defined.

Lemma save_path_by_position_witness :
  @filePath platform root "0123" "2024" = "/site/src/assets/notion/0123/2024"
  ∧ files (world (@downloadFile platform deep_url root renderer_options ready).1)
    !! "/site/src/assets/notion/0123" = Some Dir.
Proof.
  destruct (@save_path_by_position platform deep_url ["site"; "src"; "assets"; "notion"]
              "/workspace/0123/2024/photo.png" "workspace" "0123" "2024" ["photo.png"]
              renderer_options ready
              (@downloadFile platform deep_url root renderer_options ready).1
              "../../assets/notion/0123/2024")
    as (Hpath & _ & Hdir & _).
  - plain_segments.
  - by vm_compute.
  - by vm_compute.
  - done.
  - done.
  - done.
  - done.
  - apply benign_log.
  - apply benign_count.
  - rewrite (surjective_pairing (downloadFile _ _ _ _)). apply f_equal. by vm_compute.
  - split; [exact Hpath|exact Hdir].
Defined.

(** C4 as stated fails on a path of four segments: the file is saved under
    the second and third segments, not under the last two. *)
Lemma save_path_counterexample :
  (@downloadFile platform deep_url root renderer_options ready).2
  = Ok "../../assets/notion/0123/2024"
  ∧ pending (world (@downloadFile platform deep_url root renderer_options ready).1)
    = [("/site/src/assets/notion/0123/2024", [x2a%byte])]
  ∧ claimed_save_path ["site"; "src"; "assets"; "notion"]
      (filter_Boolean (split_on "/" "/workspace/0123/2024/photo.png"))
    = Some "/site/src/assets/notion/2024/photo.png"
  ∧ bool_decide ("/site/src/assets/notion/0123/2024"
                 = "/site/src/assets/notion/2024/photo.png") = false.
Proof. by vm_compute. Qed.

Lemma download_failure_witness :
  @downloadFile platform signed_url "/site/nowhere" renderer_options ready
  = (ready, Throw (DirectoryMissing "/site/nowhere"))
  ∧ @fetchAsset platform "/site/nowhere/file" (AssetFile "not a url" "" "") true ready
    = (fetch_failure_logged (H := platform) (UrlTypeError "not a url")
         (@exec unit (@ensureDirSync platform "/site/nowhere/file") ready),
       Ok (AssetFile "not a url" "" "")).
Proof.
  split.
  - apply (proj1 (@download_failure_contained platform signed_url "/site/nowhere"
                    renderer_options ready)).
    by vm_compute.
  - destruct (@download_failure_contained platform "not a url" "/site/nowhere/file"
                renderer_options ready) as (_ & _ & Hcaught & _).
    apply (Hcaught "" "" true
             (@exec unit (@ensureDirSync platform "/site/nowhere/file") ready)
             (@exec unit (@ensureDirSync platform "/site/nowhere/file") ready)
             (UrlTypeError "not a url")); by vm_compute.
Defined.

Lemma toc_extraction_witness :
  extractTocHeadings (Element "div" ∅ []) = Throw (ExpectedNav "div")
  ∧ extractTocHeadings
      (nav_of [Item "Intro" "intro" ∅ true [Item "Why" "why" ∅ false []];
               Item "Usage" "usage" ∅ false []])
    = Ok [ {| depth := 0; text := Some "Intro"; slug := "intro" |};
           {| depth := 1; text := Some "Why"; slug := "why" |};
           {| depth := 0; text := Some "Usage"; slug := "usage" |} ].
Proof.
  destruct (@toc_extraction platform unified (client_of []) (page_of "P" "t1") root [])
    as (Hnav & _ & Hdiv & _).
  split; [by apply Hdiv|]. by rewrite Hnav.
Defined.

End Witnesses.

Section LoaderWitnesses.
Import Example.

Lemma toy_stable p : stable toy_render toy_parse p.
Proof. by intros w w'. Qed.

Lemma first_listing_agree p :
  p ∈ full_pages first_listing → agree (full_pages first_listing) p.
Proof.
  intros Hp q Hq Hid. simpl in Hp, Hq.
  set_unfold. destruct Hp as [->|[->|[]]]; destruct Hq as [->|[->|[]]]; done.
Qed.


Lemma deletion_complete_witness :
  store (load toy_render toy_parse None (client_of later_listing) []
           synced_store empty_world).2 !! "A" = None
  ∧ OpDelete "A" ∈ writes (load toy_render toy_parse None (client_of later_listing) []
                             synced_store empty_world).2.
Proof.
  destruct (deletion_complete toy_render toy_parse None (client_of later_listing) []
              synced_store empty_world _ _ "A" eq_refl (surjective_pairing _))
    as (_ & Hgone & _).
  - apply elem_of_dom. by eexists.
  - apply Hgone. apply (bool_decide_eq_false_1 _). by vm_compute.
Defined.

Lemma partial_record_witness :
  "A" ∈ cachedPageIds (load toy_render toy_parse None (client_of later_listing) []
                         synced_store empty_world).2
  ∧ OpDelete "A" ∈ writes (load toy_render toy_parse None (client_of later_listing) []
                             synced_store empty_world).2
  ∧ store (load toy_render toy_parse None (client_of later_listing) []
             synced_store empty_world).2 !! "A" = None.
Proof.
  destruct (partial_record_deleted toy_render toy_parse None (client_of later_listing) []
              synced_store empty_world _ _ "A" eq_refl (surjective_pairing _))
    as (_ & Hc & Hd & Hs).
  - apply elem_of_dom. by eexists.
  - by left.
  - apply (bool_decide_eq_false_1 _). by vm_compute.
  - done.
Defined.

Lemma render_P_fails w :
  ∃ st e,
    @render_try platform (client_of mixed_listing) (page_of "P" "t1")
      (resolve (@cwd platform)
         [@cwd platform; "src"; default "assets/notion" (assetPath default_options)])
      (@process platform unified
         (load_plugins (λ _, None) (rehypePlugins default_options)))
      (new_renderer w)
    = (st, Throw e).
Proof. by eexists _, _. Qed.

Lemma mixed_only p : p ∈ full_pages mixed_listing → only (full_pages mixed_listing) p.
Proof.
  intros Hp q Hq Hid. simpl in Hp, Hq.
  set_unfold. destruct Hp as [->|[->|[]]]; destruct Hq as [->|[->|[]]]; done.
Qed.


End LoaderWitnesses.

Section FetchFacts.
Context `{Platform}.
Variable assetPath : string.

Lemma fetch_body_returns body s :
  ∃ s' body', fetch_body assetPath body s = (s', Ok body').
Proof.
  destruct body as [a|a|a|a|a rest|t p]; simpl; try by eauto.
  all: unfold bind;
    match goal with |- context [fetchAsset ?dir ?x ?rp ?st] =>
      destruct (fetchAsset_returns dir x rp st) as (s' & a' & ->) end;
    by eauto.
Qed.

Lemma fetch_listing_returns blockId l s :
  Forall (λ b, ∀ s, ∃ s' r, fetchBlock assetPath b s = (s', Ok r)) l →
  ∃ s' blocks, fetch_listing assetPath blockId l true s = (s', Ok blocks).
Proof.
  intros Hl. revert s. induction Hl as [|b r Hb _ IH]; intros s; simpl; [by eauto|].
  unfold bind. destruct (Hb s) as (s1 & x & ->).
  destruct (IH s1) as (s2 & xs & ->). by eauto.
Qed.

Lemma fetchBlock_listing (id : string) (l : list RemoteBlock) (ok : bool) :
  (fix each (l : list RemoteBlock) : M (list Block) :=
     match l with
     | [] => if ok then ret [] else throw (ApiError id)
     | b :: r =>
         let! x := fetchBlock assetPath b in
         let! xs := each r in
         ret (match x with Some y => y :: xs | None => xs end)
     end) l
  = fetch_listing assetPath id l ok.
Proof. induction l as [|b r IH]; [done|]. cbn [fetch_listing]. by rewrite <- IH. Qed.

Lemma fetchBlock_returns : ∀ b, listings_ok b →
  ∀ s, ∃ s' r, fetchBlock assetPath b s = (s', Ok r).
Proof.
  fix IH 1. intros [id|id has_children body kids kids_ok] Hok s; [by eexists _, _|].
  cbn [fetchBlock]. rewrite fetchBlock_listing. destruct has_children.
  - destruct (Hok eq_refl) as [-> Hkids]. unfold bind at 1. unfold bind at 1.
    unfold log at 1, modify. unfold bind at 1. unfold log at 1, modify.
    unfold bind at 1.
    match goal with |- context [fetch_listing _ _ _ _ ?st] =>
      destruct (fetch_listing_returns id kids st) as (s1 & blocks & ->) end.
    { clear -IH Hkids. induction kids as [|b r IHr]; [constructor|].
      destruct Hkids as [Hb Hr]. constructor; [by apply IH|by apply IHr]. }
    unfold ret at 1. unfold bind.
    destruct (fetch_body_returns body s1) as (s2 & body' & ->). by eauto.
  - unfold bind at 1. unfold ret at 1. unfold bind.
    destruct (fetch_body_returns body s) as (s2 & body' & ->). by eauto.
Qed.

Lemma chain_ok n : listings_ok (chain n).
Proof. induction n as [|n IH]; simpl; [done|]. by intros _. Qed.

(** X1. The fetch of the blocks of a page returns the blocks, and throws
    nothing, on every finite tree of blocks in which each listing the fetch
    asks for succeeds: whatever the depth of the tree, and whether or not
    the files the blocks refer to can be downloaded. *)
Theorem fetchBlocks_returns (client : Client) (blockId : string)
    (items : list RemoteBlock) (s : RS) :
  blocks_children client blockId = (items, true) →
  Forall listings_ok items →
  ∃ s' blocks, fetchBlocks client assetPath blockId s = (s', Ok blocks).
Proof.
  intros Hc Hitems. unfold fetchBlocks, bind. unfold log at 1, modify.
  rewrite Hc. cbn [fst snd]. apply fetch_listing_returns.
  eapply Forall_impl; [exact Hitems|]. intros b Hb. by apply fetchBlock_returns.
Qed.

End FetchFacts.

Section ImageFacts.
Context `{Platform}.

Lemma hint_alone (props : gmap string string) v :
  props !! "__ASTRO_IMAGE_" = None →
  <["__ASTRO_IMAGE_" := v]> props ∖ props = {[ "__ASTRO_IMAGE_" := v ]}.
Proof.
  intros Hnone. apply map_eq. intros k. rewrite lookup_difference.
  destruct (decide (k = "__ASTRO_IMAGE_")) as [->|Hne].
  - by rewrite Hnone, lookup_insert_eq, lookup_singleton_eq.
  - rewrite lookup_singleton_ne by done.
    destruct (props !! k) eqn:Hk; [done|]. by rewrite lookup_insert_ne.
Qed.

(** X2. The visitor of the asset stage, on an [img] element whose decoded
    [src] is in the list of downloaded assets and ends in one of the image
    extensions, and which has no [__ASTRO_IMAGE_] property yet: the element
    keeps the single property [__ASTRO_IMAGE_], whose payload is made from
    the element's properties (with the decoded [src]) and the number of
    earlier uses of that path, and the count of the path goes up by one. *)
Theorem image_hint (paths : list string) (occ : gmap string nat)
    (props : gmap string string) (src0 src : string) :
  props !! "src" = Some src0 → truthy src0 = true →
  decodeURI src0 = Some src →
  src ∈ paths → isAstroImageFormat src = true →
  props !! "__ASTRO_IMAGE_" = None →
  visit_element (Some paths) occ "img" props
  = Ok (<[src := (default 0%nat (occ !! src) + 1)%nat]> occ,
        {[ "__ASTRO_IMAGE_" :=
             json_stringify (<["src" := src]> props) (default 0%nat (occ !! src)) ]}).
Proof.
  intros Hsrc Htruthy Hdec Hin Hfmt Hnone. unfold visit_element.
  rewrite Hsrc, Htruthy, Hdec. cbn [rbind]. rewrite Hfmt.
  unfold includes. rewrite bool_decide_eq_true_2 by done.
  rewrite bool_decide_eq_true_2 by done. cbn [andb].
  rewrite hint_alone; [done|]. by rewrite lookup_insert_ne.
Qed.

End ImageFacts.

Section MoreWitnesses.
Import Example.

Lemma fetchBlocks_returns_witness :
  ∃ s' blocks,
    @fetchBlocks platform deep_client root "page" ready = (s', Ok blocks).
Proof.
  apply (@fetchBlocks_returns platform root deep_client "page" [chain 500] ready).
  - reflexivity.
  - constructor; [apply chain_ok|constructor].
Defined.

Lemma image_hint_witness :
  @visit_element platform (Some ["../../assets/notion/0123/photo.png"])
    {[ "../../assets/notion/0123/photo.png" := 1%nat ]} "img"
    {[ "src" := "../../assets/notion/0123/photo.png"; "alt" := "a photo" ]}
  = Ok ({[ "../../assets/notion/0123/photo.png" := 2%nat ]},
        {[ "__ASTRO_IMAGE_" := "{index:1}" ]}).
Proof.
  rewrite (@image_hint platform ["../../assets/notion/0123/photo.png"]
             {[ "../../assets/notion/0123/photo.png" := 1%nat ]}
             {[ "src" := "../../assets/notion/0123/photo.png"; "alt" := "a photo" ]}
             "../../assets/notion/0123/photo.png"
             "../../assets/notion/0123/photo.png");
    [vm_compute; reflexivity .. | constructor
    | vm_compute; reflexivity | vm_compute; reflexivity].
Defined.

End MoreWitnesses.

(** * Part V: further properties of the code *)

(** ** The pass, step by step *)

Section PassFacts.
Context {D : Type}.
Variable run_render : Page → World → World * Res RenderResult.
Variable parseData : PageData → option D.
Variable FORCE_RERENDER : option string.

Local Abbreviation settle := (settle run_render parseData).
Local Abbreviation settle_at := (settle_at run_render parseData).
Local Abbreviation settle_many := (settle_many run_render parseData).
Local Abbreviation settle_rest := (settle_rest run_render parseData).
Local Abbreviation visit_record := (visit_record FORCE_RERENDER).
Local Abbreviation enumerate := (enumerate run_render parseData FORCE_RERENDER).
Local Abbreviation load := (load run_render parseData FORCE_RERENDER).
Local Abbreviation produces := (produces run_render parseData).
Local Abbreviation fulfilled := (fulfilled run_render parseData).

(** *** Every pass is a sequence of five kinds of steps *)

Lemma settle_set_renderers p l (s : LState D) :
  settle p (set_renderers l s) = set_renderers l (settle p s).
Proof.
  unfold Loader.settle. cbn [ambient set_renderers].
  destruct (run_render p (ambient s)) as [w [[d r|]|e]]; try done.
  by destruct (parseData d).
Qed.

Lemma settle_rest_settle_many (s : LState D) :
  settle_rest s = settle_many (replicate (length (renderers s)) 0%nat) s.
Proof.
  unfold Loader.settle_rest, Loader.settle_many.
  remember (renderers s) as l eqn:Hl. revert s Hl.
  induction l as [|p l IH]; intros s Hl.
  - destruct s. simpl in *. by subst.
  - cbn [foldl replicate length]. unfold Loader.settle_at at 2.
    rewrite <- Hl. cbn [lookup list_lookup delete list_delete].
    rewrite <- (IH (settle p (set_renderers l s))).
    + rewrite <- settle_set_renderers. reflexivity.
    + destruct (settle_frame run_render parseData p (set_renderers l s)) as (-> & _). done.
Qed.

Section Induction.
Variable client : Client.
Variable entries : gmap string (Entry D).
Variable I : list Page → LState D → Prop.
Hypothesis I_say : ∀ v s e, I v s → I v (say e s).
Hypothesis I_settle : ∀ v s i p, renderers s !! i = Some p → I v s → I v (settle_at i s).
Hypothesis I_visit : ∀ v s r,
  r ∈ databases_query client → I v s → I (v ++ full_pages [r]) (visit_record r s).
Hypothesis I_delete : ∀ s id,
  query_ok client = true → id ∈ cachedPageIds s →
  I (full_pages (databases_query client)) s →
  I (full_pages (databases_query client)) (store_delete id s).

Lemma I_settle_many v order (s : LState D) : I v s → I v (settle_many order s).
Proof.
  revert s. unfold Loader.settle_many.
  induction order as [|i order IH]; intros s Hs; simpl; [done|].
  apply IH. destruct (renderers s !! i) as [p|] eqn:Hi; [by eapply I_settle|].
  unfold Loader.settle_at. by rewrite Hi.
Qed.

Lemma I_enumerate records schedule v (s : LState D) :
  (∀ r, r ∈ records → r ∈ databases_query client) →
  I v s → I (v ++ full_pages records) (enumerate records schedule s).1.
Proof.
  revert schedule v s.
  induction records as [|r records IH]; intros schedule v s Hsub Hs.
  - simpl. by rewrite app_nil_r.
  - cbn [Loader.enumerate].
    replace (v ++ full_pages (r :: records)) with ((v ++ full_pages [r]) ++ full_pages records).
    + apply IH; [intros r' Hr'; apply Hsub; by right|].
      apply I_visit; [apply Hsub; by left|]. by apply I_settle_many.
    + rewrite <- app_assoc. f_equal. by destruct r.
Qed.

Lemma I_delete_missing (s : LState D) :
  query_ok client = true →
  I (full_pages (databases_query client)) s →
  I (full_pages (databases_query client)) (delete_missing s).
Proof.
  intros Hok. unfold delete_missing.
  assert (Hin : ∀ id, id ∈ elements (cachedPageIds s) → id ∈ cachedPageIds s).
  { intros id. by rewrite elem_of_elements. }
  revert Hin. generalize (elements (cachedPageIds s)) as l. intros l. revert s.
  induction l as [|id l IH]; intros s Hin Hs; simpl; [done|].
  apply IH.
  - intros id' Hid'. cbn [say store_delete cachedPageIds]. apply Hin. by right.
  - apply I_say, I_delete; [done| |done]. apply Hin. by left.
Qed.

(** Whatever holds when [load] starts and is kept by a log line, by a
    promise that settles, by the loop body on a record listed and by a
    [store.delete] of the second loop, holds when [load] ends. *)
Lemma load_induction schedule w outcome (s : LState D) :
  I [] (start entries w) →
  load client schedule entries w = (outcome, s) →
  I (full_pages (databases_query client)) s.
Proof.
  intros H0 Hload. unfold Loader.load in Hload.
  pose proof (I_enumerate (databases_query client) schedule [] _ (λ r Hr, Hr) H0) as H1.
  destruct (Loader.enumerate _ _ _ (databases_query client) schedule (start entries w))
    as [s1 sched1].
  cbn [fst app] in H1. apply (I_settle_many _ (hd [] sched1)) in H1.
  pose proof I_delete_missing as Hdel.
  destruct (query_ok client) eqn:Hok; [|by simplify_eq].
  apply (Hdel _ eq_refl) in H1.
  apply (I_say _ _ (Log Info "Loaded database")) in H1.
  destruct (bool_decide _); [by simplify_eq|].
  apply (I_say _ _ (Log Info "Rendering updated pages")) in H1.
  apply (I_settle_many _ (hd [] (tail sched1))) in H1.
  match type of Hload with (if rejected ?x then _ else _) = _ =>
    assert (Hfin : I (full_pages (databases_query client)) x) end.
  { rewrite settle_rest_settle_many. by apply I_settle_many. }
  destruct (rejected _); simplify_eq; [done|]. by apply I_say.
Qed.

End Induction.

(** *** How a pass ends *)

Lemma settle_at_some i p (s : LState D) :
  renderers s !! i = Some p →
  settle_at i s = settle p (set_renderers (delete i (renderers s)) s).
Proof. intros Hi. unfold Loader.settle_at. by rewrite Hi. Qed.

Lemma settle_at_renderers i p (s : LState D) :
  renderers s !! i = Some p → renderers (settle_at i s) = delete i (renderers s).
Proof.
  intros Hi. rewrite (settle_at_some _ _ _ Hi).
  by destruct (settle_frame run_render parseData p
                 (set_renderers (delete i (renderers s)) s)) as (-> & _).
Qed.

Lemma settle_rejected_mono p (s : LState D) :
  rejected s = true → rejected (settle p s) = true.
Proof.
  unfold Loader.settle.
  destruct (run_render p (ambient s)) as [w [[d r|]|e]]; try done.
  by destruct (parseData d).
Qed.

Lemma visit_record_full p (s : LState D) :
  visit_record (FullPage p) s
  = if bool_decide (digest <$> store s !! page_id p ≠ Some (last_edited_time p))
       || force FORCE_RERENDER
    then say (Log Info ((if bool_decide (page_id p ∈ cachedPageIds s)
                         then "Updated" else "Created") +:+ " page"))
           (push_renderer p (seen (page_id p) s))
    else say (Log Debug "Skipped page") (seen (page_id p) s).
Proof. done. Qed.

End PassFacts.

Section PassTheorems.
Context {D : Type}.
Variable run_render : Page → World → World * Res RenderResult.
Variable parseData : PageData → option D.
Variable FORCE_RERENDER : option string.

Local Abbreviation settle := (settle run_render parseData).
Local Abbreviation settle_at := (settle_at run_render parseData).
Local Abbreviation settle_many := (settle_many run_render parseData).
Local Abbreviation settle_rest := (settle_rest run_render parseData).
Local Abbreviation visit_record := (visit_record FORCE_RERENDER).
Local Abbreviation enumerate := (enumerate run_render parseData FORCE_RERENDER).
Local Abbreviation load := (load run_render parseData FORCE_RERENDER).
Local Abbreviation produces := (produces run_render parseData).
Local Abbreviation fulfilled := (fulfilled run_render parseData).
Local Abbreviation written_by := (written_by run_render parseData).
Local Abbreviation shaped := (shaped run_render parseData).
Local Abbreviation counted := (counted run_render parseData FORCE_RERENDER).

Lemma full_page_listed records p : FullPage p ∈ records → p ∈ full_pages records.
Proof. intros Hp. unfold full_pages. apply list_elem_of_omap. by exists (FullPage p). Qed.

Lemma load_outcome client schedule entries w outcome (s : LState D) :
  query_ok client = true →
  load client schedule entries w = (outcome, s) →
  (0 < scheduled s)%nat → rejected s = true → outcome = RenderRejected.
Proof.
  intros Hok Hload Hsched Hrej. unfold Loader.load in Hload.
  destruct (Loader.enumerate _ _ _ (databases_query client) schedule (start entries w))
    as [s1 sched1].
  rewrite Hok in Hload.
  destruct (bool_decide _) eqn:Hz.
  { apply bool_decide_eq_true in Hz. simplify_eq. lia. }
  destruct (rejected _) eqn:Hr; simplify_eq; [done|].
  cbn [say rejected] in Hrej. congruence.
Qed.

(** *** A query that fails *)

Lemma undeleted_settle_at entries i p (s : LState D) :
  renderers s !! i = Some p → undeleted entries s → undeleted entries (settle_at i s).
Proof.
  intros Hi [Hw Hs]. rewrite (settle_at_some _ _ _ _ _ Hi).
  destruct (settle_cases run_render parseData p (set_renderers (delete i (renderers s)) s))
    as [(_ & e & w & -> & _)|(_ & Hs1 & Hw1)].
  - split.
    + intros id. cbn [store_set writes set_ambient set_renderers].
      intros [Hin|Hin]%elem_of_snoc; [by eapply Hw|done].
    + intros id Hid. cbn [store_set store set_ambient set_renderers].
      destruct (decide (entry_id e = id)) as [->|Hne].
      * rewrite lookup_insert_eq. by eexists.
      * rewrite lookup_insert_ne by done. by apply Hs.
  - split; [by rewrite Hw1|by rewrite Hs1].
Qed.

Lemma undeleted_visit entries r (s : LState D) :
  undeleted entries s → undeleted entries (visit_record r s).
Proof.
  intros Hs. destruct r as [id|p]; [done|]. rewrite visit_record_full.
  by destruct (_ || _).
Qed.

(** X3. When the listing of the database fails, [load] rejects and has
    deleted nothing: [store.delete] was never called, and every identifier of
    the store the pass started from still has an entry. This stays so when
    the renders already started settle afterwards. *)
Theorem failed_query_deletes_nothing (client : Client) (schedule : list (list nat))
    (entries : gmap string (Entry D)) (w : World) (outcome : Outcome) (s : LState D) :
  query_ok client = false →
  load client schedule entries w = (outcome, s) →
  outcome = QueryFailed
  ∧ (∀ id, OpDelete id ∉ writes s)
  ∧ (∀ id, id ∈ dom entries → is_Some (store s !! id))
  ∧ (∀ id, OpDelete id ∉ writes (settle_rest s))
  ∧ (∀ id, id ∈ dom entries → is_Some (store (settle_rest s) !! id)).
Proof.
  intros Hok Hload.
  assert (Hs : undeleted entries s).
  { apply (load_induction run_render parseData FORCE_RERENDER client entries
             (λ _, undeleted entries)) with schedule w outcome; try done.
    - intros _ s0 i p. apply undeleted_settle_at.
    - intros _ s0 r _. apply undeleted_visit.
    - intros s0 id Hq. congruence.
    - split; [intros id Hin; by apply elem_of_nil in Hin|].
      intros id Hid. by apply elem_of_dom in Hid. }
  assert (Hrest : undeleted entries (settle_rest s)).
  { rewrite settle_rest_settle_many.
    apply (I_settle_many run_render parseData (λ _ : list Page, undeleted entries)); [|exact []|done].
    intros _ s0 i p. apply undeleted_settle_at. }
  split; [|by destruct Hs, Hrest].
  unfold Loader.load in Hload.
  destruct (Loader.enumerate _ _ _ (databases_query client) schedule (start entries w)).
  rewrite Hok in Hload. by simplify_eq.
Qed.

(** *** What the store holds after a pass *)

Lemma shaped_settle_at U entries i p (s : LState D) :
  renderers s !! i = Some p → shaped U entries s → shaped U entries (settle_at i s).
Proof.
  intros Hi [Hr Hs]. split.
  { rewrite (settle_at_renderers _ _ _ _ _ Hi). intros q Hq. by eapply Hr, elem_of_delete_sub. }
  assert (Hp : p ∈ U) by (by eapply Hr, list_elem_of_lookup_2).
  rewrite (settle_at_some _ _ _ _ _ Hi). unfold Loader.settle.
  cbn [ambient set_renderers].
  destruct (run_render p (ambient s)) as [w' [[d r|]|e]] eqn:Hrun; try done.
  destruct (parseData d) as [x|] eqn:Hd; [|done].
  intros id e. cbn [store_set store set_ambient set_renderers entry_id].
  destruct (decide (page_id p = id)) as [<-|Hne].
  - rewrite lookup_insert_eq. intros [= <-]. right.
    by exists p, (ambient s), w', d, r, x.
  - rewrite lookup_insert_ne by done. apply Hs.
Qed.

Lemma shaped_visit U entries r (s : LState D) :
  (∀ p, r = FullPage p → p ∈ U) → shaped U entries s → shaped U entries (visit_record r s).
Proof.
  intros Hr [Hp Hs]. destruct r as [id|p]; [done|]. rewrite visit_record_full.
  destruct (_ || _); split; try done.
  cbn [say push_renderer seen renderers]. intros q [Hq| ->]%elem_of_snoc; by auto.
Qed.

(** X4. When [load] ends, however it ends, every entry of the store is
    either the entry the pass found there when it started, or the entry of
    a page listed: its key and [id] are the page's identifier, its [digest]
    the page's [last_edited_time], its [filePath] the virtual path
    [src/content/notion/<id>.md], its [rendered] and [data] what a render of
    that page and [parseData] returned, and its [assetImports] the
    [imagePaths] of what was rendered. *)
Theorem store_entries_shape (client : Client) (schedule : list (list nat))
    (entries : gmap string (Entry D)) (w : World) (outcome : Outcome) (s : LState D)
    (id : string) (e : Entry D) :
  load client schedule entries w = (outcome, s) →
  store s !! id = Some e →
  entries !! id = Some e ∨ written_by (full_pages (databases_query client)) id e.
Proof.
  intros Hload. revert id e.
  apply (load_induction run_render parseData FORCE_RERENDER client entries
           (λ _, shaped (full_pages (databases_query client)) entries))
    with schedule w outcome; try done.
  - intros _ s0 i p. apply shaped_settle_at.
  - intros _ s0 r Hr. apply shaped_visit. intros p ->. by apply full_page_listed.
  - intros s0 id _ _ [Hr Hs]. split; [done|].
    intros id' e. cbn [store_delete store]. intros [_ He]%lookup_delete_Some. by apply Hs.
  - split; [intros p Hp; by apply elem_of_nil in Hp|]. intros id e He. by left.
Qed.

(** *** Counting, and [FORCE_RERENDER] *)

Lemma counted_settle_at v i p (s : LState D) :
  renderers s !! i = Some p → counted v s → counted v (settle_at i s).
Proof.
  intros Hi (Hc & Hle & Hf).
  destruct (settle_frame run_render parseData p (set_renderers (delete i (renderers s)) s))
    as (Hr' & _ & Hsch).
  rewrite (settle_at_some _ _ _ _ _ Hi). split; [|split].
  - unfold Loader.settle. cbn [ambient set_renderers].
    destruct (run_render p (ambient s)) as [w' [[d r|]|e]]; try done.
    by destruct (parseData d).
  - by rewrite Hsch.
  - intros Hforce. destruct (Hf Hforce) as [Heq Hall]. split; [by rewrite Hsch|].
    intros q Hq Hprod. rewrite Hr'. cbn [renderers set_renderers].
    destruct (Hall q Hq Hprod) as [Hin|Hin].
    + destruct (elem_of_delete_or _ _ _ _ Hi Hin) as [?| ->]; [by left|right].
      destruct (settle_cases run_render parseData p
                  (set_renderers (delete i (renderers s)) s))
        as [(_ & e & w' & -> & He & _)|(Hno & _)].
      * cbn [store_set writes]. rewrite He. apply elem_of_snoc. by right.
      * cbn [ambient set_renderers] in Hno. by rewrite Hprod in Hno.
    + right. by apply writes_mono_settle.
Qed.

Lemma counted_visit v r (s : LState D) :
  counted v s → counted (v ++ full_pages [r]) (visit_record r s).
Proof.
  intros (Hc & Hle & Hf). destruct r as [id|p].
  { change (full_pages [PartialPage id]) with (@nil Page). by rewrite app_nil_r. }
  rewrite visit_record_full. change (full_pages [FullPage p]) with [p]. unfold Spec.counted.
  rewrite length_app. cbn [length].
  destruct (force FORCE_RERENDER) eqn:Hforce.
  - rewrite orb_true_r. cbn [say push_renderer seen pageCount scheduled renderers writes].
    destruct (Hf eq_refl) as [Heq Hall].
    split; [lia|]. split; [lia|]. intros _. split; [lia|].
    intros q [Hq| ->]%elem_of_snoc Hprod.
    + destruct (Hall q Hq Hprod) as [?|?]; [left|by right]. apply elem_of_snoc. by left.
    + left. apply elem_of_snoc. by right.
  - rewrite orb_false_r. destruct (bool_decide _);
      cbn [say push_renderer seen pageCount scheduled renderers writes];
      (split; [lia|]); (split; [lia|done]).
Qed.


(** *** A page [parseData] rejects *)

Lemma doomed_settle_at U entries p v i q (s : LState D) :
  only U p → (∀ w, ¬ (fulfilled p w)) → (∀ q, q ∈ v → q ∈ U) →
  renderers s !! i = Some q → doomed entries p v s → doomed entries p v (settle_at i s).
Proof.
  intros Honly Hnever Hv Hi (Hs & Hr & Hp).
  assert (Hq : q ∈ renderers s) by (by eapply list_elem_of_lookup_2).
  destruct (settle_frame run_render parseData q (set_renderers (delete i (renderers s)) s))
    as (Hr' & Hc' & Hsch).
  rewrite (settle_at_some _ _ _ _ _ Hi). split; [|split].
  - rewrite <- Hs. unfold Loader.settle. cbn [ambient set_renderers].
    pose proof (Hnever (ambient s)) as Hn. unfold Spec.fulfilled in Hn.
    destruct (run_render q (ambient s)) as [w' [[d r|]|e]] eqn:Hrun; try done.
    destruct (parseData d) as [x|] eqn:Hd; [|done].
    cbn [store_set store set_ambient set_renderers entry_id].
    destruct (decide (page_id q = page_id p)) as [Hid|Hne];
      [|by rewrite lookup_insert_ne].
    rewrite (Honly q (Hv q (Hr q Hq)) Hid) in Hrun. rewrite Hrun, Hd in Hn.
    destruct Hn. by eexists.
  - rewrite Hr'. cbn [renderers set_renderers]. intros q' Hq'.
    by eapply Hr, elem_of_delete_sub.
  - intros Hpv. destruct (Hp Hpv) as (Hc & Hpos & Hcase).
    rewrite Hc', Hsch, Hr'. cbn [cachedPageIds scheduled renderers set_renderers].
    split; [done|]. split; [done|].
    destruct Hcase as [Hin|Hrej]; [|right; by apply settle_rejected_mono].
    destruct (elem_of_delete_or _ _ _ _ Hi Hin) as [?| ->]; [by left|right].
    unfold Loader.settle. cbn [ambient set_renderers].
    pose proof (Hnever (ambient s)) as Hn. unfold Spec.fulfilled in Hn.
    destruct (run_render q (ambient s)) as [w' [[d r|]|e]]; try done.
    destruct (parseData d) as [x|] eqn:Hd; [|done]. destruct Hn. by eexists.
Qed.

Lemma doomed_visit U entries p v r (s : LState D) :
  only U p → (∀ q, r = FullPage q → q ∈ U) →
  (bool_decide (digest <$> entries !! page_id p ≠ Some (last_edited_time p))
   || force FORCE_RERENDER = true) →
  doomed entries p v s → doomed entries p (v ++ full_pages [r]) (visit_record r s).
Proof.
  intros Honly HU Hchanged (Hs & Hr & Hp). destruct r as [id|q].
  { change (full_pages [PartialPage id]) with (@nil Page). by rewrite app_nil_r. }
  rewrite visit_record_full. change (full_pages [FullPage q]) with [q].
  destruct (decide (page_id q = page_id p)) as [Hid|Hne];
    [rewrite (Honly q (HU q eq_refl) Hid)|].
  - rewrite Hs, Hchanged. unfold doomed.
    cbn [say push_renderer seen store renderers cachedPageIds scheduled rejected].
    split; [done|]. split.
    + intros x [Hx| ->]%elem_of_snoc; apply elem_of_snoc; [left; by apply Hr|by right].
    + intros _. split; [set_solver|]. split; [lia|]. left. apply elem_of_snoc. by right.
  - assert (Hkeep : ∀ s' : LState D,
              store s' = store s →
              (∀ x, x ∈ renderers s' → x ∈ renderers s ∨ x = q) →
              (∀ x, x ∈ renderers s → x ∈ renderers s') →
              cachedPageIds s' = cachedPageIds s ∖ {[page_id q]} →
              (scheduled s ≤ scheduled s')%nat → rejected s' = rejected s →
              doomed entries p (v ++ [q]) s').
    { intros s' Hst Hsub Hsup Hc Hsch Hrej. split; [by rewrite Hst|]. split.
      - intros x Hx. apply elem_of_snoc.
        destruct (Hsub x Hx) as [?| ->]; [left; by apply Hr|by right].
      - intros [Hpv| ->]%elem_of_snoc; [|done].
        destruct (Hp Hpv) as (Hc0 & Hpos & Hcase). rewrite Hc, Hrej.
        split; [set_solver|]. split; [lia|].
        destruct Hcase as [?|?]; [left; by apply Hsup|by right]. }
    destruct (bool_decide (digest <$> store s !! page_id q ≠ _) || _); apply Hkeep;
      cbn [say push_renderer seen store renderers cachedPageIds scheduled rejected];
      try done; try lia.
    + intros x [?| ->]%elem_of_snoc; by auto.
    + intros x Hx. apply elem_of_snoc. by left.
    + intros x Hx. by left.
Qed.

(** X6. A full page listed once whose stored [digest] differs from its
    [last_edited_time] (or any page, with [FORCE_RERENDER] set), and whose
    render promise is rejected in every world (the render throws, or
    [parseData] rejects what was rendered): when the query succeeds,
    [Promise.all] rejects and [load] with it, and the entry of the page in
    the store is what it was when the pass started. *)
Theorem rejected_render_rejects_load (client : Client) (schedule : list (list nat))
    (entries : gmap string (Entry D)) (w : World) (outcome : Outcome) (s : LState D)
    (p : Page) :
  query_ok client = true →
  load client schedule entries w = (outcome, s) →
  p ∈ full_pages (databases_query client) →
  only (full_pages (databases_query client)) p →
  (∀ w, ¬ (fulfilled p w)) →
  bool_decide (digest <$> entries !! page_id p ≠ Some (last_edited_time p))
  || force FORCE_RERENDER = true →
  outcome = RenderRejected
  ∧ rejected s = true
  ∧ store s !! page_id p = entries !! page_id p.
Proof.
  intros Hok Hload Hp Honly Hnever Hchanged.
  set (U := full_pages (databases_query client)) in *.
  assert (Hd : (∀ q, q ∈ U → q ∈ U) ∧ doomed entries p U s).
  { apply (load_induction run_render parseData FORCE_RERENDER client entries
             (λ v s, (∀ q, q ∈ v → q ∈ U) ∧ doomed entries p v s))
      with schedule w outcome; [done| | | | |done].
    - intros v s0 i q Hi [Hv Hs]. split; [done|]. by eapply doomed_settle_at.
    - intros v s0 r Hr [Hv Hs]. split.
      2:{ apply (doomed_visit U); [done| |done|done].
          intros q ->. by apply full_page_listed. }
      intros q [Hq|Hq]%elem_of_app; [by apply Hv|].
      destruct r as [id|q']; [by apply elem_of_nil in Hq|].
      apply list_elem_of_singleton in Hq as ->. by apply full_page_listed.
    - intros s0 id _ Hid [Hv (Hs & Hr & Hpv)]. split; [done|]. split; [|done].
      cbn [store_delete store]. rewrite lookup_delete_ne; [done|].
      intros ->. destruct (Hpv Hp) as (Hc & _). done.
    - split; [intros q Hq; by apply elem_of_nil in Hq|]. split; [done|].
      split; [intros q Hq|intros Hq]; by apply elem_of_nil in Hq. }
  destruct Hd as [_ (Hs & Hr & Hpv)]. destruct (Hpv Hp) as (_ & Hpos & Hcase).
  destruct (load_inv run_render parseData FORCE_RERENDER _ _ _ _ _ _ Hok Hload)
    as (_ & Hnil & _).
  assert (Hrej : rejected s = true).
  { destruct Hcase as [Hin|?]; [|done]. rewrite Hnil in Hin. by apply elem_of_nil in Hin. }
  split; [|done]. by eapply load_outcome.
Qed.

(** *** A pass in which every page renders *)

(** X7. After a pass whose query succeeded, the store holds no key but
    identifiers of full pages listed. If moreover every page is listed once
    and the render of every page ends in a write, the pass completes and
    the store mirrors the database: its keys are exactly the identifiers
    listed, and the entry of each page carries the page's fingerprint. *)
Theorem store_mirrors_database (client : Client) (schedule : list (list nat))
    (entries : gmap string (Entry D)) (w : World) (outcome : Outcome) (s : LState D) :
  query_ok client = true →
  load client schedule entries w = (outcome, s) →
  let U := full_pages (databases_query client) in
  (∀ id, is_Some (store s !! id) → id ∈ page_id <$> U)
  ∧ ((∀ p, p ∈ U → only U p ∧ ∀ w, produces p w = true) →
     outcome = Completed
     ∧ (∀ id, is_Some (store s !! id) ↔ id ∈ page_id <$> U)
     ∧ (∀ p, p ∈ U → synced p (store s))).
Proof.
  intros Hok Hload U.
  destruct (load_inv run_render parseData FORCE_RERENDER _ _ _ _ _ _ Hok Hload)
    as ([Hv Hpend Hc Hn Hst Hw Ht] & _ & _).
  assert (Hkeys : ∀ id, is_Some (store s !! id) → id ∈ page_id <$> U).
  { intros id [e He]. destruct (Hst id) as [Hb|(p & e' & w' & Hp & <- & _)].
    - rewrite Hb, lookup_kept in He. by destruct (decide _).
    - apply list_elem_of_fmap. by exists p. }
  split; [done|]. intros Hall.
  assert (Hsync : ∀ p, p ∈ U → synced p (store s)).
  { intros p Hp. destruct (Hall p Hp) as [Honly Hprod].
    by eapply (succeeded_written run_render parseData FORCE_RERENDER). }
  split; [|split; [|done]].
  - eapply (load_completed run_render parseData FORCE_RERENDER); [done|done|].
    intros p w0 Hp. destruct (Hall p Hp) as [_ Hprod]. specialize (Hprod w0).
    unfold Spec.produces in Hprod. unfold Spec.fulfilled.
    destruct (run_render p w0) as [w1 [[d r|]|e]]; try done.
    by apply bool_decide_eq_true in Hprod.
  - intros id. split; [apply Hkeys|].
    intros (p & -> & Hp)%list_elem_of_fmap.
    destruct (Hsync p Hp) as (e & He & _). by eexists.
Qed.

End PassTheorems.

Section RendererTheorems.
Context `{Platform} `{Unified} {D : Type}.
Variable import_default : string → option RehypePlugin.

Lemma render_returns client page dir proc st :
  ∃ st' r, render client page dir proc st = (st', Ok r).
Proof.
  destruct (render_try client page dir proc st) as [st' [r|e]] eqn:Ht.
  - exists st', r. unfold render, try_catch. by rewrite Ht.
  - eexists _, _. by apply render_caught.
Qed.

(** X8. [render] never throws: whatever happens in its [try] block, it
    resolves, to a rendered page or to the empty object. So the promises
    [load] joins are rejected by [parseData] alone: when the query succeeds
    and [parseData] accepts whatever it is given, [load] completes. *)
Theorem only_parseData_rejects (options : NotionLoaderOptions) (client : Client)
    (parseData : PageData → option D) (FORCE_RERENDER : option string)
    (schedule : list (list nat)) (entries : gmap string (Entry D)) (w : World)
    (outcome : Outcome) (s : LState D) :
  query_ok client = true →
  (∀ d, is_Some (parseData d)) →
  notionLoader_load import_default options client parseData FORCE_RERENDER
    schedule entries w = (outcome, s) →
  (∀ page dir proc st, ∃ st' r, render client page dir proc st = (st', Ok r))
  ∧ outcome = Completed.
Proof.
  intros Hok Hparse Hload. split; [intros; apply render_returns|].
  eapply (load_completed (run_renderer import_default options client) parseData
            FORCE_RERENDER); [done|done|].
  intros p w0 _. unfold Spec.fulfilled, run_renderer.
  match goal with |- context [render ?c ?pg ?dir ?proc ?st] =>
    destruct (render_returns c pg dir proc st) as (st' & r & ->) end.
  by destruct r.
Qed.

End RendererTheorems.

(** ** The renderer *)

Section MonadFacts.

Lemma bind_ok {A B} (m : M A) (k : A → M B) s s' b :
  bind m k s = (s', Ok b) → ∃ s1 a, m s = (s1, Ok a) ∧ k a s1 = (s', Ok b).
Proof.
  unfold bind. destruct (m s) as [s1 [a|e]]; [|done]. intros Hk. by exists s1, a.
Qed.

Lemma keeps_ret {A} P (a : A) : keeps P (ret a).
Proof. intros s s' r HP [= <- _]. done. Qed.

Lemma keeps_throw {A} P e : keeps P (@throw A e).
Proof. intros s s' r HP [= <- _]. done. Qed.

Lemma keeps_gets {A} P (f : RS → A) : keeps P (gets f).
Proof. intros s s' r HP [= <- _]. done. Qed.

Lemma keeps_of_res {A} P (x : Res A) : keeps P (of_res x).
Proof. destruct x; [apply keeps_ret|apply keeps_throw]. Qed.

Lemma keeps_of_option {A} P (x : option A) e : keeps P (of_option x e).
Proof. destruct x; [apply keeps_ret|apply keeps_throw]. Qed.

Lemma keeps_modify P f : (∀ s, P s → P (f s)) → keeps P (modify f).
Proof. intros Hf s s' r HP [= <- _]. by apply Hf. Qed.

Lemma keeps_bind {A B} P (m : M A) (k : A → M B) :
  keeps P m → (∀ a, keeps P (k a)) → keeps P (bind m k).
Proof.
  intros Hm Hk s s' r HP. unfold bind.
  destruct (m s) as [s1 [a|e]] eqn:Hms.
  - apply (Hk a). by eapply Hm.
  - intros [= <- _]. by eapply Hm.
Qed.

Lemma keeps_try_catch {A} P (m : M A) h :
  keeps P m → (∀ e, keeps P (h e)) → keeps P (try_catch m h).
Proof.
  intros Hm Hh s s' r HP. unfold try_catch.
  destruct (m s) as [s1 [a|e]] eqn:Hms.
  - intros [= <- _]. by eapply Hm.
  - apply (Hh e). by eapply Hm.
Qed.

Lemma keeps_mapM {A B} P (f : A → M B) l : (∀ x, keeps P (f x)) → keeps P (mapM f l).
Proof.
  intros Hf. induction l as [|x l IH]; simpl; [apply keeps_ret|].
  apply keeps_bind; [done|]. intros y.
  apply keeps_bind; [done|]. intros ys. apply keeps_ret.
Qed.

Lemma mapM_returns {A B} (R : A → B → Prop) (f : A → M B) l s :
  (∀ x s, ∃ s' y, f x s = (s', Ok y) ∧ R x y) →
  ∃ s' l', mapM f l s = (s', Ok l') ∧ Forall2 R l l'.
Proof.
  intros Hf. revert s. induction l as [|x l IH]; intros s; simpl.
  - by eexists _, _.
  - unfold bind. destruct (Hf x s) as (s1 & y & -> & Hy).
    destruct (IH s1) as (s2 & ys & -> & Hys). eexists _, _. split; [done|].
    by constructor.
Qed.

End MonadFacts.

Section MetadataFacts.
Context `{Platform}.
Variable assetPath : string.

Lemma fetchAsset_kept a resolvePath s :
  ∃ s' a', fetchAsset assetPath a resolvePath s = (s', Ok a') ∧ asset_kept a a'.
Proof.
  unfold fetchAsset, try_catch.
  destruct a as [|url expiry rest| | |]; try (eexists _, _; split; [done|by left]).
  unfold bind at 1.
  destruct (ensureDirSync assetPath s) as [s1 [[]|e]]; last first.
  { eexists _, _. split; [done|by left]. }
  unfold bind at 1.
  destruct (downloadFile url assetPath _ s1) as [s2 [fp|e]]; last first.
  { eexists _, _. split; [done|by left]. }
  eexists _, _. split; [done|]. right. by eexists _, _, _, _.
Qed.

Lemma fetch_property_kept kp s :
  ∃ s' kp', fetch_property assetPath kp s = (s', Ok kp') ∧ property_kept kp kp'.
Proof.
  unfold fetch_property, property_kept. destruct kp as [k [fs|t|t v]]; simpl;
    try (eexists _, _; by split).
  unfold bind.
  destruct (mapM_returns asset_kept (λ f, fetchAsset assetPath f true) fs s)
    as (s1 & fs' & -> & Hfs); [intros; apply fetchAsset_kept|].
  eexists _, _. split; [done|]. split; [done|]. by exists fs'.
Qed.

(** X9. The metadata of a page never throws ([#fetchAsset] catches what
    goes wrong with a file): it returns data with the page's identifier,
    fingerprint and other fields; the cover, the icon and the files of the
    properties are each the object they were or, for a file hosted by
    Notion, that file under another URL; the properties keep their names,
    their order and, for lists of files, their length. *)
Theorem getPageData_returns (page : Page) (s : RS) :
  ∃ s' d,
    getPageData page assetPath s = (s', Ok d)
    ∧ data_id d = page_id page
    ∧ page_id (data d) = page_id page
    ∧ last_edited_time (data d) = last_edited_time page
    ∧ page_rest (data d) = page_rest page
    ∧ asset_kept (cover page) (cover (data d))
    ∧ asset_kept (icon page) (icon (data d))
    ∧ Forall2 property_kept (properties page) (properties (data d)).
Proof.
  unfold getPageData, bind.
  destruct (fetchAsset_kept (cover page) true s) as (s1 & c & -> & Hc).
  destruct (fetchAsset_kept (icon page) true s1) as (s2 & i & -> & Hi).
  destruct (mapM_returns property_kept (fetch_property assetPath) (properties page) s2)
    as (s3 & ps & -> & Hps); [intros; apply fetch_property_kept|].
  eexists _, _. by repeat split.
Qed.

End MetadataFacts.

Section TallyFacts.
Context `{Platform} `{Unified}.

Lemma tallied_add_log e s : tallied s → tallied (add_log e s).
Proof. done. Qed.

Lemma tallied_set_world f s : tallied s → tallied (set_world f s).
Proof. done. Qed.

Lemma keeps_log P l msg : (∀ e s, P s → P (add_log e s)) → keeps P (log l msg).
Proof. intros HP. apply keeps_modify. intros s. apply HP. Qed.

(** [downloadFile], called as [#fetchAsset] calls it, counts one asset when
    it returns and none when it throws; it records no path. *)
Lemma downloadFile_counts url assetPath s s' r :
  downloadFile url assetPath renderer_options s = (s', r) →
  assetPaths s' = assetPaths s
  ∧ (downloaded s' + cachedHits s')%nat
    = match r with
      | Ok _ => S (downloaded s + cachedHits s)
      | Throw _ => (downloaded s + cachedHits s)%nat
      end.
Proof.
  assert (Hout : ∀ e, (s, Throw e) = (s', r) →
            assetPaths s' = assetPaths s
            ∧ (downloaded s' + cachedHits s')%nat
              = match r with
                | Ok _ => S (downloaded s + cachedHits s)
                | Throw _ => (downloaded s + cachedHits s)%nat
                end) by (by intros e [= <- <-]).
  unfold downloadFile. unfold bind at 1. unfold existsSync at 1, gets.
  destruct (exists_in (files (world s)) (key assetPath)); cbn [negb]; [|by apply Hout].
  unfold bind at 1. destruct (url_pathname url) as [pn|]; [|by apply Hout].
  cbn [of_option]. unfold ret at 1.
  destruct (url_parts pn) as [[a b] c].
  destruct (falsy c || falsy a || falsy b); [by apply Hout|].
  destruct b as [obj|]; [|by apply Hout].
  destruct c as [file|]; [|by apply Hout].
  unfold bind at 1. unfold ensureDirSync.
  destruct (mkdirs _ _ _) as [fs|]; [|by apply Hout].
  unfold bind at 1. unfold existsSync at 1, gets.
  cbn [ignoreCache renderer_options orb].
  destruct (negb _).
  - unfold bind at 1. unfold bind at 1. unfold fetch, bind at 1. unfold modify at 1.
    destruct (http_fetch url) as [buffer|]; cbn; intros [= <- <-]; cbn; [|done].
    split; [done|lia].
  - cbn. intros [= <- <-]. cbn. split; [done|lia].
Qed.

Lemma keeps_fetchAsset assetPath a resolvePath :
  keeps tallied (fetchAsset assetPath a resolvePath).
Proof.
  intros s s' r Ht. unfold fetchAsset, try_catch.
  destruct a as [|url expiry rest| | |]; try (by intros [= <- _]).
  unfold bind at 1. unfold ensureDirSync at 1.
  destruct (mkdirs _ _ _) as [fs|]; [|by intros [= <- _]].
  unfold bind at 1.
  match goal with |- context [downloadFile url assetPath ?o ?st] =>
    destruct (downloadFile url assetPath o st) as [s2 [fp|e]] eqn:Hd
  end; apply downloadFile_counts in Hd as [Hp Hc].
  - cbn. intros [= <- _]. unfold tallied in *. cbn in *.
    rewrite length_app, Hp. cbn. lia.
  - cbn. intros [= <- _]. unfold tallied in *. cbn in *. rewrite Hp. lia.
Qed.

Lemma keeps_fetch_body assetPath body : keeps tallied (fetch_body assetPath body).
Proof.
  destruct body; simpl; try apply keeps_ret;
    (apply keeps_bind; [apply keeps_fetchAsset|intros; apply keeps_ret]).
Qed.

Lemma keeps_fetch_listing assetPath blockId l ok :
  Forall (λ b, keeps tallied (fetchBlock assetPath b)) l →
  keeps tallied (fetch_listing assetPath blockId l ok).
Proof.
  induction 1 as [|b r Hb _ IH]; simpl.
  - destruct ok; [apply keeps_ret|apply keeps_throw].
  - apply keeps_bind; [done|]. intros x. apply keeps_bind; [done|]. intros xs.
    apply keeps_ret.
Qed.

Lemma fetchBlock_unfold assetPath id has_children body kids kids_ok :
  fetchBlock assetPath (FullBlock id has_children body kids kids_ok)
  = (let! children :=
       if has_children then
         do! log Debug ("Fetching children of block " +:+ id) in
         do! log Debug ("Fetching block " +:+ id) in
         let! l := fetch_listing assetPath id kids kids_ok in
         ret (Some l)
       else ret None in
     let! body' := fetch_body assetPath body in
     ret (Some (MkBlock id has_children body' children))).
Proof. cbn [fetchBlock]. by rewrite fetchBlock_listing. Qed.

Lemma keeps_fetchBlock assetPath : ∀ b, keeps tallied (fetchBlock assetPath b).
Proof.
  fix IH 1. intros [id|id has_children body kids kids_ok]; [apply keeps_ret|].
  rewrite fetchBlock_unfold. apply keeps_bind.
  - destruct has_children; [|apply keeps_ret].
    apply keeps_bind; [by apply keeps_log|]. intros _.
    apply keeps_bind; [by apply keeps_log|]. intros _.
    apply keeps_bind; [|intros; apply keeps_ret].
    apply keeps_fetch_listing.
    induction kids as [|b r IHr]; constructor; [apply IH|apply IHr].
  - intros c. apply keeps_bind; [apply keeps_fetch_body|intros; apply keeps_ret].
Qed.

Lemma keeps_fetchBlocks client assetPath blockId :
  keeps tallied (fetchBlocks client assetPath blockId).
Proof.
  unfold fetchBlocks. apply keeps_bind; [by apply keeps_log|]. intros _.
  apply keeps_fetch_listing. apply Forall_forall. intros b _. apply keeps_fetchBlock.
Qed.

Lemma keeps_getPageData page assetPath : keeps tallied (getPageData page assetPath).
Proof.
  unfold getPageData.
  apply keeps_bind; [apply keeps_fetchAsset|]. intros c.
  apply keeps_bind; [apply keeps_fetchAsset|]. intros i.
  apply keeps_bind; [|intros; apply keeps_ret].
  apply keeps_mapM. intros [k v]. unfold fetch_property.
  destruct v; simpl; try apply keeps_ret.
  apply keeps_bind; [|intros; apply keeps_ret].
  apply keeps_mapM. intros f. apply keeps_fetchAsset.
Qed.

(** The processor reads and writes the world alone. *)
Lemma keeps_process (P : RS → Prop) plugins blocks paths :
  (∀ f s, P s → P (set_world f s)) → keeps P (process plugins blocks paths).
Proof.
  intros HP. unfold process.
  apply keeps_bind; [apply keeps_of_res|]. intros ps.
  apply keeps_bind; [apply keeps_of_res|]. intros t0.
  apply keeps_bind; [apply keeps_of_res|]. intros t1.
  apply keeps_bind; [apply keeps_of_res|]. intros t2.
  apply keeps_bind.
  { unfold rehypeToc. apply keeps_bind.
    - unfold customizeTOC. apply keeps_bind; [apply keeps_of_res|]. intros hs.
      apply keeps_bind; [|intros; apply keeps_ret].
      apply keeps_modify. intros s. apply HP.
    - intros [| |]; apply keeps_ret. }
  intros t3. apply keeps_bind; [apply keeps_of_res|]. intros t4.
  apply keeps_bind; [apply keeps_of_res|]. intros t5.
  apply keeps_bind; [apply keeps_of_res|]. intros html.
  apply keeps_bind; [apply keeps_gets|]. intros hs. apply keeps_ret.
Qed.

Lemma keeps_log_analytics : keeps tallied log_analytics.
Proof.
  unfold log_analytics.
  apply keeps_bind; [apply keeps_gets|]. intros d.
  apply keeps_bind; [apply keeps_gets|]. intros c.
  destruct (_ || _); [by apply keeps_log|apply keeps_ret].
Qed.

Lemma keeps_render_try client page assetPath plugins :
  keeps tallied (render_try client page assetPath (process plugins)).
Proof.
  unfold render_try.
  apply keeps_bind; [by apply keeps_log|]. intros _.
  apply keeps_bind; [apply keeps_getPageData|]. intros d.
  apply keeps_bind; [apply keeps_gets|]. intros n.
  apply keeps_bind; [by apply keeps_log|]. intros _.
  apply keeps_bind; [by apply keeps_log|]. intros _.
  apply keeps_bind; [apply keeps_fetchBlocks|]. intros blocks.
  apply keeps_bind; [by apply keeps_log|]. intros _.
  apply keeps_bind; [apply keeps_log_analytics|]. intros _.
  apply keeps_bind; [by apply keeps_log|]. intros _.
  apply keeps_bind; [apply keeps_gets|]. intros paths.
  apply keeps_bind; [by apply keeps_process|]. intros r.
  apply keeps_bind; [by apply keeps_log|]. intros _.
  apply keeps_bind; [apply keeps_gets|]. intros paths'. apply keeps_ret.
Qed.

Lemma render_try_paths client page assetPath proc s s' d r :
  render_try client page assetPath proc s = (s', Ok (Rendered d r)) →
  imagePaths (metadata r) = assetPaths s'.
Proof.
  unfold render_try. intros Hr.
  do 12 (apply bind_ok in Hr as (? & ? & _ & Hr)).
  apply bind_ok in Hr as (? & ? & Hg & Hr).
  unfold ret in Hr. unfold gets in Hg. by simplify_eq.
Qed.

(** X10. In a renderer, the two counters of the assets ([download] and
    [cached]) always add up to the number of paths recorded: every file
    that [downloadFile] returns a path for is counted once, a file whose
    download fails is neither counted nor recorded. So when the render of a
    page succeeds, its [imagePaths] are the paths the renderer recorded, and
    there are as many as the log line on the assets counts. *)
Theorem asset_counters_add_up (client : Client) (page : Page) (assetPath : string)
    (plugins : Res (list (RehypePlugin * option string))) (w : World)
    (s : RS) (res : RenderResult) :
  render client page assetPath (process plugins) (new_renderer w) = (s, Ok res) →
  length (assetPaths s) = (downloaded s + cachedHits s)%nat
  ∧ ∀ d r, res = Rendered d r →
      imagePaths (metadata r) = assetPaths s
      ∧ length (imagePaths (metadata r)) = (downloaded s + cachedHits s)%nat.
Proof.
  unfold render, try_catch.
  destruct (render_try client page assetPath (process plugins) (new_renderer w))
    as [s1 [res1|e]] eqn:Ht.
  - intros [= <- <-].
    assert (Hs : tallied s1) by (by eapply keeps_render_try; [|exact Ht]).
    split; [done|]. intros d r ->. apply render_try_paths in Ht. by rewrite Ht.
  - unfold bind, log, console_error, modify, ret. intros [= <- <-].
    assert (Hs : tallied s1) by (by eapply keeps_render_try; [|exact Ht]).
    split; [done|]. by intros d r.
Qed.

End TallyFacts.

Section BlockFacts.
Context `{Platform}.
Variable assetPath : string.

Lemma erase_unfold id has_children body children :
  erase (MkBlock id has_children body children)
  = MkBlock id has_children (erase_body body) ((λ l : list Block, erase <$> l) <$> children).
Proof.
  by destruct children.
Qed.

Lemma expected_unfold id has_children body kids kids_ok :
  expected (FullBlock id has_children body kids kids_ok)
  = Some (MkBlock id has_children (erase_body body)
            (if has_children then Some (omap expected kids) else None)).
Proof.
  by destruct has_children.
Qed.

Lemma listings_ok_unfold id has_children body kids kids_ok :
  listings_ok (FullBlock id has_children body kids kids_ok)
  ↔ (has_children = true → kids_ok = true ∧ Forall listings_ok kids).
Proof.
  cbn [listings_ok].
  assert (Hall : (fix all (l : list RemoteBlock) : Prop :=
                    match l with [] => True | x :: r => listings_ok x ∧ all r end) kids
                 ↔ Forall listings_ok kids).
  { induction kids as [|x l IH]; [done|]. rewrite Forall_cons. by rewrite IH. }
  by rewrite Hall.
Qed.

Lemma asset_kept_erase a a' : asset_kept a a' → erase_url a' = erase_url a.
Proof. intros [->|(url & url' & expiry & rest & -> & ->)]; done. Qed.

Lemma fetch_body_kept body s s' r :
  fetch_body assetPath body s = (s', r) → ∃ body', r = Ok body' ∧ erase_body body' = erase_body body.
Proof.
  destruct body as [a|a|a|a|a rest|t p]; simpl; [..|by intros [= _ <-]; eexists];
    unfold bind;
    match goal with |- context [fetchAsset ?dir ?x ?rp ?st] =>
      destruct (fetchAsset_kept dir x rp st) as (s1 & a' & -> & Ha) end;
    intros [= _ <-]; eexists; (split; [done|]); cbn; by rewrite (asset_kept_erase _ _ Ha).
Qed.

Local Abbreviation fetched := (fetched assetPath).

Lemma fetch_listing_fetched blockId l ok s s' r :
  Forall fetched l →
  fetch_listing assetPath blockId l ok s = (s', r) →
  match r with
  | Ok blocks => ok = true ∧ Forall listings_ok l ∧ erase <$> blocks = omap expected l
  | Throw e => ∃ id, e = ApiError id
  end.
Proof.
  intros Hl. revert s s' r. induction Hl as [|b l Hb _ IH]; intros s s' r; simpl.
  - destruct ok; intros [= _ <-]; [done|by eexists].
  - unfold bind. destruct (fetchBlock assetPath b s) as [s1 [x|e]] eqn:Hx;
      apply Hb in Hx; [|by intros [= _ <-]].
    destruct Hx as [Hok Hx].
    destruct (fetch_listing assetPath blockId l ok s1) as [s2 [xs|e]] eqn:Hxs;
      apply IH in Hxs; [|by intros [= _ <-]].
    destruct Hxs as (-> & Hall & Hxs). intros [= _ <-].
    split; [done|]. split; [by constructor|].
    destruct x as [y|]; simpl in Hx; rewrite <- Hx; cbn; by rewrite Hxs.
Qed.

Lemma fetchBlock_fetched : ∀ b, fetched b.
Proof.
  fix IH 1. intros [id|id has_children body kids kids_ok] s s' r.
  { intros [= _ <-]. done. }
  rewrite fetchBlock_unfold, expected_unfold.
  assert (Hkids : Forall fetched kids).
  { induction kids as [|b l IHl]; constructor; [apply IH|apply IHl]. }
  destruct has_children.
  - unfold bind at 1. unfold bind at 1. unfold log at 1, modify.
    unfold bind at 1. unfold log at 1, modify. unfold bind at 1.
    match goal with |- context [fetch_listing _ _ _ _ ?st] =>
      destruct (fetch_listing assetPath id kids kids_ok st) as [s1 [l|e]] eqn:Hl end;
      apply (fetch_listing_fetched _ _ _ _ _ _ Hkids) in Hl; [|by intros [= _ <-]].
    destruct Hl as (-> & Hall & Hl). unfold ret at 1. unfold bind.
    destruct (fetch_body assetPath body s1) as [s2 rb] eqn:Hb.
    apply fetch_body_kept in Hb as (body' & -> & Hb). intros [= _ <-].
    split; [by apply listings_ok_unfold|].
    cbn [fmap option_fmap option_map]. rewrite erase_unfold.
    cbn [fmap option_fmap option_map]. by rewrite Hb, Hl.
  - unfold bind at 1. unfold ret at 1. unfold bind.
    destruct (fetch_body assetPath body s) as [s2 rb] eqn:Hb.
    apply fetch_body_kept in Hb as (body' & -> & Hb). intros [= _ <-].
    split; [by apply listings_ok_unfold|].
    cbn [fmap option_fmap option_map]. rewrite erase_unfold.
    cbn [fmap option_fmap option_map]. by rewrite Hb.
Qed.

(** X11. What [fetchBlocks] collects is the listing itself, URLs of files
    apart: the full blocks in the order listed, the partial ones left out,
    each with its type and payload, and with the blocks listed under it as
    [children] exactly when [has_children] is set. It returns only if
    every listing it asked for succeeded: as soon as one fails, anywhere in
    the tree, the whole fetch throws that error and no block is returned. *)
Theorem fetchBlocks_shape (client : Client) (blockId : string)
    (items : list RemoteBlock) (ok : bool) (s : RS) :
  blocks_children client blockId = (items, ok) →
  match (fetchBlocks client assetPath blockId s).2 with
  | Ok blocks =>
      ok = true ∧ Forall listings_ok items ∧ erase <$> blocks = omap expected items
  | Throw e =>
      (∃ id, e = ApiError id) ∧ ¬ (ok = true ∧ Forall listings_ok items)
  end.
Proof.
  intros Hc. unfold fetchBlocks, bind. unfold log at 1, modify. rewrite Hc. cbn [fst snd].
  match goal with |- context [fetch_listing _ _ _ _ ?st] =>
    destruct (fetch_listing assetPath blockId items ok st) as [s1 [l|e]] eqn:Hl end.
  - cbn [snd].
    eapply (fetch_listing_fetched _ _ _ _ _ (Ok l)); [|exact Hl].
    apply Forall_forall. intros b _. apply fetchBlock_fetched.
  - cbn [snd]. split.
    + eapply (fetch_listing_fetched _ _ _ _ _ (Throw e)); [|exact Hl].
      apply Forall_forall. intros b _. apply fetchBlock_fetched.
    + intros [-> Hall].
      match type of Hl with fetch_listing _ _ _ _ ?st = _ =>
        destruct (fetch_listing_returns assetPath blockId items st) as (s2 & l & Hl') end.
      * eapply Forall_impl; [exact Hall|]. intros b Hb. by apply fetchBlock_returns.
      * congruence.
Qed.

End BlockFacts.

Section ProcessFacts.
Context `{Platform} `{Unified}.

Lemma of_res_ok {A} (x : Res A) s s' a : of_res x s = (s', Ok a) → x = Ok a ∧ s' = s.
Proof. destruct x; cbn; intros [= <- <-]; done. Qed.

Lemma bind_ext {A B} (m : M A) (k1 k2 : A → M B) s :
  (∀ a s1, k1 a s1 = k2 a s1) → bind m k1 s = bind m k2 s.
Proof. intros Hk. unfold bind. destruct (m s) as [s1 [a|e]]; [apply Hk|done]. Qed.

(** With no other render under way, [process_among] is [process]. *)
Lemma process_alone rehypePlugins blocks paths s :
  process_among (λ w, w) rehypePlugins blocks paths s = process rehypePlugins blocks paths s.
Proof.
  unfold process_among, process.
  do 8 (apply bind_ext; clear s; intros ? s).
  unfold bind at 1, modify. by destruct s as [[] ? ? ? ?].
Qed.


End ProcessFacts.

(** ** Paths and downloads *)

Section PathFacts.

Lemma normalize_app stack l1 l2 :
  normalize stack (l1 ++ l2) = normalize (reverse (normalize stack l1)) l2.
Proof.
  revert stack. induction l1 as [|s l1 IH]; intros stack; simpl.
  - by rewrite reverse_involutive.
  - destruct (decide (s = "" ∨ s = ".")); [done|]. by destruct (decide (s = "..")).
Qed.

Lemma normalize_dots stack k l :
  normalize stack (replicate k ".." ++ l) = normalize (drop k stack) l.
Proof.
  revert stack. induction k as [|k IH]; intros stack; [done|].
  cbn [replicate app normalize].
  rewrite decide_False by (by intros [?|?]). rewrite decide_True by done.
  rewrite IH. destruct stack; [by destruct k|done].
Qed.

Lemma strip_common_spec a b :
  ∃ c, a = c ++ (strip_common a b).1 ∧ b = c ++ (strip_common a b).2.
Proof.
  revert b. induction a as [|x a IH]; intros b; [by exists []|].
  destruct b as [|y b]; [by exists []|]. simpl.
  destruct (decide (x = y)) as [->|]; [|by exists []].
  destruct (IH b) as (c & Ha & Hb). exists (y :: c). simpl. by rewrite <- Ha, <- Hb.
Qed.

Lemma strip_common_prefix a rest : strip_common a (a ++ rest) = ([], rest).
Proof.
  induction a as [|x a IH]; simpl; [by destruct rest|]. by rewrite decide_True.
Qed.

Lemma normalize_join stack l :
  Forall (free "/") l →
  normalize stack (segments (join "/" l)) = normalize stack l.
Proof.
  intros Hl. destruct l as [|x l]; [done|]. unfold segments.
  by rewrite (split_join "/").
Qed.

Lemma isAbsolute_join l :
  Forall (λ x, x ≠ "" ∧ free "/" x) l → isAbsolute (join "/" l) = false.
Proof.
  destruct l as [|x l]; [done|]. intros [[Hne Hf] _]%Forall_cons.
  destruct x as [|a r]; [done|]. destruct Hf as [Ha _].
  unfold isAbsolute, join. destruct l; simpl; by rewrite bool_decide_eq_false_2.
Qed.

(** [path.resolve(base, path.relative(base, p))] is [p]. *)
Lemma resolve2_relative bsegs psegs :
  Forall plain bsegs → Forall plain psegs →
  resolve2 (absolute bsegs)
    (join "/" (replicate (length (strip_common bsegs psegs).1) ".."
               ++ (strip_common bsegs psegs).2))
  = absolute psegs.
Proof.
  intros Hb Hp.
  destruct (strip_common_spec bsegs psegs) as (c & Hbc & Hpc).
  set (f' := (strip_common bsegs psegs).1) in *.
  set (t' := (strip_common bsegs psegs).2) in *.
  assert (Ht : Forall plain t').
  { rewrite Hpc in Hp. by apply Forall_app in Hp as [_ ?]. }
  assert (Hseg : Forall (λ x, x ≠ "" ∧ free "/" x) (replicate (length f') ".." ++ t')).
  { apply Forall_app. split.
    - apply Forall_replicate. split; [done|]. by repeat split.
    - eapply Forall_impl; [exact Ht|]. by intros x (? & _ & _ & ?). }
  unfold resolve2. rewrite isAbsolute_join by done. f_equal.
  rewrite normalize_app, normalize_segments_absolute by done.
  rewrite normalize_join.
  2:{ eapply Forall_impl; [exact Hseg|]. by intros x [_ ?]. }
  rewrite normalize_dots, normalize_plain by done.
  rewrite Hbc at 1. rewrite reverse_app.
  rewrite drop_app_length'; [|by rewrite length_reverse].
  by rewrite reverse_involutive, <- Hpc.
Qed.

Lemma relative_absolute cwd bsegs psegs :
  Forall plain bsegs → Forall plain psegs →
  relative cwd (absolute bsegs) (absolute psegs)
  = join "/" (replicate (length (strip_common bsegs psegs).1) ".."
              ++ (strip_common bsegs psegs).2).
Proof.
  intros Hb Hp. unfold relative.
  rewrite !resolve_absolute, !normalize_segments_absolute by done.
  by destruct (strip_common bsegs psegs).
Qed.

Lemma resolve_content_root csegs :
  Forall plain csegs →
  resolve (absolute csegs) [absolute csegs; VIRTUAL_CONTENT_ROOT]
  = absolute (csegs ++ ["src"; "content"; "notion"]).
Proof.
  intros Hc. unfold resolve. cbn [foldl]. rewrite !resolve2_absolute by done.
  unfold resolve2. change (isAbsolute VIRTUAL_CONTENT_ROOT) with false. cbn [negb]. f_equal.
  rewrite normalize_app, normalize_segments_absolute by done.
  change (segments VIRTUAL_CONTENT_ROOT) with ["src"; "content"; "notion"].
  rewrite normalize_plain; [by rewrite reverse_involutive|].
  by repeat (constructor; [done|]).
Qed.

End PathFacts.

Section ResolveFacts.
Context `{Platform}.

Lemma resolveAssetPath_relative csegs psegs :
  cwd = absolute csegs → Forall plain csegs → Forall plain psegs →
  resolveAssetPath (relative cwd (resolve cwd [cwd; VIRTUAL_CONTENT_ROOT]) (absolute psegs))
  = relative cwd cwd (absolute psegs).
Proof.
  intros Hcwd Hc Hp. unfold resolveAssetPath. f_equal.
  rewrite Hcwd. rewrite resolve_content_root by done.
  assert (Hb : Forall plain (csegs ++ ["src"; "content"; "notion"])).
  { apply Forall_app. split; [done|]. by repeat (constructor; [done|]). }
  rewrite relative_absolute by done.
  transitivity (resolve2 (absolute (csegs ++ ["src"; "content"; "notion"]))
                  (join "/" (replicate
                     (length (strip_common (csegs ++ ["src"; "content"; "notion"]) psegs).1) ".."
                     ++ (strip_common (csegs ++ ["src"; "content"; "notion"]) psegs).2)));
    [|by apply resolve2_relative].
  unfold resolve. cbn [foldl]. rewrite !resolve2_absolute by done.
  f_equal. change VIRTUAL_CONTENT_ROOT with "src/content/notion".
  unfold resolve2. change (isAbsolute "src/content/notion") with false. cbn [negb]. f_equal.
  rewrite normalize_app, normalize_segments_absolute by done.
  change (segments "src/content/notion") with ["src"; "content"; "notion"].
  rewrite normalize_plain; [by rewrite reverse_involutive|].
  by repeat (constructor; [done|]).
Qed.

Lemma relative_below csegs rest :
  cwd = absolute csegs → Forall plain csegs → Forall plain rest →
  relative cwd cwd (absolute (csegs ++ rest)) = join "/" rest.
Proof.
  intros Hcwd Hc Hr. rewrite Hcwd at 2. rewrite relative_absolute.
  - by rewrite strip_common_prefix.
  - done.
  - by apply Forall_app.
Qed.

Lemma filePath_plain rsegs obj file :
  Forall plain rsegs → plain obj → plain file →
  filePath (absolute rsegs) obj file = absolute (rsegs ++ [obj; file]).
Proof.
  intros Hr Ho Hf. unfold filePath, saveDirPath.
  rewrite (resolve_child cwd rsegs obj) by done.
  rewrite resolve_child; [by rewrite <- app_assoc| |done].
  apply Forall_app. split; [done|]. by apply Forall_singleton.
Qed.

Lemma fetchAsset_saved root url expiry rest resolvePath s s1 s2 rel :
  ensureDirSync root s = (s1, Ok tt) →
  downloadFile url root renderer_options s1 = (s2, Ok rel) →
  fetchAsset root (AssetFile url expiry rest) resolvePath s
  = (push_assetPath rel s2,
     Ok (AssetFile (if resolvePath then resolveAssetPath rel else rel) expiry rest)).
Proof.
  intros H1 H2. unfold fetchAsset, try_catch, bind.
  rewrite H1. fold renderer_options. by rewrite H2.
Qed.

Lemma fetchAsset_no_root root url expiry rest resolvePath s s1 e :
  ensureDirSync root s = (s1, Throw e) →
  fetchAsset root (AssetFile url expiry rest) resolvePath s
  = (fetch_failure_logged e s1, Ok (AssetFile url expiry rest)).
Proof.
  intros H1. unfold fetchAsset, try_catch, bind. by rewrite H1.
Qed.

(** X13. The URL [#fetchAsset] gives to a file of Notion, with the asset
    directory below the working directory. When the download succeeds, the
    path it returns is that of the saved file as seen from the virtual
    content root, it is recorded in the list of assets, and it becomes the
    URL of the file: as it is without [resolvePath], and with [resolvePath]
    relative to the working directory, that is, the asset directory, the
    second segment of the URL's path and the third. Resolving the first
    form against the content root gives the second. When the download
    throws, or the asset directory cannot be made, the error is logged and
    the file keeps the URL it had. *)
Theorem asset_url_resolved (csegs asegs : list string) (url pn parent obj file : string)
    (more : list string) (expiry rest : string) (resolvePath : bool) (s : RS) :
  cwd = absolute csegs → Forall plain csegs → Forall plain asegs →
  url_pathname url = Some pn →
  filter_Boolean (split_on "/" pn) = parent :: obj :: file :: more →
  obj ≠ "." → obj ≠ ".." → file ≠ "." → file ≠ ".." →
  let assetPath := absolute (csegs ++ asegs) in
  let saved := absolute (csegs ++ asegs ++ [obj; file]) in
  let from_content := relative cwd (resolve cwd [cwd; VIRTUAL_CONTENT_ROOT]) saved in
  let from_cwd := join "/" (asegs ++ [obj; file]) in
  resolveAssetPath from_content = from_cwd
  ∧ (∀ s1 s2 rel,
       ensureDirSync assetPath s = (s1, Ok tt) →
       downloadFile url assetPath renderer_options s1 = (s2, Ok rel) →
       rel = from_content
       ∧ fetchAsset assetPath (AssetFile url expiry rest) resolvePath s
         = (push_assetPath from_content s2,
            Ok (AssetFile (if resolvePath then from_cwd else from_content) expiry rest)))
  ∧ (∀ s1 s2 e,
       ensureDirSync assetPath s = (s1, Ok tt) →
       downloadFile url assetPath renderer_options s1 = (s2, Throw e) →
       fetchAsset assetPath (AssetFile url expiry rest) resolvePath s
       = (fetch_failure_logged e s2, Ok (AssetFile url expiry rest)))
  ∧ (∀ s1 e,
       ensureDirSync assetPath s = (s1, Throw e) →
       fetchAsset assetPath (AssetFile url expiry rest) resolvePath s
       = (fetch_failure_logged e s1, Ok (AssetFile url expiry rest))).
Proof.
  intros Hcwd Hc Ha Hpn Hsegs Ho1 Ho2 Hf1 Hf2 assetPath saved from_content from_cwd.
  pose proof (filter_Boolean_free pn) as Hfree. rewrite Hsegs in Hfree.
  apply Forall_cons in Hfree as [_ Hfree].
  apply Forall_cons in Hfree as [[Ho0 Ho3] Hfree].
  apply Forall_cons in Hfree as [[Hf0 Hf3] _].
  assert (Hobj : plain obj) by done. assert (Hfile : plain file) by done.
  assert (Hrest : Forall plain (asegs ++ [obj; file])).
  { apply Forall_app. split; [done|]. by repeat (constructor; [done|]). }
  assert (Hres : resolveAssetPath from_content = from_cwd).
  { unfold from_content, saved.
    rewrite (resolveAssetPath_relative csegs) by (done || by apply Forall_app).
    by apply relative_below. }
  split; [done|]. split; [|split].
  - intros s1 s2 rel Hdir Hd.
    destruct (downloadFile_inv url _ renderer_options _ _ _ _ _ _ _ _ (benign_log Debug)
                benign_count Hpn Hsegs Hd) as (fs' & _ & _ & Hrel & _).
    unfold assetPath in Hrel. rewrite filePath_plain in Hrel; [|by apply Forall_app|done|done].
    rewrite <- app_assoc in Hrel. fold saved from_content in Hrel. subst rel.
    split; [done|]. rewrite (fetchAsset_saved _ _ _ _ _ _ _ _ _ Hdir Hd). by rewrite Hres.
  - intros s1 s2 e Hdir Hd. by eapply fetchAsset_caught.
  - intros s1 e Hdir. by apply fetchAsset_no_root.
Qed.

End ResolveFacts.

Section MissFacts.
Context `{Platform}.

Lemma ensureDirSync_world p s s1 :
  ensureDirSync p s = (s1, Ok tt) →
  pending (world s1) = pending (world s) ∧ requests (world s1) = requests (world s)
  ∧ toc_headings (world s1) = toc_headings (world s).
Proof.
  unfold ensureDirSync. destruct (mkdirs _ _ _); [|done]. by intros [= <-].
Qed.

(** X14. A download that is not answered from the cache, because the file
    is not there or because [ignoreCache] is set (the file may then exist):
    the URL is requested. If the request fails, [downloadFile] throws that
    error; the directory of the object has been made and stays, no write is
    started and neither callback is called. If it succeeds, one write of the
    bytes received is started, to the save path, and a path is returned. *)
Theorem download_miss (url root : string) (options : SaveOptions)
    (pn parent obj file : string) (rest : list string) (s s1 : RS) :
  exists_in (files (world s)) (key root) = true →
  url_pathname url = Some pn →
  filter_Boolean (split_on "/" pn) = parent :: obj :: file :: rest →
  ensureDirSync (saveDirPath root obj) s = (s1, Ok tt) →
  ignoreCache options = true
  ∨ exists_in (files (world s1)) (key (filePath root obj file)) = false →
  benign (log_cb options) → benign (tag_cb options) →
  match http_fetch url with
  | None =>
      ∃ s', downloadFile url root options s = (s', Throw (FetchFailed url))
            ∧ files (world s') = files (world s1)
            ∧ pending (world s') = pending (world s)
            ∧ requests (world s') = requests (world s) ++ [url]
            ∧ logs s' = logs s ∧ downloaded s' = downloaded s
  | Some buffer =>
      ∃ s' rel, downloadFile url root options s = (s', Ok rel)
            ∧ files (world s') = files (world s1)
            ∧ pending (world s')
              = pending (world s) ++ [(key (filePath root obj file), buffer)]
            ∧ requests (world s') = requests (world s) ++ [url]
  end.
Proof.
  intros Hroot Hpn Hsegs Hdir Hmiss Hlog Htag.
  destruct (ensureDirSync_world _ _ _ Hdir) as (Hp & Hr & _).
  assert (Hcond : ignoreCache options
                  || negb (exists_in (files (world s1)) (key (filePath root obj file))) = true).
  { destruct Hmiss as [->| ->]; [done|by rewrite orb_true_r]. }
  destruct (http_fetch url) as [buffer|] eqn:Hf;
    rewrite (downloadFile_decomposed _ _ _ _ _ _ _ _ _ Hroot Hpn Hsegs);
    unfold bind at 1; rewrite Hdir; unfold bind at 1; unfold existsSync at 1, gets;
    rewrite Hcond; unfold bind at 1; unfold bind at 1; unfold fetch; unfold bind at 1;
    unfold modify at 1; rewrite Hf; cbn [of_option].
  - unfold ret at 1. unfold bind at 1. unfold writeFile_unawaited, modify.
    match goal with |- context [bind (call_opt (log_cb options) ?m) _ ?st] =>
      destruct (call_opt_benign (log_cb options) m st Hlog) as (sa & Ha & Hwa);
      destruct (call_opt_benign (tag_cb options) download sa Htag) as (sb & Hb & Hwb)
    end.
    unfold bind at 1. rewrite Ha, Hb. unfold bind, ret.
    eexists _, _. split; [reflexivity|]. rewrite Hwb, Hwa. cbn. by rewrite Hp, Hr.
  - unfold throw. cbv beta iota. eexists. split; [reflexivity|]. cbn.
    unfold ensureDirSync in Hdir. destruct (mkdirs _ _ _); [|done].
    by simplify_eq.
Qed.

End MissFacts.

(** ** A second download before the first write has completed *)

Section RefetchFacts.
Context `{Platform}.

Lemma ensureDirSync_again p s sd s1 :
  ensureDirSync p s = (sd, Ok tt) → files (world s1) = files (world sd) →
  ensureDirSync p s1 = (s1, Ok tt).
Proof.
  unfold ensureDirSync. intros Hdir Hfiles.
  destruct (mkdirs _ _ (files (world s))) as [fs|] eqn:Hmk; [|done].
  injection Hdir as <-. cbn [set_world world set_files files] in Hfiles.
  rewrite Hfiles. rewrite (mkdirs_again _ _ _ fs fs Hmk) by done.
  rewrite <- Hfiles. by rewrite set_files_same.
Qed.

Lemma ensureDirSync_keeps p s sd k :
  ensureDirSync p s = (sd, Ok tt) → exists_in (files (world s)) k = true →
  exists_in (files (world sd)) k = true.
Proof.
  unfold ensureDirSync. intros Hdir Hk.
  destruct (mkdirs _ _ (files (world s))) as [fs|] eqn:Hmk; [|done].
  injection Hdir as <-. cbn [set_world world set_files files].
  by eapply exists_in_mkdirs.
Qed.

(** A miss, with the state it ends in. *)
Lemma downloadFile_miss_state url root options pn parent obj file rest s sd buffer :
  exists_in (files (world s)) (key root) = true →
  url_pathname url = Some pn →
  filter_Boolean (split_on "/" pn) = parent :: obj :: file :: rest →
  ensureDirSync (saveDirPath root obj) s = (sd, Ok tt) →
  ignoreCache options || negb (exists_in (files (world sd)) (key (filePath root obj file))) = true →
  http_fetch url = Some buffer →
  benign (log_cb options) → benign (tag_cb options) →
  ∃ msg,
    downloadFile url root options s
    = (exec (do! call_opt (log_cb options) msg in call_opt (tag_cb options) download)
         (set_world (asked url (filePath root obj file) buffer) sd),
       Ok (relative cwd (resolve cwd [cwd; VIRTUAL_CONTENT_ROOT]) (filePath root obj file)))
    ∧ world (exec (do! call_opt (log_cb options) msg in call_opt (tag_cb options) download)
               (set_world (asked url (filePath root obj file) buffer) sd))
      = asked url (filePath root obj file) buffer (world sd).
Proof.
  intros Hroot Hpn Hsegs Hdir Hcond Hf Hlog Htag.
  rewrite (downloadFile_decomposed _ _ _ _ _ _ _ _ _ Hroot Hpn Hsegs).
  unfold bind at 1. rewrite Hdir. unfold bind at 1. unfold existsSync at 1, gets.
  rewrite Hcond. unfold bind at 1. unfold bind at 1. unfold fetch. unfold bind at 1.
  unfold modify at 1. rewrite Hf. cbn [of_option].
  unfold ret at 1. unfold bind at 1. unfold writeFile_unawaited, modify.
  match goal with |- context [bind (call_opt (log_cb options) ?m) _ ?st] =>
    destruct (call_opt_benign (log_cb options) m st Hlog) as (sa & Ha & Hwa);
    destruct (call_opt_benign (tag_cb options) download sa Htag) as (sb & Hb & Hwb);
    exists m;
    assert (Hst : st = set_world (asked url (filePath root obj file) buffer) sd)
      by (by destruct sd as [[] ? ? ? ?]);
    rewrite <- Hst;
    assert (Hx : exec (do! call_opt (log_cb options) m in
                       call_opt (tag_cb options) download) st = sb)
      by (unfold exec, bind; by rewrite Ha, Hb)
  end.
  rewrite Hx. unfold bind at 1. rewrite Ha, Hb. unfold bind, ret. split; [done|].
  rewrite Hwb, Hwa, Hst. by destruct sd as [[] ? ? ? ?].
Qed.

(** C5 (asset path stability, as the code has it). Two URLs with the same
    path, with [ignoreCache] unset, resolved one after the other, the second
    in the state the first call returns in: its write is started and, not
    being awaited, has not completed. When the file is not there for the
    first call, it is then not there for the second either. Both calls
    return the same path, but the second is no hit: it requests its URL,
    starts a second write to the same file and reports a download. The
    requests are those of the start followed by both URLs, and two writes
    are pending. *)
Theorem second_resolution_refetches (url1 url2 root : string) (options : SaveOptions)
    (pn parent obj file : string) (rest : list string) (s sd : RS) (b1 b2 : list byte) :
  url_pathname url1 = Some pn → url_pathname url2 = Some pn →
  filter_Boolean (split_on "/" pn) = parent :: obj :: file :: rest →
  ignoreCache options = false →
  benign (log_cb options) → benign (tag_cb options) →
  exists_in (files (world s)) (key root) = true →
  ensureDirSync (saveDirPath root obj) s = (sd, Ok tt) →
  exists_in (files (world sd)) (key (filePath root obj file)) = false →
  http_fetch url1 = Some b1 → http_fetch url2 = Some b2 →
  ∃ s1 s2 p msg,
    downloadFile url1 root options s = (s1, Ok p)
    ∧ downloadFile url2 root options s1 = (s2, Ok p)
    ∧ s2 = exec (do! call_opt (log_cb options) msg in call_opt (tag_cb options) download)
             (set_world (asked url2 (filePath root obj file) b2) s1)
    ∧ requests (world s2) = requests (world s) ++ [url1; url2]
    ∧ pending (world s2)
      = pending (world s) ++ [(key (filePath root obj file), b1);
                               (key (filePath root obj file), b2)].
Proof.
  intros Hpn1 Hpn2 Hsegs Hic Hlog Htag Hroot Hdir Habsent Hf1 Hf2.
  assert (Hcond : ignoreCache options
                  || negb (exists_in (files (world sd)) (key (filePath root obj file))) = true).
  { by rewrite Hic, Habsent. }
  destruct (downloadFile_miss_state url1 root options _ _ _ _ _ s sd b1
              Hroot Hpn1 Hsegs Hdir Hcond Hf1 Hlog Htag) as (msg1 & Hrun1 & Hw1).
  set (s1 := exec (do! call_opt (log_cb options) msg1 in call_opt (tag_cb options) download)
               (set_world (asked url1 (filePath root obj file) b1) sd)) in *.
  assert (Hfiles : files (world s1) = files (world sd)) by (by rewrite Hw1).
  assert (Hroot1 : exists_in (files (world s1)) (key root) = true).
  { rewrite Hfiles. by eapply ensureDirSync_keeps. }
  pose proof (ensureDirSync_again _ _ _ s1 Hdir Hfiles) as Hdir1.
  assert (Hcond1 : ignoreCache options
                   || negb (exists_in (files (world s1)) (key (filePath root obj file))) = true).
  { by rewrite Hfiles. }
  destruct (downloadFile_miss_state url2 root options _ _ _ _ _ s1 s1 b2
              Hroot1 Hpn2 Hsegs Hdir1 Hcond1 Hf2 Hlog Htag) as (msg2 & Hrun2 & Hw2).
  destruct (ensureDirSync_world _ _ _ Hdir) as (Hp & Hr & _).
  eexists s1, _, _, msg2. split; [exact Hrun1|]. split; [exact Hrun2|]. split; [done|].
  rewrite Hw2. cbn [asked requests pending]. rewrite Hw1. cbn [asked requests pending].
  rewrite Hp, Hr, <- !app_assoc. done.
Qed.

End RefetchFacts.

(** ** The asset stage *)

Section VisitFacts.
Context `{Platform}.
Variable assetPaths : option (list string).

Lemma visit_element_unfold occ tagName props children :
  visit assetPaths occ (Element tagName props children)
  = let? a := visit_element assetPaths occ tagName props in
    let? b := visit_children assetPaths a.1 children in
    Ok (b.1, Element tagName a.2 b.2).
Proof. reflexivity. Qed.

Lemma visit_root_unfold occ children :
  visit assetPaths occ (Root children)
  = let? b := visit_children assetPaths occ children in Ok (b.1, Root b.2).
Proof. reflexivity. Qed.

Lemma bare_element tagName props children :
  bare (Element tagName props children) = Element tagName ∅ (bare <$> children).
Proof. reflexivity. Qed.

Lemma bare_root children : bare (Root children) = Root (bare <$> children).
Proof. reflexivity. Qed.

Lemma srcs_element tagName props children :
  srcs (Element tagName props children) = own_src props ++ (children ≫= srcs).
Proof. reflexivity. Qed.

Lemma srcs_root children : srcs (Root children) = children ≫= srcs.
Proof. reflexivity. Qed.

(** *** The shape of the tree *)

Lemma visit_children_bare l :
  Forall (λ n, ∀ occ r, visit assetPaths occ n = Ok r → bare r.2 = bare n) l →
  ∀ occ r, visit_children assetPaths occ l = Ok r → bare <$> r.2 = bare <$> l.
Proof.
  induction 1 as [|n l Hn _ IH]; intros occ r; simpl.
  - by intros [= <-].
  - destruct (visit assetPaths occ n) as [a|e] eqn:Ha; [|done]. cbn [rbind].
    destruct (visit_children assetPaths a.1 l) as [b|e] eqn:Hb; [|done]. cbn [rbind].
    intros [= <-]. cbn. by rewrite (Hn _ _ Ha), (IH _ _ Hb).
Qed.

Lemma visit_bare : ∀ n occ r, visit assetPaths occ n = Ok r → bare r.2 = bare n.
Proof.
  fix IH 1. intros [tagName props children|v|children|t] occ r.
  - rewrite visit_element_unfold.
    destruct (visit_element assetPaths occ tagName props) as [a|e]; [|done]. cbn [rbind].
    destruct (visit_children assetPaths a.1 children) as [b|e] eqn:Hb; [|done]. cbn [rbind].
    intros [= <-]. cbn [snd]. rewrite !bare_element. f_equal.
    eapply visit_children_bare; [|exact Hb].
    clear Hb. induction children as [|x l IHl]; constructor; [apply IH|apply IHl].
  - by intros [= <-].
  - rewrite visit_root_unfold.
    destruct (visit_children assetPaths occ children) as [b|e] eqn:Hb; [|done]. cbn [rbind].
    intros [= <-]. cbn [snd]. rewrite !bare_root. f_equal.
    eapply visit_children_bare; [|exact Hb].
    clear Hb. induction children as [|x l IHl]; constructor; [apply IH|apply IHl].
  - by intros [= <-].
Qed.

(** X15. The asset stage changes properties and nothing else: when it
    returns, the tree has the nodes it had, with the same tag names, in the
    same order and nesting; texts and the other nodes that are not elements
    are untouched. *)
Theorem rehypeAssets_keeps_shape (tree tree' : HNode) :
  rehypeAssets assetPaths tree = Ok tree' → bare tree' = bare tree.
Proof.
  unfold rehypeAssets. destruct (visit assetPaths ∅ tree) as [r|e] eqn:Hr; [|done].
  cbn [rbind]. intros [= <-]. by eapply visit_bare.
Qed.

(** *** Failure *)

Lemma visit_element_decoded occ tagName props :
  decoded (visit_element assetPaths occ tagName props) (own_src props).
Proof.
  unfold visit_element, own_src.
  destruct (props !! "src") as [src0|]; [|by constructor].
  destruct (truthy src0); [|by constructor].
  destruct (decodeURI src0) as [src|] eqn:Hd; cbn [rbind].
  - assert (Hs : Forall (λ s, is_Some (decodeURI s)) [src0]).
    { apply Forall_singleton. by rewrite Hd. }
    by destruct (_ && _).
  - exists src0. split; [done|]. split; [by left|done].
Qed.

Lemma visit_children_decoded l :
  Forall (λ n, ∀ occ, decoded (visit assetPaths occ n) (srcs n)) l →
  ∀ occ, decoded (visit_children assetPaths occ l) (l ≫= srcs).
Proof.
  induction 1 as [|n l Hn _ IH]; intros occ; simpl; [by constructor|].
  specialize (Hn occ). destruct (visit assetPaths occ n) as [a|e]; cbn [rbind].
  - specialize (IH a.1).
    destruct (visit_children assetPaths a.1 l) as [b|e]; cbn [rbind]; simpl in *.
    + by apply Forall_app.
    + destruct IH as (s & -> & Hin & Hs). exists s. split; [done|]. split; [|done].
      apply elem_of_app. by right.
  - destruct Hn as (s & -> & Hin & Hs). exists s. split; [done|]. split; [|done].
    apply elem_of_app. by left.
Qed.

Lemma visit_decoded : ∀ n occ, decoded (visit assetPaths occ n) (srcs n).
Proof.
  fix IH 1. intros [tagName props children|v|children|t] occ.
  - rewrite visit_element_unfold, srcs_element.
    pose proof (visit_element_decoded occ tagName props) as He.
    destruct (visit_element assetPaths occ tagName props) as [a|e]; cbn [rbind].
    + assert (Hc : decoded (visit_children assetPaths a.1 children) (children ≫= srcs)).
      { apply visit_children_decoded.
        induction children as [|x l IHl]; constructor; [apply IH|apply IHl]. }
      destruct (visit_children assetPaths a.1 children) as [b|e]; cbn [rbind]; simpl in *.
      * by apply Forall_app.
      * destruct Hc as (s & -> & Hin & Hs). exists s. split; [done|]. split; [|done].
        apply elem_of_app. by right.
    + destruct He as (s & -> & Hin & Hs). exists s. split; [done|]. split; [|done].
      apply elem_of_app. by left.
  - by constructor.
  - rewrite visit_root_unfold, srcs_root.
    assert (Hc : decoded (visit_children assetPaths occ children) (children ≫= srcs)).
    { apply visit_children_decoded.
      induction children as [|x l IHl]; constructor; [apply IH|apply IHl]. }
    by destruct (visit_children assetPaths occ children) as [b|e].
  - by constructor.
Qed.

(** X16. The asset stage fails on nothing but a [src] that [decodeURI]
    rejects: it returns a tree exactly when every non-empty [src] of an
    element of the tree can be decoded, and otherwise throws the [URIError]
    of one that cannot. *)
Theorem rehypeAssets_fails_on_src (tree : HNode) :
  match rehypeAssets assetPaths tree with
  | Ok _ => Forall (λ s, is_Some (decodeURI s)) (srcs tree)
  | Throw e => ∃ s, e = URIError s ∧ s ∈ srcs tree ∧ decodeURI s = None
  end.
Proof.
  unfold rehypeAssets. pose proof (visit_decoded tree ∅) as Hv.
  by destruct (visit assetPaths ∅ tree) as [r|e].
Qed.

End VisitFacts.

Section ExtensionFacts.

Lemma split_on_last c stem ext :
  free c ext →
  last (split_on c (stem +:+ String c ext)) = Some ext
  ∧ (2 ≤ length (split_on c (stem +:+ String c ext)))%nat.
Proof.
  intros Hext. induction stem as [|a r [IH1 IH2]]; simpl.
  - rewrite decide_True by done. rewrite (split_on_single c ext) by done. by split.
  - destruct (decide (a = c)).
    + destruct (split_on c (r +:+ String c ext)) as [|h t]; [simpl in IH2; lia|].
      split; [done|]. simpl in *. lia.
    + destruct (split_on c (r +:+ String c ext)) as [|h [|h' t]]; simpl in IH2; try lia.
      split; [done|]. simpl. lia.
Qed.

(** X17. Whether a path counts as an image for Astro is decided by what
    follows its last dot, compared without regard to case with the six
    extensions; a name with no dot at all is taken whole as its own
    extension. *)
Theorem image_format_by_extension (stem ext : string) :
  free "." ext →
  isAstroImageFormat (stem +:+ "." +:+ ext) = includes (toLowerCase ext) ASTRO_IMAGE_FORMATS
  ∧ isAstroImageFormat ext = includes (toLowerCase ext) ASTRO_IMAGE_FORMATS.
Proof.
  intros Hext. unfold isAstroImageFormat, pop.
  change (stem +:+ "." +:+ ext) with (stem +:+ String "." ext).
  destruct (split_on_last "." stem ext Hext) as [-> _].
  rewrite (split_on_single "." ext) by done. cbn [last].
  destruct ext as [|a r]; [by vm_compute|]. done.
Qed.

End ExtensionFacts.

Section RewriteFacts.
Context `{Platform}.
Variable assetPaths : option (list string).

Lemma startsWith_src rest : startsWith "src/" ("src/" +:+ rest) = true.
Proof. reflexivity. Qed.

Lemma replace_src_prefix_src rest : replace_src_prefix ("src/" +:+ rest) = "/" +:+ rest.
Proof. reflexivity. Qed.

Lemma startsWith_up_src rest : startsWith "../" ("src/" +:+ rest) = false.
Proof. reflexivity. Qed.

(** The test of the visitor for the image treatment fails exactly on what is
    not an image of the list. *)
Lemma not_listed_image tagName src :
  ¬ listed_image assetPaths tagName src →
  bool_decide (tagName = "img")
  && match assetPaths with Some l => includes src l | None => false end
  && isAstroImageFormat src = false.
Proof.
  intros Hno. apply not_true_is_false. intros Hc. apply Hno.
  apply andb_true_iff in Hc as [Hc Hfmt]. apply andb_true_iff in Hc as [Htag Hin].
  apply bool_decide_eq_true in Htag. split; [done|]. split; [|done].
  destruct assetPaths as [l|]; [|done]. exists l. split; [done|].
  by apply bool_decide_eq_true in Hin.
Qed.

(** X18. A reference rooted at [src/] is made absolute. On an element
    without [src] the visitor only treats the [href] ([rewrite_href]): an
    [href] that starts with [src/] loses the [src] and nothing else changes,
    whatever the element and the list of assets (an [href] never gets the
    image treatment); an [href] that does not start with [src/] is left as
    it is. A [src] that decodes to a path starting with [src/], on any
    element but an image of the list, becomes the same path without the
    [src]; the [href] of the element, if it has one, is then treated in the
    same way, and nothing else changes. *)
Theorem source_rooted_rewrite (occ : gmap string nat) (tagName : string)
    (props : gmap string string) (rest : string) :
  (props !! "src" = None →
   visit_element assetPaths occ tagName props = Ok (occ, rewrite_href props))
  ∧ (props !! "src" = None → props !! "href" = Some ("src/" +:+ rest) →
     visit_element assetPaths occ tagName props
     = Ok (occ, <["href" := "/" +:+ rest]> props))
  ∧ (props !! "src" = None →
     (∀ href, props !! "href" = Some href → startsWith "src/" href = false) →
     visit_element assetPaths occ tagName props = Ok (occ, props))
  ∧ (∀ src0, props !! "src" = Some src0 → truthy src0 = true →
       decodeURI src0 = Some ("src/" +:+ rest) →
       ¬ listed_image assetPaths tagName ("src/" +:+ rest) →
       visit_element assetPaths occ tagName props
       = Ok (occ, rewrite_href (<["src" := "/" +:+ rest]> props))).
Proof.
  split; [|split; [|split]].
  - intros Hsrc. unfold visit_element. by rewrite Hsrc.
  - intros Hsrc Hhref. unfold visit_element, rewrite_href.
    rewrite Hsrc, Hhref, startsWith_src. by rewrite replace_src_prefix_src.
  - intros Hsrc Hhref. unfold visit_element, rewrite_href. rewrite Hsrc.
    destruct (props !! "href") as [href|] eqn:Hh; [|done]. by rewrite (Hhref href).
  - intros src0 Hsrc Htruthy Hd Hno. unfold visit_element.
    rewrite Hsrc, Htruthy, Hd. cbn [rbind].
    rewrite (not_listed_image _ _ Hno).
    rewrite startsWith_up_src, startsWith_src, replace_src_prefix_src.
    by rewrite insert_insert_eq.
Qed.

End RewriteFacts.

Section Numbering.
Context `{Platform}.

Lemma visit_image occ props src0 src l :
  props !! "src" = Some src0 → truthy src0 = true →
  decodeURI src0 = Some src →
  src ∈ l → isAstroImageFormat src = true →
  props !! "__ASTRO_IMAGE_" = None →
  visit (Some l) occ (Element "img" props [])
  = Ok (<[src := S (default 0%nat (occ !! src))]> occ,
        Element "img"
          {[ "__ASTRO_IMAGE_" :=
               json_stringify (<["src" := src]> props) (default 0%nat (occ !! src)) ]} []).
Proof.
  intros Hsrc Htruthy Hdec Hin Hfmt Hnone.
  rewrite visit_element_unfold. unfold visit_element.
  rewrite Hsrc, Htruthy, Hdec. cbn [rbind]. rewrite Hfmt.
  unfold includes. rewrite bool_decide_eq_true_2 by done.
  rewrite bool_decide_eq_true_2 by done. cbn [andb].
  rewrite hint_alone; [|by rewrite lookup_insert_ne].
  cbn. by rewrite Nat.add_1_r.
Qed.

Lemma visit_images src0 src l propsl :
  truthy src0 = true → decodeURI src0 = Some src →
  src ∈ l → isAstroImageFormat src = true →
  Forall (λ props, props !! "src" = Some src0 ∧ props !! "__ASTRO_IMAGE_" = None) propsl →
  ∀ occ k, default 0%nat (occ !! src) = k →
  ∃ occ',
    visit_children (Some l) occ ((λ props, Element "img" props []) <$> propsl)
    = Ok (occ',
          imap (λ i props,
                  Element "img"
                    {[ "__ASTRO_IMAGE_" :=
                         json_stringify (<["src" := src]> props) (k + i) ]} [])
            propsl).
Proof.
  intros Htruthy Hdec Hin Hfmt Hall.
  induction Hall as [|props propsl [Hsrc Hnone] _ IH]; intros occ k Hk; [by eexists|].
  cbn [fmap list_fmap visit_children].
  rewrite (visit_image occ props src0 src l) by done. cbn [rbind fst snd].
  destruct (IH (<[src := S (default 0%nat (occ !! src))]> occ) (S k)) as [occ' ->].
  { rewrite lookup_insert_eq. cbn. by rewrite Hk. }
  cbn [rbind fst snd]. eexists. do 2 f_equal.
  cbn [imap]. rewrite Hk, Nat.add_0_r. f_equal.
  apply imap_ext. intros i p _. cbn. do 4 f_equal. lia.
Qed.

(** X19. Images of the asset list that repeat one source are numbered in
    document order: of [n] sibling [img] elements with the same [src], the
    first gets the index 0 in its hint, the next 1, and so on; each keeps
    its own other properties inside its hint. The count starts again with
    every tree. *)
Theorem repeated_images_numbered (l : list string) (src0 src : string)
    (propsl : list (gmap string string)) :
  truthy src0 = true → decodeURI src0 = Some src →
  src ∈ l → isAstroImageFormat src = true →
  Forall (λ props, props !! "src" = Some src0 ∧ props !! "__ASTRO_IMAGE_" = None) propsl →
  rehypeAssets (Some l) (Root ((λ props, Element "img" props []) <$> propsl))
  = Ok (Root (imap (λ i props,
                      Element "img"
                        {[ "__ASTRO_IMAGE_" := json_stringify (<["src" := src]> props) i ]} [])
                propsl)).
Proof.
  intros Htruthy Hdec Hin Hfmt Hall. unfold rehypeAssets.
  rewrite visit_root_unfold.
  destruct (visit_images src0 src l propsl Htruthy Hdec Hin Hfmt Hall ∅ 0%nat)
    as [occ' ->]; [by rewrite lookup_empty|].
  done.
Qed.

End Numbering.

(** ** Rich text *)

Section RichTextFacts.
Import Format.

Lemma append_cons a (r s : string) : String a r +:+ s = String a (r +:+ s).
Proof. reflexivity. Qed.

Lemma append_empty_r (s : string) : s +:+ "" = s.
Proof. induction s as [|a r IH]; [done|]. by rewrite append_cons, IH. Qed.

Lemma append_assoc (a b c : string) : (a +:+ b) +:+ c = a +:+ b +:+ c.
Proof. induction a as [|x r IH]; [done|]. by rewrite !append_cons, IH. Qed.

Lemma length_append (a b : string) :
  String.length (a +:+ b) = (String.length a + String.length b)%nat.
Proof. induction a as [|x r IH]; [done|]. rewrite append_cons. simpl. by rewrite IH. Qed.

Lemma join_empty_cons (x : string) (l : list string) : join "" (x :: l) = x +:+ join "" l.
Proof. destruct l as [|y l]; simpl; [by rewrite append_empty_r|done]. Qed.

Lemma join_empty_app (l1 l2 : list string) : join "" (l1 ++ l2) = join "" l1 +:+ join "" l2.
Proof.
  induction l1 as [|x l1 IH]; [done|].
  change ((x :: l1) ++ l2) with (x :: (l1 ++ l2)).
  rewrite !join_empty_cons, IH. by rewrite append_assoc.
Qed.

(** X20. The plain text of a rich text is the texts of its items one
    after the other with nothing between them: the text of two lists joined
    is the two texts joined, an empty list gives the empty string, and the
    length is the sum of the lengths of the items. *)
Theorem plain_text_concatenates (a b : list RichTextItem) :
  richTextToPlainText (a ++ b) = richTextToPlainText a +:+ richTextToPlainText b
  ∧ richTextToPlainText [] = ""
  ∧ String.length (richTextToPlainText a)
    = sum_list ((λ t, String.length (plain_text t)) <$> a).
Proof.
  unfold richTextToPlainText. split; [|split; [done|]].
  - by rewrite fmap_app, join_empty_app.
  - induction a as [|x a IH]; [done|].
    rewrite !fmap_cons, join_empty_cons. cbn [sum_list sum_list_with].
    rewrite <- IH. apply length_append.
Qed.

End RichTextFacts.

(** ** Upward paths *)

Section UpwardFacts.
Context `{Platform}.
Variable assetPaths : option (list string).

Lemma skip_groups_upward k rest : no_short_head rest → skip_groups (upward k rest) = rest.
Proof.
  intros Hrest. induction k as [|k IH]; [|exact IH].
  destruct rest as [|a [|b [|c r]]]; try done. cbn [upward skip_groups].
  destruct (bool_decide (c = "/"%char)) eqn:Hc; [|done].
  apply bool_decide_eq_true in Hc as ->. by destruct (Hrest a b r).
Qed.

(** X22. A [src] made of one or more [../] and a path of 7-bit characters
    that does not begin with two characters and a slash, on any element but
    an image of the list, is made absolute as intended: all the [../] go and
    the path stays whole. The [href] of the element, if it has one, is
    treated as on any element, and nothing else changes. This is the case
    of the files saved below the default [assets/notion]. *)
Theorem upward_rewrite_whole (occ : gmap string nat) (tagName : string)
    (props : gmap string string) (src0 rest : string) (k : nat) :
  props !! "src" = Some src0 → truthy src0 = true →
  decodeURI src0 = Some (upward (S k) rest) →
  ascii_only rest = true → no_short_head rest →
  ¬ listed_image assetPaths tagName (upward (S k) rest) →
  visit_element assetPaths occ tagName props
  = Ok (occ, rewrite_href (<["src" := "/" +:+ rest]> props)).
Proof.
  intros Hsrc Htruthy Hd _ Hrest Hno. unfold visit_element.
  rewrite Hsrc, Htruthy, Hd. cbn [rbind].
  rewrite (not_listed_image _ _ _ Hno).
  change (startsWith "../" (upward (S k) rest)) with true.
  change (startsWith "src/" (upward (S k) rest)) with false.
  change (replace_dot_groups (upward (S k) rest)) with ("/" +:+ skip_groups (upward k rest)).
  rewrite skip_groups_upward by done. by rewrite insert_insert_eq.
Qed.

End UpwardFacts.

(** ** Examples *)

Section PassWitnesses.
Import Example.

Lemma failed_query_witness :
  (load toy_render toy_parse None failing_client [] synced_store empty_world).1 = QueryFailed
  ∧ is_Some (store (load toy_render toy_parse None failing_client [] synced_store
                      empty_world).2 !! "A").
Proof.
  destruct (failed_query_deletes_nothing toy_render toy_parse None failing_client []
              synced_store empty_world _ _ eq_refl (surjective_pairing _))
    as (Ho & _ & Hs & _).
  split; [exact Ho|]. apply Hs. apply elem_of_dom. by eexists.
Defined.

Lemma store_entries_witness :
  synced_store !! "B"
  = Some {| entry_id := "B"; digest := "t2"; entry_data := "B";
            entry_rendered :=
              {| html := "<p>";
                 metadata := {| imagePaths := []; headings := []; blocks := [] |} |};
            entry_filePath := "src/content/notion/B.md"; assetImports := [] |}
  ∨ written_by toy_render toy_parse (full_pages later_listing) "B"
      {| entry_id := "B"; digest := "t2"; entry_data := "B";
         entry_rendered :=
           {| html := "<p>";
              metadata := {| imagePaths := []; headings := []; blocks := [] |} |};
         entry_filePath := "src/content/notion/B.md"; assetImports := [] |}.
Proof.
  apply (store_entries_shape toy_render toy_parse None (client_of later_listing) []
           synced_store empty_world _ _ "B" _ (surjective_pairing _)).
  by vm_compute.
Defined.


Lemma later_only p : p ∈ full_pages later_listing → only (full_pages later_listing) p.
Proof.
  intros Hp q Hq Hid. simpl in Hp, Hq.
  set_unfold. destruct Hp as [->|[]]; destruct Hq as [->|[]]; done.
Qed.

Lemma rejected_render_witness :
  (load toy_render strict_parse None (client_of later_listing) [] synced_store
     empty_world).1 = RenderRejected
  ∧ rejected (load toy_render strict_parse None (client_of later_listing) [] synced_store
                empty_world).2 = true
  ∧ store (load toy_render strict_parse None (client_of later_listing) [] synced_store
             empty_world).2 !! "B"
    = synced_store !! "B".
Proof.
  apply (rejected_render_rejects_load toy_render strict_parse None (client_of later_listing)
           [] synced_store empty_world _ _ (page_of "B" "t2") eq_refl (surjective_pairing _)).
  - by left.
  - apply later_only. by left.
  - intros w [x Hx]. by vm_compute in Hx.
  - by vm_compute.
Defined.

Lemma only_parseData_witness :
  (∀ page dir proc st, ∃ st' r,
     @render platform (client_of mixed_listing) page dir proc st = (st', Ok r))
  ∧ (@notionLoader_load platform unified (λ _, None) string default_options
       (client_of mixed_listing) toy_parse None [] ∅ empty_world).1 = Completed.
Proof.
  apply (λ Hp, @only_parseData_rejects platform unified string (λ _, None) default_options
           (client_of mixed_listing) toy_parse None [] ∅ empty_world _ _ eq_refl Hp
           (surjective_pairing _)).
  intros d. by eexists.
Defined.

Lemma first_listing_only p :
  p ∈ full_pages first_listing → only (full_pages first_listing) p.
Proof.
  intros Hp q Hq Hid. simpl in Hp, Hq.
  set_unfold. destruct Hp as [->|[->|[]]]; destruct Hq as [->|[->|[]]]; done.
Qed.

Lemma store_mirrors_witness :
  (load toy_render toy_parse None (client_of first_listing) [] ∅ empty_world).1 = Completed
  ∧ (∀ id, is_Some (store (load toy_render toy_parse None (client_of first_listing) []
                             ∅ empty_world).2 !! id)
           ↔ id ∈ page_id <$> full_pages first_listing)
  ∧ (∀ p, p ∈ full_pages first_listing →
          synced p (store (load toy_render toy_parse None (client_of first_listing) []
                             ∅ empty_world).2)).
Proof.
  apply (store_mirrors_database toy_render toy_parse None (client_of first_listing) []
           ∅ empty_world _ _ eq_refl (surjective_pairing _)).
  intros p Hp. split; [by apply first_listing_only|].
  intros w. simpl in Hp. set_unfold. by destruct Hp as [->|[->|[]]].
Defined.

End PassWitnesses.

Section RendererWitnesses.
Import Example.

Ltac plain_list :=
  repeat (first [ apply Forall_nil | apply Forall_cons; split ]);
  unfold plain; simpl; repeat split; done.

Lemma asset_counters_witness :
  length (assetPaths (@render platform (client_of []) cover_page root
                        (@process platform unified (Ok [])) (new_renderer (world ready))).1)
  = (downloaded (@render platform (client_of []) cover_page root
                   (@process platform unified (Ok [])) (new_renderer (world ready))).1
     + cachedHits (@render platform (client_of []) cover_page root
                     (@process platform unified (Ok [])) (new_renderer (world ready))).1)%nat.
Proof.
  destruct (@render_returns platform (client_of []) cover_page root
              (@process platform unified (Ok [])) (new_renderer (world ready)))
    as (st' & r & Hr).
  rewrite Hr. cbn [fst].
  exact (proj1 (@asset_counters_add_up platform unified (client_of []) cover_page root
                  (Ok []) (world ready) st' r Hr)).
Defined.


Lemma fetchBlocks_shape_witness :
  ∃ blocks,
    (@fetchBlocks platform deep_client root "page" ready).2 = Ok blocks
    ∧ erase <$> blocks = omap expected [chain 500].
Proof.
  pose proof (@fetchBlocks_shape platform root deep_client "page" [chain 500] true ready
                eq_refl) as Hs.
  destruct ((@fetchBlocks platform deep_client root "page" ready).2) as [blocks|e].
  - exists blocks. by destruct Hs as (_ & _ & ?).
  - destruct Hs as [_ Hno]. exfalso. apply Hno. split; [done|].
    constructor; [apply chain_ok|constructor].
Defined.

Lemma asset_url_witness :
  @resolveAssetPath platform "../../assets/notion/0123/photo.png"
  = "src/assets/notion/0123/photo.png"
  ∧ (@fetchAsset platform root (AssetFile signed_url "" "") true ready).2
    = Ok (AssetFile "src/assets/notion/0123/photo.png" "" "")
  ∧ (@fetchAsset platform root (AssetFile signed_url "" "") false ready).2
    = Ok (AssetFile "../../assets/notion/0123/photo.png" "" "").
Proof.
  assert (Hdir : @ensureDirSync platform root ready
                 = ((@ensureDirSync platform root ready).1, Ok tt)).
  { rewrite (surjective_pairing (ensureDirSync _ _)). apply f_equal. by vm_compute. }
  assert (Hd : @downloadFile platform signed_url root renderer_options
                 (@ensureDirSync platform root ready).1
               = ((@downloadFile platform signed_url root renderer_options
                     (@ensureDirSync platform root ready).1).1,
                  Ok "../../assets/notion/0123/photo.png")).
  { rewrite (surjective_pairing (downloadFile _ _ _ _)). apply f_equal. by vm_compute. }
  assert (Hall : ∀ resolvePath,
            @resolveAssetPath platform "../../assets/notion/0123/photo.png"
            = "src/assets/notion/0123/photo.png"
            ∧ (@fetchAsset platform root (AssetFile signed_url "" "") resolvePath ready).2
              = Ok (AssetFile (if resolvePath then "src/assets/notion/0123/photo.png"
                               else "../../assets/notion/0123/photo.png") "" "")).
  { intros resolvePath.
    destruct (@asset_url_resolved platform ["site"] ["src"; "assets"; "notion"]
                signed_url "/workspace/0123/photo.png" "workspace" "0123" "photo.png" []
                "" "" resolvePath ready) as (Hres & Hok & _);
      [by vm_compute|plain_list|plain_list|by vm_compute|by vm_compute|done|done|done|done|].
    split; [exact Hres|].
    destruct (Hok _ _ _ Hdir Hd) as [_ Hrun].
    change (absolute (["site"] ++ ["src"; "assets"; "notion"])) with root in Hrun.
    by rewrite Hrun. }
  split; [exact (proj1 (Hall true))|].
  split; [exact (proj2 (Hall true))|exact (proj2 (Hall false))].
Defined.

Lemma download_miss_witness :
  ∃ s',
    @downloadFile flaky_platform dead_url root renderer_options ready
    = (s', Throw (FetchFailed dead_url))
    ∧ files (world s')
      = files (world (@ensureDirSync flaky_platform
                        (@saveDirPath flaky_platform root "0123") ready).1)
    ∧ pending (world s') = pending (world ready)
    ∧ requests (world s') = requests (world ready) ++ [dead_url]
    ∧ logs s' = logs ready ∧ downloaded s' = downloaded ready.
Proof.
  refine (@download_miss flaky_platform dead_url root renderer_options
            "/workspace/0123/photo.png" "workspace" "0123" "photo.png" [] ready
            (@ensureDirSync flaky_platform (@saveDirPath flaky_platform root "0123") ready).1
            _ _ _ _ _ _ _).
  - by vm_compute.
  - by vm_compute.
  - by vm_compute.
  - rewrite (surjective_pairing (ensureDirSync _ _)). apply f_equal. by vm_compute.
  - right. by vm_compute.
  - apply benign_log.
  - apply benign_count.
Defined.

Lemma rehypeAssets_shape_witness :
  bare (Root [Element "a" {[ "href" := "/assets/file.pdf" ]} [Text "file"]])
  = bare (Root [Element "a" {[ "href" := "src/assets/file.pdf" ]} [Text "file"]]).
Proof.
  apply (@rehypeAssets_keeps_shape platform None). by vm_compute.
Defined.

Lemma image_format_witness :
  isAstroImageFormat ("photo" +:+ "." +:+ "PNG")
  = includes (toLowerCase "PNG") ASTRO_IMAGE_FORMATS
  ∧ isAstroImageFormat "PNG" = includes (toLowerCase "PNG") ASTRO_IMAGE_FORMATS.
Proof. apply image_format_by_extension. by repeat split. Defined.

Lemma source_rooted_witness :
  @visit_element platform (Some []) ∅ "img" {[ "src" := "src/logo.png" ]}
  = Ok (∅, {[ "src" := "/logo.png" ]}).
Proof.
  rewrite (proj2 (proj2 (proj2 (@source_rooted_rewrite platform (Some []) ∅ "img"
                                  {[ "src" := "src/logo.png" ]} "logo.png")))
             "src/logo.png").
  - by vm_compute.
  - by vm_compute.
  - by vm_compute.
  - by vm_compute.
  - intros (_ & (l & [= <-] & Hin) & _). by apply elem_of_nil in Hin.
Defined.

Lemma repeated_images_witness :
  @rehypeAssets platform (Some ["../../assets/notion/0123/photo.png"])
    (Root ((λ props, Element "img" props [])
           <$> [ {[ "src" := "../../assets/notion/0123/photo.png"; "alt" := "one" ]};
                 {[ "src" := "../../assets/notion/0123/photo.png"; "alt" := "two" ]} ]))
  = Ok (Root (imap (λ i props,
                      Element "img"
                        {[ "__ASTRO_IMAGE_" :=
                             @json_stringify platform
                               (<["src" := "../../assets/notion/0123/photo.png"]> props) i ]} [])
                [ {[ "src" := "../../assets/notion/0123/photo.png"; "alt" := "one" ]};
                  {[ "src" := "../../assets/notion/0123/photo.png"; "alt" := "two" ]} ])).
Proof.
  apply (@repeated_images_numbered platform ["../../assets/notion/0123/photo.png"]
           "../../assets/notion/0123/photo.png" "../../assets/notion/0123/photo.png").
  - by vm_compute.
  - by vm_compute.
  - constructor.
  - by vm_compute.
  - repeat (constructor; [split; vm_compute; reflexivity|]). constructor.
Defined.

End RendererWitnesses.

Section UpwardWitnesses.
Import Example.

Lemma upward_rewrite_whole_witness :
  @visit_element platform (Some []) ∅ "img"
    {[ "src" := "../../assets/notion/0123/logo.png" ]}
  = Ok (∅, {[ "src" := "/assets/notion/0123/logo.png" ]}).
Proof.
  rewrite (@upward_rewrite_whole platform (Some []) ∅ "img"
             {[ "src" := "../../assets/notion/0123/logo.png" ]}
             "../../assets/notion/0123/logo.png" "assets/notion/0123/logo.png" 1).
  - by vm_compute.
  - by vm_compute.
  - by vm_compute.
  - by vm_compute.
  - by vm_compute.
  - intros a b r Heq. by inversion Heq.
  - intros (_ & (l & [= <-] & Hin) & _). by apply elem_of_nil in Hin.
Defined.

Lemma second_resolution_witness :
  (∃ s1 s2 p msg,
     @downloadFile platform signed_url root renderer_options ready = (s1, Ok p)
     ∧ @downloadFile platform resigned_url root renderer_options s1 = (s2, Ok p)
     ∧ s2 = exec (do! call_opt (log_cb renderer_options) msg in
                  call_opt (tag_cb renderer_options) download)
              (set_world (@asked platform resigned_url
                            (@filePath platform root "0123" "photo.png") [x2a%byte]) s1)
     ∧ requests (world s2) = requests (world ready) ++ [signed_url; resigned_url]
     ∧ pending (world s2)
       = pending (world ready)
         ++ [(@key platform (@filePath platform root "0123" "photo.png"), [x2a%byte]);
             (@key platform (@filePath platform root "0123" "photo.png"), [x2a%byte])])
  ∧ downloaded (@downloadFile platform resigned_url root renderer_options
                  (@downloadFile platform signed_url root renderer_options ready).1).1
    = 2%nat
  ∧ cachedHits (@downloadFile platform resigned_url root renderer_options
                  (@downloadFile platform signed_url root renderer_options ready).1).1
    = 0%nat.
Proof.
  split; [|by vm_compute].
  refine (@second_resolution_refetches platform signed_url resigned_url root renderer_options
            "/workspace/0123/photo.png" "workspace" "0123" "photo.png" [] ready
            (@ensureDirSync platform (@saveDirPath platform root "0123") ready).1
            [x2a%byte] [x2a%byte] _ _ _ _ _ _ _ _ _ _ _).
  - by vm_compute.
  - by vm_compute.
  - by vm_compute.
  - done.
  - apply benign_log.
  - apply benign_count.
  - by vm_compute.
  - rewrite (surjective_pairing (ensureDirSync _ _)). apply f_equal. by vm_compute.
  - by vm_compute.
  - done.
  - done.
Defined.

End UpwardWitnesses.
